(** * DataDash tabular data engine: column profiling, join suggestion, join execution

    A shallow embedding of [types.ts], [services/dataProcessor.ts]
    ([processFile], [analyzeColumn], [analyzeSheetData], [suggestJoins]),
    [services/joinEngine.ts] ([executeDataModel]), the handlers and effects
    of the join editor ([components/DataModeling.tsx]) and the alerts of the
    quality report ([components/QualityReport.tsx]), followed by the
    properties the specification states about them and by further
    properties of the code.

    Conventions of the embedding.
    - A JavaScript object used as a record with string keys ([DataRow],
      [TableCollection]) is an association list in insertion order: reading a
      key takes the first binding, writing replaces it in place or appends.
    - A [Map<string, DataRow>] is a [gmap string DataRow].
    - A [number] is an IEEE-754 double in the representation of the standard
      library ([spec_float]); a [Date] is its time value together with the
      identity of the object.
    - What the JavaScript runtime computes on numbers, dates and by parsing
      strings is not re-implemented: it is an interface, [JsRuntime], and every
      theorem holds for every implementation of it.
    - A string is the sequence of the bytes of its UTF-8 encoding. The
      lower-case mapping and [slice(0, -1)], which work on the characters of
      JavaScript, are the runtime's; what they do on ASCII strings
      ([asciiLowerCase], [asciiSliceInit]) is a hypothesis of the theorem
      that needs it.
    - The members of a [Set] are kept in insertion order, [+0] for [-0].
    - The spread of the values of a column into the arguments of [Math.min]
      and [Math.max] (lines 125-126 and 133-134 of [dataProcessor.ts]) is
      taken to stay within the number of arguments that the engine accepts
      (some hundred thousand), beyond which the call throws a [RangeError]:
      [analyzeColumn] is a total function here.
    - Products of a length with [0.8] and [0.9], and quotients compared with
      [0.9], are compared in exact arithmetic (see [gt_fraction]).
    - Reading a key ([lookupKey], [getField]) reads the keys of the object
      itself. An object also inherits the members of [Object.prototype]:
      [readKey] tells the key of the object, the inherited member and
      [undefined] apart, the module [Proto] follows the table ids of
      [executeDataModel] through the prototype, and a property of what a
      missing key gives is stated for the keys that are not inherited.
    - The keys of an object come in the order of the association list; this
      is the order of JavaScript for keys that are not array indices.
    - [executeDataModel] is modelled twice: on values, for what it computes,
      and on a store of objects, for what it writes; the second model is
      proved to compute what the first computes. *)

From Stdlib Require Import Floats.SpecFloat Strings.Ascii Strings.String.
From stdpp Require Import gmap strings pretty list sorting.

Open Scope string_scope.
Open Scope nat_scope.
Open Scope list_scope.
Open Scope stdpp_scope.

(** ** Data model ([types.ts]) *)

Definition JsNumber : Type := spec_float.

(** A [Date] object: [dateRef] is the identity of the object (two [Date]s are
    the same member of a [Set] only when they are the same object),
    [dateTime] its time value ([NaN] for an invalid date). *)
Record JsDate : Type := mkJsDate { dateRef : nat; dateTime : JsNumber }.

(** [type CellValue = string | number | boolean | Date | null | undefined] *)
Inductive CellValue : Type :=
  | VString (s : string)
  | VNumber (n : JsNumber)
  | VBoolean (b : bool)
  | VDate (d : JsDate)
  | VNull
  | VUndefined.

#[global] Instance spec_float_eq_dec : EqDecision spec_float.
Proof. solve_decision. Defined.
#[global] Instance JsDate_eq_dec : EqDecision JsDate.
Proof. solve_decision. Defined.
#[global] Instance CellValue_eq_dec : EqDecision CellValue.
Proof. solve_decision. Defined.

(** [interface DataRow { [key: string]: CellValue }] *)
Definition DataRow : Type := list (string * CellValue).

(** [enum ColumnType] *)
Inductive ColumnType : Type := STRING | NUMBER | DATE | BOOLEAN | UNKNOWN.

#[global] Instance ColumnType_eq_dec : EqDecision ColumnType.
Proof. solve_decision. Defined.

(** [interface ColumnProfile]; an optional field is an [option]. *)
Record ColumnProfile : Type := mkColumnProfile {
  name : string;
  type : ColumnType;
  nullCount : nat;
  uniqueCount : nat;
  min : option CellValue;
  max : option CellValue;
  mean : option JsNumber;
  sum : option JsNumber;
  exampleValues : list CellValue
}.

(** [interface DataSet] *)
Record DataSet : Type := mkDataSet {
  fileName : string;
  rows : list DataRow;
  columns : list ColumnProfile;
  rowCount : nat;
  primaryDateColumn : option string;
  primaryMeasureColumn : option string;
  dimensions : list string
}.

(** [interface Table extends DataSet { id; tableName }] *)
Record Table : Type := mkTable {
  tableData :> DataSet;
  id : string;
  tableName : string
}.

(** [type TableCollection = Record<string, Table>] *)
Definition TableCollection : Type := list (string * Table).

Inductive JoinType : Type := LEFT | INNER.

#[global] Instance JoinType_eq_dec : EqDecision JoinType.
Proof. solve_decision. Defined.

(** [interface JoinConfig]; its [id] field is [joinId] here, [id] being the
    field of [Table]. *)
Record JoinConfig : Type := mkJoinConfig {
  joinId : string;
  rightTableId : string;
  leftColumn : string;
  rightColumn : string;
  joinType : JoinType
}.

(** [interface DataModel] *)
Record DataModel : Type := mkDataModel {
  baseTableId : string;
  joins : list JoinConfig
}.

(** The outcome of a call that may [throw new Error(msg)]. *)
Inductive Outcome (A : Type) : Type :=
  | Returns (a : A)
  | Throws (msg : string).
Arguments Returns {A} a.
Arguments Throws {A} msg.

(** ** The JavaScript runtime, as an interface *)

Class JsRuntime : Type := {
  (** [String(n)] for a number [n] *)
  numberToString : JsNumber -> string;
  (** [String(d)] for a [Date] [d] *)
  dateToString : JsDate -> string;
  (** [!isNaN(Number(s))] for a string [s] *)
  parsesAsNumber : string -> bool;
  (** [!isNaN(Date.parse(s))] for a string [s] *)
  parsesAsDate : string -> bool;
  (** [analyzeColumn], the [NUMBER] branch: [Some (min, max, sum, mean)] of the
      values that [Number] does not send to [NaN], [None] when there is none *)
  numericSummary : list CellValue -> option (JsNumber * JsNumber * JsNumber * JsNumber);
  (** [analyzeColumn], the [DATE] branch: [Some (min, max)] as fresh [Date]s,
      [None] when no value has a valid time *)
  dateSummary : list CellValue -> option (JsDate * JsDate);
  (** [numberCols.sort(...)] of [analyzeSheetData], by the floating-point score
      [uniqueCount * (1 - nullCount / rows.length)], largest first *)
  sortByScore : nat -> list ColumnProfile -> list ColumnProfile;
  (** the state behind [crypto.randomUUID()] and one draw from it *)
  Entropy : Type;
  randomUUID : Entropy -> string * Entropy;
  (** [s.toLowerCase()]: the lower-case mapping of Unicode *)
  toLowerCase : string -> string;
  (** [s.slice(0, -1)]: [s] without its last UTF-16 code unit *)
  sliceInit : string -> string
}.

(** ** Strings and string-keyed objects *)

(** A string is the sequence of the bytes of its UTF-8 encoding, where a
    character of JavaScript (a UTF-16 code unit) is one to three bytes, or
    half of four. [isAscii s] says that every character of [s] is one byte,
    below 128. *)
Fixpoint isAscii (s : string) : bool :=
  match s with
  | EmptyString => true
  | String c s' => (nat_of_ascii c <? 128)%nat && isAscii s'
  end.

(** What [s.toLowerCase()] is on a string of ASCII characters: the letters
    [A]-[Z] are lowered and every other character is kept. On other strings
    [toLowerCase] and [sliceInit] are the runtime's ([JsRuntime]). *)
Definition lowerChar (c : ascii) : ascii :=
  let n := nat_of_ascii c in
  if (65 <=? n)%nat && (n <=? 90)%nat then ascii_of_nat (n + 32) else c.

Fixpoint asciiLowerCase (s : string) : string :=
  match s with
  | EmptyString => EmptyString
  | String c s' => String (lowerChar c) (asciiLowerCase s')
  end.

(** [s.includes(sub)] *)
Fixpoint includes (s sub : string) : bool :=
  String.prefix sub s ||
  match s with
  | EmptyString => false
  | String _ s' => includes s' sub
  end.

(** What [s.slice(0, -1)] is on a string of ASCII characters: [s] without
    its last byte. *)
Fixpoint asciiSliceInit (s : string) : string :=
  match s with
  | EmptyString => EmptyString
  | String c EmptyString => EmptyString
  | String c s' => String c (asciiSliceInit s')
  end.

(** [obj[k]] on an object with string keys; [None] is JavaScript's
    [undefined] for a missing key. *)
Fixpoint lookupKey {A : Type} (obj : list (string * A)) (k : string) : option A :=
  match obj with
  | [] => None
  | (k', a) :: obj' => if decide (k' = k) then Some a else lookupKey obj' k
  end.

(** [row[k]] *)
Definition getField (row : DataRow) (k : string) : CellValue :=
  default VUndefined (lookupKey row k).

(** [lookupKey] and [getField] read the keys of the object itself. The
    objects of the program are made by object literals and by the parser of
    the workbook, so that they inherit the members of [Object.prototype]:
    for a key that the object does not have and that is one of their
    names, [obj[k]] is the inherited member, a function (the prototype, for
    [__proto__]), and not [undefined]. *)
Definition objectPrototypeNames : list string :=
  ["constructor"; "__defineGetter__"; "__defineSetter__"; "hasOwnProperty";
   "__lookupGetter__"; "__lookupSetter__"; "isPrototypeOf"; "propertyIsEnumerable";
   "toString"; "valueOf"; "__proto__"; "toLocaleString"].

(** [obj[k]] with what is inherited: the value of a key of the object, a
    member of [Object.prototype], or [undefined]. *)
Inductive Read (A : Type) : Type :=
  | Own (a : A)
  | Inherited
  | Missing.
Arguments Own {A} a.
Arguments Inherited {A}.
Arguments Missing {A}.

Definition readKey {A : Type} (obj : list (string * A)) (k : string) : Read A :=
  match lookupKey obj k with
  | Some a => Own a
  | None => if decide (k ∈ objectPrototypeNames) then Inherited else Missing
  end.

(** [row[k] = v]: an existing key keeps its place, a new key goes last. *)
Fixpoint setField (row : DataRow) (k : string) (v : CellValue) : DataRow :=
  match row with
  | [] => [(k, v)]
  | (k', v') :: row' =>
      if decide (k' = k) then (k, v) :: row' else (k', v') :: setField row' k v
  end.

(** [{ ...row }]: the copy has the fields of [row], in the same order. (That
    the copy is a new object is the business of the store model below.) *)
Definition spread (row : DataRow) : DataRow := row.

(** ** [executeDataModel] ([services/joinEngine.ts]) *)

Record JoinState : Type := mkJoinState {
  resultRows : list DataRow;
  resultColumns : list ColumnProfile;
  currentDimensions : list string
}.

Section JoinEngine.
Context `{JsRuntime}.

(** [String(v)] *)
Definition toJsString (v : CellValue) : string :=
  match v with
  | VString s => s
  | VNumber n => numberToString n
  | VBoolean true => "true"
  | VBoolean false => "false"
  | VDate d => dateToString d
  | VNull => "null"
  | VUndefined => "undefined"
  end.

(** [rightTable.rows.forEach(row => rightMap.set(String(row[rightColumn]), row))] *)
Definition buildRightMap (rightCol : string) (rightRows : list DataRow)
  : gmap string DataRow :=
  foldl (fun rightMap row => <[toJsString (getField row rightCol) := row]> rightMap)
        ∅ rightRows.

(** [`${rightPrefix}.${col.name}`] *)
Definition prefixed (rightPrefix colName : string) : string :=
  rightPrefix +:+ "." +:+ colName.

(** [{ ...col, name: `${rightPrefix}.${col.name}` }] *)
Definition renameColumn (rightPrefix : string) (col : ColumnProfile) : ColumnProfile :=
  {| name := prefixed rightPrefix (name col);
     type := type col;
     nullCount := nullCount col;
     uniqueCount := uniqueCount col;
     min := min col;
     max := max col;
     mean := mean col;
     sum := sum col;
     exampleValues := exampleValues col |}.

(** The branch "match found": [mergedRow = { ...leftRow }], then one
    assignment per right column. *)
Definition mergeMatched (rightPrefix : string) (rightColumns : list ColumnProfile)
    (rightRow leftRow : DataRow) : DataRow :=
  foldl (fun mergedRow col =>
           setField mergedRow (prefixed rightPrefix (name col)) (getField rightRow (name col)))
        (spread leftRow) rightColumns.

(** The branch "no match" of a [LEFT] join: the same with [null]. *)
Definition mergeNulls (rightPrefix : string) (rightColumns : list ColumnProfile)
    (leftRow : DataRow) : DataRow :=
  foldl (fun mergedRow col => setField mergedRow (prefixed rightPrefix (name col)) VNull)
        (spread leftRow) rightColumns.

(** One iteration of [for (const leftRow of resultRows)]. *)
Definition probe (join : JoinConfig) (rightTable : Table)
    (rightMap : gmap string DataRow) (newRows : list DataRow) (leftRow : DataRow)
  : list DataRow :=
  let key := toJsString (getField leftRow (leftColumn join)) in
  match rightMap !! key with
  | Some rightRow =>
      newRows ++ [mergeMatched (tableName rightTable) (columns rightTable) rightRow leftRow]
  | None =>
      match joinType join with
      | LEFT => newRows ++ [mergeNulls (tableName rightTable) (columns rightTable) leftRow]
      | INNER => newRows
      end
  end.

(** One iteration of [for (const join of model.joins)]. *)
Definition joinStep (tables : TableCollection) (st : JoinState) (join : JoinConfig)
  : JoinState :=
  match lookupKey tables (rightTableId join) with
  | None => st
  | Some rightTable =>
      let rightMap := buildRightMap (rightColumn join) (rows rightTable) in
      let rightPrefix := tableName rightTable in
      let rightColsRenamed := map (renameColumn rightPrefix) (columns rightTable) in
      let newRows := foldl (probe join rightTable rightMap) [] (resultRows st) in
      let newDims := map (prefixed rightPrefix) (dimensions rightTable) in
      {| resultRows := newRows;
         resultColumns := resultColumns st ++ rightColsRenamed;
         currentDimensions := currentDimensions st ++ newDims |}
  end.

Definition initialState (baseTable : Table) : JoinState :=
  {| resultRows := map spread (rows baseTable);
     resultColumns := columns baseTable;
     currentDimensions := dimensions baseTable |}.

Definition executeDataModel (tables : TableCollection) (model : DataModel)
  : Outcome DataSet :=
  match lookupKey tables (baseTableId model) with
  | None => Throws "Base table not found"
  | Some baseTable =>
      let st := foldl (joinStep tables) (initialState baseTable) (joins model) in
      Returns
        {| fileName := "Model: " +:+ tableName baseTable +:+ " + "
                         +:+ pretty (length (joins model)) +:+ " joins";
           rows := resultRows st;
           columns := resultColumns st;
           rowCount := length (resultRows st);
           primaryDateColumn := primaryDateColumn baseTable;
           primaryMeasureColumn := primaryMeasureColumn baseTable;
           dimensions := currentDimensions st |}
  end.

(** What one accumulator row becomes in a join: [Some] merged row, or [None]
    when the row is filtered out. *)
Definition joinedRow (join : JoinConfig) (rightTable : Table)
    (rightMap : gmap string DataRow) (leftRow : DataRow) : option DataRow :=
  match rightMap !! toJsString (getField leftRow (leftColumn join)) with
  | Some rightRow =>
      Some (mergeMatched (tableName rightTable) (columns rightTable) rightRow leftRow)
  | None =>
      match joinType join with
      | LEFT => Some (mergeNulls (tableName rightTable) (columns rightTable) leftRow)
      | INNER => None
      end
  end.

End JoinEngine.

(** ** [executeDataModel], with the table ids read through the prototype

    The functions above take [tables[id]] for [undefined] whenever [id] is
    no key of the collection. The functions of this module follow the two
    reads of lines 8 and 18 through [Object.prototype] as well: an
    inherited member is truthy, so that it passes the guards of lines 9 and
    19, and it has no [rows], so that [baseTable.rows.map] (line 12) and
    [rightTable.rows.forEach] (line 29) throw a [TypeError]. The rest is as
    above. *)
Module Proto.
Section Proto.
Context `{JsRuntime}.

(** One iteration of [for (const join of model.joins)]; an exception ends
    the loop. *)
Definition joinStep (tables : TableCollection) (acc : Outcome JoinState) (join : JoinConfig)
  : Outcome JoinState :=
  match acc with
  | Throws msg => Throws msg
  | Returns st =>
      match readKey tables (rightTableId join) with
      | Missing => Returns st
      | Inherited =>
          Throws "TypeError: Cannot read properties of undefined (reading 'forEach')"
      | Own rightTable =>
          let rightMap := buildRightMap (rightColumn join) (rows rightTable) in
          let rightPrefix := tableName rightTable in
          let rightColsRenamed := map (renameColumn rightPrefix) (columns rightTable) in
          let newRows := foldl (probe join rightTable rightMap) [] (resultRows st) in
          let newDims := map (prefixed rightPrefix) (dimensions rightTable) in
          Returns {| resultRows := newRows;
                     resultColumns := resultColumns st ++ rightColsRenamed;
                     currentDimensions := currentDimensions st ++ newDims |}
      end
  end.

Definition executeDataModel (tables : TableCollection) (model : DataModel)
  : Outcome DataSet :=
  match readKey tables (baseTableId model) with
  | Missing => Throws "Base table not found"
  | Inherited => Throws "TypeError: Cannot read properties of undefined (reading 'map')"
  | Own baseTable =>
      match foldl (joinStep tables) (Returns (initialState baseTable)) (joins model) with
      | Throws msg => Throws msg
      | Returns st =>
          Returns
            {| fileName := "Model: " +:+ tableName baseTable +:+ " + "
                             +:+ pretty (length (joins model)) +:+ " joins";
               rows := resultRows st;
               columns := resultColumns st;
               rowCount := length (resultRows st);
               primaryDateColumn := primaryDateColumn baseTable;
               primaryMeasureColumn := primaryMeasureColumn baseTable;
               dimensions := currentDimensions st |}
      end
  end.

End Proto.
End Proto.

(** ** [analyzeColumn] and [analyzeSheetData] ([services/dataProcessor.ts]) *)

(** [count > n * (num / den)] for [num / den] one of [0.8], [0.9]. The double
    nearest to [0.8] (to [0.9]) exceeds it by a relative [2^-54] (less for
    [0.9]), which is under half a unit in the last place of the product; so
    the rounded product is the exact one when that is an integer, and else
    lies strictly between the same two integers: the comparison with an
    integer [count] is the one of exact arithmetic (for lengths below
    [2^50]). [count < n * (num / den)] is [lt_fraction], for the same
    reason. *)
Definition gt_fraction (count n num den : nat) : bool := n * num <? count * den.
Definition lt_fraction (count n num den : nat) : bool := count * den <? n * num.

(** [val === null || val === undefined || val === ''] *)
Definition isAbsent (val : CellValue) : bool :=
  match val with
  | VNull | VUndefined | VString EmptyString => true
  | _ => false
  end.

(** The comparison of the members of a [Set] (SameValueZero): [NaN] is equal
    to itself, [+0] to [-0], a [Date] to the same object only. *)
Definition numberSameValueZero (x y : JsNumber) : bool :=
  match x, y with
  | S754_zero _, S754_zero _ => true
  | _, _ => bool_decide (x = y)
  end.

Definition sameValueZero (a b : CellValue) : bool :=
  match a, b with
  | VString s, VString t => bool_decide (s = t)
  | VNumber x, VNumber y => numberSameValueZero x y
  | VBoolean x, VBoolean y => bool_decide (x = y)
  | VDate d, VDate e => bool_decide (dateRef d = dateRef e)
  | VNull, VNull => true
  | VUndefined, VUndefined => true
  | _, _ => false
  end.

(** [distinct.add(val)] on a [Set], kept in insertion order. The member
    that a [Set] holds for [-0] is [+0]; every other value is held as it
    is. *)
Definition setMember (val : CellValue) : CellValue :=
  match val with
  | VNumber (S754_zero _) => VNumber (S754_zero false)
  | _ => val
  end.

Definition setAdd (distinct : list CellValue) (val : CellValue) : list CellValue :=
  if existsb (sameValueZero val) distinct then distinct else distinct ++ [setMember val].

(** [typeCounts] *)
Record TypeCounts : Type := mkTypeCounts {
  countSTRING : nat;
  countNUMBER : nat;
  countDATE : nat;
  countBOOLEAN : nat
}.

(** [typeCounts[ty]++] *)
Definition bump (ty : ColumnType) (tc : TypeCounts) : TypeCounts :=
  match ty with
  | STRING => mkTypeCounts (S (countSTRING tc)) (countNUMBER tc) (countDATE tc) (countBOOLEAN tc)
  | NUMBER => mkTypeCounts (countSTRING tc) (S (countNUMBER tc)) (countDATE tc) (countBOOLEAN tc)
  | DATE => mkTypeCounts (countSTRING tc) (countNUMBER tc) (S (countDATE tc)) (countBOOLEAN tc)
  | BOOLEAN => mkTypeCounts (countSTRING tc) (countNUMBER tc) (countDATE tc) (S (countBOOLEAN tc))
  | UNKNOWN => tc
  end.

(** The variables of the loop of [analyzeColumn]. *)
Record Scan : Type := mkScan {
  nulls : nat;
  values : list CellValue;
  distinct : list CellValue;
  typeCounts : TypeCounts
}.

Section Profiler.
Context `{JsRuntime}.

(** The type counted for a present value (lines 104-111). [null] and
    [undefined] never get here; the table gives what the last branch would
    do with them ([Number(null)] is [0], [Number(undefined)] is [NaN]).
    [String.length] counts bytes where JavaScript counts UTF-16 units. *)
Definition classify (val : CellValue) : ColumnType :=
  match val with
  | VDate _ => DATE
  | VNumber _ => NUMBER
  | VBoolean _ => BOOLEAN
  | VString s =>
      if parsesAsNumber s && negb (bool_decide (s = "")) then NUMBER
      else if parsesAsDate s && (5 <? String.length s) then DATE
      else STRING
  | VNull => NUMBER
  | VUndefined => STRING
  end.

(** The body of [for (const row of rows)]. *)
Definition scanRow (key : string) (st : Scan) (row : DataRow) : Scan :=
  let val := getField row key in
  if isAbsent val then
    mkScan (S (nulls st)) (values st) (distinct st) (typeCounts st)
  else
    mkScan (nulls st) (values st ++ [val]) (setAdd (distinct st) val)
           (bump (classify val) (typeCounts st)).

Definition scanStart : Scan := mkScan 0 [] [] (mkTypeCounts 0 0 0 0).

(** Lines 115-118. *)
Definition decideType (tc : TypeCounts) (present : nat) : ColumnType :=
  if gt_fraction (countDATE tc) present 8 10 then DATE
  else if gt_fraction (countNUMBER tc) present 8 10 then NUMBER
  else if gt_fraction (countBOOLEAN tc) present 9 10 then BOOLEAN
  else STRING.

Definition analyzeColumn (key : string) (rows : list DataRow) : ColumnProfile :=
  let st := foldl (scanRow key) scanStart rows in
  let type := decideType (typeCounts st) (length (values st)) in
  let '(min, max, sum, mean) :=
    match type with
    | NUMBER =>
        match numericSummary (values st) with
        | Some (mn, mx, sm, me) => (Some (VNumber mn), Some (VNumber mx), Some sm, Some me)
        | None => (None, None, None, None)
        end
    | DATE =>
        match dateSummary (values st) with
        | Some (mn, mx) => (Some (VDate mn), Some (VDate mx), None, None)
        | None => (None, None, None, None)
        end
    | _ => (None, None, None, None)
    end in
  {| name := key;
     type := type;
     nullCount := nulls st;
     uniqueCount := length (distinct st);
     min := min;
     max := max;
     mean := mean;
     sum := sum;
     exampleValues := take 5 (distinct st) |}.

(** [Object.keys(row)]: the keys in the order of the association list. *)
Definition objectKeys {A : Type} (obj : list (string * A)) : list string := map fst obj.

(** [cols.sort((a, b) => a.uniqueCount - b.uniqueCount)]; the sort of
    JavaScript is stable, as is insertion from the right. *)
Fixpoint insertByUnique (c : ColumnProfile) (sorted : list ColumnProfile)
  : list ColumnProfile :=
  match sorted with
  | [] => [c]
  | d :: sorted' =>
      if uniqueCount c <=? uniqueCount d then c :: d :: sorted'
      else d :: insertByUnique c sorted'
  end.

Definition sortByUnique (cols : list ColumnProfile) : list ColumnProfile :=
  foldr insertByUnique [] cols.

(** The filter of the dimensions (line 68). *)
Definition isDimension (rowTotal : nat) (c : ColumnProfile) : bool :=
  bool_decide (type c = STRING) && (uniqueCount c <=? 100)
  && lt_fraction (uniqueCount c) rowTotal 9 10.

(** [rawRows[0]] of an empty array is [undefined], and [Object.keys] throws on
    it. *)
Definition analyzeSheetData (rawRows : list DataRow) (fileName : string)
  : Outcome DataSet :=
  match rawRows with
  | [] => Throws "TypeError: Cannot convert undefined or null to object"
  | firstRow :: _ =>
      let keys := objectKeys firstRow in
      let columns := map (fun key => analyzeColumn key rawRows) keys in
      let dateCol :=
        name <$> find (fun c => bool_decide (type c = DATE) && (1 <? uniqueCount c)) columns in
      let numberCols :=
        sortByScore (length rawRows) (filter (fun c => type c = NUMBER) columns) in
      let measureCol := name <$> head numberCols in
      let dimensions :=
        map name (sortByUnique (filter (fun c => isDimension (length rawRows) c) columns)) in
      Returns
        {| fileName := fileName;
           rows := rawRows;
           columns := columns;
           rowCount := length rawRows;
           primaryDateColumn := dateCol;
           primaryMeasureColumn := measureCol;
           dimensions := dimensions |}
  end.

End Profiler.

(** ** [suggestJoins] ([services/dataProcessor.ts]) *)

Section Suggester.
Context `{JsRuntime}.

(** [col.uniqueCount / table.rowCount > 0.9]. The rounded quotient is above
    the double nearest to [0.9] exactly when the exact one is above [0.9]
    (for row counts below [2^49]: an exact quotient above [0.9] exceeds it by
    at least [1 / (10 * rowCount)]). A quotient over [0] is [Infinity] or
    [NaN]: above [0.9] exactly when [uniqueCount] is not [0], which the
    products give as well. *)
Definition nearUnique (col : ColumnProfile) (table : Table) : bool :=
  gt_fraction (uniqueCount col) (rowCount table) 9 10.

(** The body of the inner loop of Strategy 1; [bestJoin] and the state of
    [crypto.randomUUID] are threaded through. *)
Definition nameMatch (dimTable : Table) (baseCol : ColumnProfile)
    (acc : option JoinConfig * Entropy) (dimCol : ColumnProfile)
  : option JoinConfig * Entropy :=
  if bool_decide (toLowerCase (name baseCol) = toLowerCase (name dimCol)) then
    if nearUnique dimCol dimTable then
      let '(uuid, g) := randomUUID (snd acc) in
      (Some {| joinId := uuid;
               rightTableId := id dimTable;
               leftColumn := name baseCol;
               rightColumn := name dimCol;
               joinType := LEFT |}, g)
    else acc
  else acc.

Definition strategy1 (baseTable dimTable : Table) (g : Entropy)
  : option JoinConfig * Entropy :=
  foldl (fun acc baseCol => foldl (nameMatch dimTable baseCol) acc (columns dimTable))
        (None, g) (columns baseTable).

(** The test of [dimTable.columns.find] (lines 186-190). *)
Definition isIdColumn (dimTable : Table) (c : ColumnProfile) : bool :=
  bool_decide (toLowerCase (name c) = "id")
  || bool_decide (toLowerCase (name c) = toLowerCase (tableName dimTable) +:+ "_id")
  || bool_decide (toLowerCase (name c) = sliceInit (toLowerCase (tableName dimTable)) +:+ "_id").

(** [fkName] (line 194) *)
Definition fkName (dimTable : Table) : string :=
  sliceInit (toLowerCase (tableName dimTable)) +:+ "_id".

(** The test of [baseTable.columns.find] (lines 195-198). *)
Definition isForeignKey (dimTable : Table) (c : ColumnProfile) : bool :=
  includes (toLowerCase (name c)) (toLowerCase (tableName dimTable))
  || bool_decide (toLowerCase (name c) = fkName dimTable).

Definition strategy2 (baseTable dimTable : Table) (g : Entropy)
  : option JoinConfig * Entropy :=
  match find (isIdColumn dimTable) (columns dimTable) with
  | Some dimIdCol =>
      if nearUnique dimIdCol dimTable then
        match find (isForeignKey dimTable) (columns baseTable) with
        | Some matchingBaseCol =>
            let '(uuid, g') := randomUUID g in
            (Some {| joinId := uuid;
                     rightTableId := id dimTable;
                     leftColumn := name matchingBaseCol;
                     rightColumn := name dimIdCol;
                     joinType := LEFT |}, g')
        | None => (None, g)
        end
      else (None, g)
  | None => (None, g)
  end.

(** What the callback of [potentialDimensions.forEach] finds for one table. *)
Definition bestJoinFor (baseTable dimTable : Table) (g : Entropy)
  : option JoinConfig * Entropy :=
  match strategy1 baseTable dimTable g with
  | (Some bestJoin, g') => (Some bestJoin, g')
  | (None, g') => strategy2 baseTable dimTable g'
  end.

(** The callback itself: [if (bestJoin) suggestions.push(bestJoin)]. *)
Definition suggestFor (baseTable : Table) (acc : list JoinConfig * Entropy)
    (dimTable : Table) : list JoinConfig * Entropy :=
  match bestJoinFor baseTable dimTable (snd acc) with
  | (Some bestJoin, g) => (fst acc ++ [bestJoin], g)
  | (None, g) => (fst acc, g)
  end.

(** [Object.values(tables)] *)
Definition objectValues {A : Type} (obj : list (string * A)) : list A := map snd obj.

Definition suggestJoins (baseTableId : string) (tables : TableCollection) (g : Entropy)
  : list JoinConfig * Entropy :=
  match lookupKey tables baseTableId with
  | None => ([], g)
  | Some baseTable =>
      let potentialDimensions :=
        filter (fun t => id t ≠ baseTableId) (objectValues tables) in
      foldl (suggestFor baseTable) ([], g) potentialDimensions
  end.

End Suggester.

(** ** [executeDataModel] over a store of objects

    The functions above compute values. To say what a call writes, the same
    code is modelled once more over a store: rows, arrays, column profiles
    and tables are objects at references, [{ ...r }], [[...a]], [.map] and
    an empty array literal allocate, [mergedRow[k] = v] and [newRows.push]
    write. The table collection and the model, which the code only reads
    and which hold references and strings, are passed as values; the
    [exampleValues] array of a profile is part of the profile (the copy of a
    profile shares it, and nothing writes to it). *)

(** References are positions in the store. *)
Abbreviation Ref := nat.

Record DataSetObj : Type := mkDataSetObj {
  fileNameOf : string;
  rowsRef : Ref;
  columnsRef : Ref;
  rowCountOf : nat;
  primaryDateColumnOf : option string;
  primaryMeasureColumnOf : option string;
  dimensionsRef : Ref
}.

Record TableObj : Type := mkTableObj {
  dataOf :> DataSetObj;
  idOf : string;
  tableNameOf : string
}.

Inductive Obj : Type :=
  | ORow (fields : DataRow)
  | ORowArray (elems : list Ref)
  | OProfile (profile : ColumnProfile)
  | OProfileArray (elems : list Ref)
  | ONameArray (elems : list string)
  | OTable (table : TableObj).

(** The store: the object at reference [l] is the [l]-th element. *)
Abbreviation Store := (list Obj).

(** A computation on the store; reading what is not there, or not of the
    expected kind, throws (as reading a property of [undefined] does). *)
Definition Heap (A : Type) : Type := Store -> Outcome A * Store.

#[global] Instance Heap_ret : MRet Heap := fun A a σ => (Returns a, σ).

#[global] Instance Heap_bind : MBind Heap := fun A B k c σ =>
  match c σ with
  | (Returns a, σ') => k a σ'
  | (Throws msg, σ') => (Throws msg, σ')
  end.

Definition throw {A : Type} (msg : string) : Heap A := fun σ => (Throws msg, σ).

Definition typeError {A : Type} : Heap A := throw "TypeError".

Definition alloc (o : Obj) : Heap Ref := fun σ => (Returns (length σ), σ ++ [o]).

Definition load (l : Ref) : Heap Obj := fun σ =>
  match σ !! l with
  | Some o => (Returns o, σ)
  | None => (Throws "TypeError", σ)
  end.

Definition store (l : Ref) (o : Obj) : Heap unit := fun σ => (Returns (), <[l := o]> σ).

Definition loadRow (l : Ref) : Heap DataRow :=
  o ← load l; match o with ORow r => mret r | _ => typeError end.

Definition loadRowArray (l : Ref) : Heap (list Ref) :=
  o ← load l; match o with ORowArray a => mret a | _ => typeError end.

Definition loadProfile (l : Ref) : Heap ColumnProfile :=
  o ← load l; match o with OProfile c => mret c | _ => typeError end.

Definition loadProfileArray (l : Ref) : Heap (list Ref) :=
  o ← load l; match o with OProfileArray a => mret a | _ => typeError end.

Definition loadNameArray (l : Ref) : Heap (list string) :=
  o ← load l; match o with ONameArray a => mret a | _ => typeError end.

Definition loadTable (l : Ref) : Heap TableObj :=
  o ← load l; match o with OTable t => mret t | _ => typeError end.

(** [xs.forEach(f)] and [for (const x of xs)] *)
Fixpoint forEach {A : Type} (f : A -> Heap unit) (xs : list A) : Heap unit :=
  match xs with
  | [] => mret ()
  | x :: xs' => _ ← f x; forEach f xs'
  end.

(** The elements of [xs.map(f)] *)
Fixpoint mapEach {A B : Type} (f : A -> Heap B) (xs : list A) : Heap (list B) :=
  match xs with
  | [] => mret []
  | x :: xs' => y ← f x; ys ← mapEach f xs'; mret (y :: ys)
  end.

(** A loop that updates local variables [s]. *)
Fixpoint foldEach {A S : Type} (f : S -> A -> Heap S) (s : S) (xs : list A) : Heap S :=
  match xs with
  | [] => mret s
  | x :: xs' => s' ← f s x; foldEach f s' xs'
  end.

Module Imp.
Section Imp.
Context `{JsRuntime}.

(** [{ ...row }] *)
Definition copyRow (row : Ref) : Heap Ref :=
  fields ← loadRow row; alloc (ORow (spread fields)).

(** [row[k] = v] *)
Definition assign (row : Ref) (k : string) (v : CellValue) : Heap unit :=
  fields ← loadRow row; store row (ORow (setField fields k v)).

(** [rows.push(row)] *)
Definition push (rows : Ref) (row : Ref) : Heap unit :=
  elems ← loadRowArray rows; store rows (ORowArray (elems ++ [row])).

(** [rightTable.rows.forEach(row => rightMap.set(String(row[rightColumn]), row))];
    the [Map] is local to the call and holds references to the right rows. *)
Definition buildRightMap (rightCol : string) (rightRows : list Ref) : Heap (gmap string Ref) :=
  foldEach (fun rightMap row =>
              fields ← loadRow row;
              mret (<[toJsString (getField fields rightCol) := row]> rightMap))
           ∅ rightRows.

(** [rightTable.columns.forEach(col => mergedRow[`${rightPrefix}.${col.name}`] = value(col))] *)
Definition assignColumns (rightTable : TableObj) (mergedRow : Ref)
    (value : ColumnProfile -> Heap CellValue) : Heap unit :=
  cols ← loadProfileArray (columnsRef rightTable);
  forEach (fun c =>
             col ← loadProfile c;
             v ← value col;
             assign mergedRow (prefixed (tableNameOf rightTable) (name col)) v)
          cols.

(** One iteration of [for (const leftRow of resultRows)]. *)
Definition probe (join : JoinConfig) (rightTable : TableObj)
    (rightMap : gmap string Ref) (newRows : Ref) (leftRow : Ref) : Heap unit :=
  leftFields ← loadRow leftRow;
  match rightMap !! toJsString (getField leftFields (leftColumn join)) with
  | Some rightRow =>
      mergedRow ← copyRow leftRow;
      _ ← assignColumns rightTable mergedRow
            (fun col => rightFields ← loadRow rightRow; mret (getField rightFields (name col)));
      push newRows mergedRow
  | None =>
      match joinType join with
      | LEFT =>
          mergedRow ← copyRow leftRow;
          _ ← assignColumns rightTable mergedRow (fun _ => mret VNull);
          push newRows mergedRow
      | INNER => mret ()
      end
  end.

(** One iteration of [for (const join of model.joins)]; the local variables
    are the references [resultRows], [resultColumns], [currentDimensions]. *)
Definition joinStep (tables : list (string * Ref)) (vars : Ref * Ref * Ref)
    (join : JoinConfig) : Heap (Ref * Ref * Ref) :=
  let '(resultRows, resultColumns, currentDimensions) := vars in
  match lookupKey tables (rightTableId join) with
  | None => mret vars
  | Some rightRef =>
      rightTable ← loadTable rightRef;
      rightRows ← loadRowArray (rowsRef rightTable);
      rightMap ← buildRightMap (rightColumn join) rightRows;
      rightCols ← loadProfileArray (columnsRef rightTable);
      renamed ← mapEach (fun c =>
                           col ← loadProfile c;
                           alloc (OProfile (renameColumn (tableNameOf rightTable) col)))
                        rightCols;
      rightColsRenamed ← alloc (OProfileArray renamed);
      newRows ← alloc (ORowArray []);
      accRows ← loadRowArray resultRows;
      _ ← forEach (probe join rightTable rightMap newRows) accRows;
      oldCols ← loadProfileArray resultColumns;
      renamedElems ← loadProfileArray rightColsRenamed;
      resultColumns' ← alloc (OProfileArray (oldCols ++ renamedElems));
      rightDims ← loadNameArray (dimensionsRef rightTable);
      newDims ← alloc (ONameArray (map (prefixed (tableNameOf rightTable)) rightDims));
      oldDims ← loadNameArray currentDimensions;
      newDimElems ← loadNameArray newDims;
      currentDimensions' ← alloc (ONameArray (oldDims ++ newDimElems));
      mret (newRows, resultColumns', currentDimensions')
  end.

Definition executeDataModel (tables : list (string * Ref)) (model : DataModel)
  : Heap DataSetObj :=
  match lookupKey tables (baseTableId model) with
  | None => throw "Base table not found"
  | Some baseRef =>
      baseTable ← loadTable baseRef;
      baseRows ← loadRowArray (rowsRef baseTable);
      copies ← mapEach copyRow baseRows;
      resultRows ← alloc (ORowArray copies);
      baseCols ← loadProfileArray (columnsRef baseTable);
      resultColumns ← alloc (OProfileArray baseCols);
      baseDims ← loadNameArray (dimensionsRef baseTable);
      currentDimensions ← alloc (ONameArray baseDims);
      vars ← foldEach (joinStep tables) (resultRows, resultColumns, currentDimensions)
                      (joins model);
      let '(resultRows, resultColumns, currentDimensions) := vars in
      finalRows ← loadRowArray resultRows;
      mret {| fileNameOf := "Model: " +:+ tableNameOf baseTable +:+ " + "
                              +:+ pretty (length (joins model)) +:+ " joins";
              rowsRef := resultRows;
              columnsRef := resultColumns;
              rowCountOf := length finalRows;
              primaryDateColumnOf := primaryDateColumnOf baseTable;
              primaryMeasureColumnOf := primaryMeasureColumnOf baseTable;
              dimensionsRef := currentDimensions |}
  end.

End Imp.
End Imp.

(** ** Reading values back from the store *)

Definition readRow (σ : Store) (l : Ref) : option DataRow :=
  match σ !! l with Some (ORow r) => Some r | _ => None end.

Definition readRows (σ : Store) (l : Ref) : option (list DataRow) :=
  match σ !! l with Some (ORowArray a) => mapM (readRow σ) a | _ => None end.

Definition readProfile (σ : Store) (l : Ref) : option ColumnProfile :=
  match σ !! l with Some (OProfile c) => Some c | _ => None end.

Definition readProfiles (σ : Store) (l : Ref) : option (list ColumnProfile) :=
  match σ !! l with Some (OProfileArray a) => mapM (readProfile σ) a | _ => None end.

Definition readNames (σ : Store) (l : Ref) : option (list string) :=
  match σ !! l with Some (ONameArray a) => Some a | _ => None end.

Definition readDataSet (σ : Store) (d : DataSetObj) : option DataSet :=
  rs ← readRows σ (rowsRef d);
  cs ← readProfiles σ (columnsRef d);
  ds ← readNames σ (dimensionsRef d);
  Some {| fileName := fileNameOf d;
          rows := rs;
          columns := cs;
          rowCount := rowCountOf d;
          primaryDateColumn := primaryDateColumnOf d;
          primaryMeasureColumn := primaryMeasureColumnOf d;
          dimensions := ds |}.

Definition readTable (σ : Store) (l : Ref) : option Table :=
  match σ !! l with
  | Some (OTable t) =>
      d ← readDataSet σ t;
      Some {| tableData := d; id := idOf t; tableName := tableNameOf t |}
  | _ => None
  end.

(** The collection that a collection of references stands for. *)
Definition readTables (σ : Store) (refs : list (string * Ref)) : option TableCollection :=
  mapM (fun entry => t ← readTable σ (snd entry); Some (fst entry, t)) refs.

(** The local variables of the loop over the joins, read back. *)
Definition readVars (σ : Store) (vars : Ref * Ref * Ref) : option JoinState :=
  rs ← readRows σ vars.1.1;
  cs ← readProfiles σ vars.1.2;
  ds ← readNames σ vars.2;
  Some {| resultRows := rs; resultColumns := cs; currentDimensions := ds |}.

(** ** Vocabulary of the properties *)

(** Two outcomes that agree on everything but the [fileName] label. *)
Definition sameData (a b : Outcome DataSet) : Prop :=
  match a, b with
  | Returns d1, Returns d2 =>
      rows d1 = rows d2 /\ columns d1 = columns d2 /\ rowCount d1 = rowCount d2
      /\ primaryDateColumn d1 = primaryDateColumn d2
      /\ primaryMeasureColumn d1 = primaryMeasureColumn d2
      /\ dimensions d1 = dimensions d2
  | Throws m1, Throws m2 => m1 = m2
  | _, _ => False
  end.

(** The values of a column, row by row, and those of them that are present. *)
Definition columnValues (key : string) (rows : list DataRow) : list CellValue :=
  map (fun row => getField row key) rows.

Definition presentValues (key : string) (rows : list DataRow) : list CellValue :=
  filter (fun val => isAbsent val = false) (columnValues key rows).

(** How many values of a list are counted for a type. *)
Definition parsedAs `{JsRuntime} (ty : ColumnType) (vals : list CellValue) : nat :=
  length (filter (fun val => classify val = ty) vals).

(** The decision of the type as the specification words it, with "at least"
    80%, 80% and 90% of the present values. *)
Definition specDecideType (dates numbers booleans present : nat) : ColumnType :=
  if present * 8 <=? dates * 10 then DATE
  else if present * 8 <=? numbers * 10 then NUMBER
  else if present * 9 <=? booleans * 10 then BOOLEAN
  else STRING.

(** Whether a name contains the separator of the prefix. *)
Fixpoint hasDot (s : string) : bool :=
  match s with
  | EmptyString => false
  | String c s' => bool_decide (c = "."%char) || hasDot s'
  end.

(** The right tables that the loop of [executeDataModel] joins, in order: one
    for each join whose right table is in the collection. *)
Definition joinedTables (tables : TableCollection) (joins : list JoinConfig) : list Table :=
  omap (fun join => lookupKey tables (rightTableId join)) joins.

(** [keeps σ0 c Q]: run from a store that extends [σ0], [c] ends in a store
    that extends [σ0], and what it returns satisfies [Q]. *)
Definition keeps {A : Type} (σ0 : Store) (c : Heap A) (Q : A -> Prop) : Prop :=
  forall σ, σ0 `prefix_of` σ ->
    σ0 `prefix_of` snd (c σ) /\ forall a, fst (c σ) = Returns a -> Q a.

(** A reference that [σ0] does not hold. *)
Definition freshFor (σ0 : Store) (l : Ref) : Prop := length σ0 ≤ l.

(** The three local variables refer to objects that [σ0] does not hold. *)
Definition freshVars (σ0 : Store) (vars : Ref * Ref * Ref) : Prop :=
  freshFor σ0 vars.1.1 /\ freshFor σ0 vars.1.2 /\ freshFor σ0 vars.2.

(** The store while the loop over the accumulator rows runs: [σ] as it was
    before [newRows] was allocated, then [newRows] with the references pushed
    so far, then the merged rows they refer to. *)
Definition probing (σ : Store) (merged : list DataRow) : Store :=
  σ ++ [ORowArray (seq (S (length σ)) (length merged))] ++ (ORow <$> merged).

(** A local [Map] of row references stands for a map of rows. *)
Definition mapStandsFor (σ : Store) (refMap : gmap string Ref)
    (rowMap : gmap string DataRow) : Prop :=
  forall k,
    match refMap !! k, rowMap !! k with
    | Some l, Some r => σ !! l = Some (ORow r)
    | None, None => True
    | _, _ => False
    end.

(** ** A runtime to run the model on examples

    Whole numbers print in decimal, as JavaScript prints them below [1e21];
    a string parses as a number when it is a run of digits (the empty string
    too: [Number('')] is [0]); strings are lowered and sliced as ASCII
    strings, which the names of the examples are. The rest is a placeholder
    (no string parses as a date, the summaries are left out, the score order
    is the column order); no example below depends on it. *)

Definition ofInt (z : Z) : JsNumber := binary_normalize 53 1024 z 0 false.

Definition intToString (x : JsNumber) : string :=
  match x with
  | S754_zero _ => "0"
  | S754_infinity false => "Infinity"
  | S754_infinity true => "-Infinity"
  | S754_nan => "NaN"
  | S754_finite s m e =>
      let z := match e with
               | Z0 => Z.pos m
               | Z.pos p => Z.pos m * 2 ^ Z.pos p
               | Z.neg p => Z.pos m / 2 ^ Z.pos p
               end%Z in
      (if s then "-" else "") +:+ pretty z
  end.

Fixpoint allDigits (s : string) : bool :=
  match s with
  | EmptyString => true
  | String c s' =>
      let n := nat_of_ascii c in (48 <=? n) && (n <=? 57) && allDigits s'
  end.

Definition exampleRuntime : JsRuntime := {|
  numberToString := intToString;
  dateToString := fun d => intToString (dateTime d);
  parsesAsNumber := allDigits;
  parsesAsDate := fun _ => false;
  numericSummary := fun _ => None;
  dateSummary := fun _ => None;
  sortByScore := fun _ cols => cols;
  Entropy := nat;
  randomUUID := fun n => ("uuid-" +:+ pretty n, S n);
  toLowerCase := asciiLowerCase;
  sliceInit := asciiSliceInit
|}.

(** ** Example tables (Scenarios A, B and E of the specification) *)

Definition profile (name : string) (type : ColumnType) (nullCount uniqueCount : nat)
  : ColumnProfile :=
  mkColumnProfile name type nullCount uniqueCount None None None None [].

Definition exOrders : Table :=
  {| tableData :=
       {| fileName := "Orders";
          rows := [ [("id", VNumber (ofInt 1)); ("cust", VString "A"); ("amt", VNumber (ofInt 100))];
                    [("id", VNumber (ofInt 2)); ("cust", VString "B"); ("amt", VNumber (ofInt 50))] ];
          columns := [profile "id" NUMBER 0 2; profile "cust" STRING 0 2; profile "amt" NUMBER 0 2];
          rowCount := 2;
          primaryDateColumn := None;
          primaryMeasureColumn := Some "id";
          dimensions := [] |};
     id := "Orders";
     tableName := "Orders" |}.

Definition exCustomers : Table :=
  {| tableData :=
       {| fileName := "Customers";
          rows := [ [("cust", VString "A"); ("tier", VString "gold")] ];
          columns := [profile "cust" STRING 0 1; profile "tier" STRING 0 1];
          rowCount := 1;
          primaryDateColumn := None;
          primaryMeasureColumn := None;
          dimensions := [] |};
     id := "Customers";
     tableName := "Customers" |}.

Definition exTables : TableCollection :=
  [("Orders", exOrders); ("Customers", exCustomers)].

Definition exJoin (joinType : JoinType) : JoinConfig :=
  {| joinId := "j1"; rightTableId := "Customers";
     leftColumn := "cust"; rightColumn := "cust"; joinType := joinType |}.

(** A join whose right table is not in [exTables]. *)
Definition exStaleJoin : JoinConfig :=
  {| joinId := "j0"; rightTableId := "Regions";
     leftColumn := "cust"; rightColumn := "cust"; joinType := INNER |}.

(** A join whose right table id is no key of [exTables] and names a member
    of [Object.prototype]. *)
Definition exInheritedJoin : JoinConfig :=
  {| joinId := "j0"; rightTableId := "constructor";
     leftColumn := "cust"; rightColumn := "cust"; joinType := INNER |}.

(** A right table with two rows under the key ["A"], and one with a row
    whose key is [null]. *)
Definition exCustomersDup : Table :=
  {| tableData :=
       {| fileName := "Customers";
          rows := [ [("cust", VString "A"); ("tier", VString "silver")];
                    [("cust", VString "A"); ("tier", VString "gold")] ];
          columns := [profile "cust" STRING 0 1; profile "tier" STRING 0 2];
          rowCount := 2;
          primaryDateColumn := None;
          primaryMeasureColumn := None;
          dimensions := [] |};
     id := "Customers";
     tableName := "Customers" |}.

Definition exCustomersNull : Table :=
  {| tableData :=
       {| fileName := "Customers";
          rows := [ [("cust", VString "A"); ("tier", VString "gold")];
                    [("cust", VNull); ("tier", VString "unknown")] ];
          columns := [profile "cust" STRING 1 1; profile "tier" STRING 0 2];
          rowCount := 2;
          primaryDateColumn := None;
          primaryMeasureColumn := None;
          dimensions := [] |};
     id := "Customers";
     tableName := "Customers" |}.

(** An accumulator row without a customer. *)
Definition exAnonymousOrder : DataRow :=
  [("id", VNumber (ofInt 3)); ("cust", VNull); ("amt", VNumber (ofInt 7))].

(** A table with two columns that both refer to customers, and the model
    that joins [Customers] once for each. *)
Definition exTrades : Table :=
  {| tableData :=
       {| fileName := "Trades";
          rows := [ [("id", VNumber (ofInt 1)); ("buyer", VString "A"); ("seller", VString "B")] ];
          columns := [profile "id" NUMBER 0 1; profile "buyer" STRING 0 1;
                      profile "seller" STRING 0 1];
          rowCount := 1;
          primaryDateColumn := None;
          primaryMeasureColumn := Some "id";
          dimensions := [] |};
     id := "Trades";
     tableName := "Trades" |}.

Definition exParties : Table :=
  {| tableData :=
       {| fileName := "Customers";
          rows := [ [("cust", VString "A"); ("tier", VString "gold")];
                    [("cust", VString "B"); ("tier", VString "basic")] ];
          columns := [profile "cust" STRING 0 2; profile "tier" STRING 0 2];
          rowCount := 2;
          primaryDateColumn := None;
          primaryMeasureColumn := None;
          dimensions := [] |};
     id := "Customers";
     tableName := "Customers" |}.

Definition exTradeModel : DataModel :=
  {| baseTableId := "Trades";
     joins := [ {| joinId := "j1"; rightTableId := "Customers"; leftColumn := "buyer";
                   rightColumn := "cust"; joinType := LEFT |};
                {| joinId := "j2"; rightTableId := "Customers"; leftColumn := "seller";
                   rightColumn := "cust"; joinType := LEFT |} ] |}.

(** Scenario E, and a base table in which a column named after the other
    table comes before [customer_id]. *)
Definition exCustomerDirectory : Table :=
  {| tableData :=
       {| fileName := "Customers";
          rows := [ [("id", VNumber (ofInt 1)); ("tier", VString "gold")];
                    [("id", VNumber (ofInt 2)); ("tier", VString "basic")] ];
          columns := [profile "id" NUMBER 0 2; profile "tier" STRING 0 2];
          rowCount := 2;
          primaryDateColumn := None;
          primaryMeasureColumn := Some "id";
          dimensions := [] |};
     id := "Customers";
     tableName := "Customers" |}.

Definition exInvoices (leadingColumn : string) : Table :=
  {| tableData :=
       {| fileName := "Invoices";
          rows := [ [(leadingColumn, VNumber (ofInt 4)); ("customer_id", VNumber (ofInt 1))];
                    [(leadingColumn, VNumber (ofInt 9)); ("customer_id", VNumber (ofInt 2))] ];
          columns := [profile leadingColumn NUMBER 0 2; profile "customer_id" NUMBER 0 2];
          rowCount := 2;
          primaryDateColumn := None;
          primaryMeasureColumn := Some leadingColumn;
          dimensions := [] |};
     id := "Invoices";
     tableName := "Invoices" |}.

Definition exDirectory (leadingColumn : string) : TableCollection :=
  [("Invoices", exInvoices leadingColumn); ("Customers", exCustomerDirectory)].

(** The tables of Scenario A in a store, the way a loader would leave them. *)
Definition exStore : Store :=
  [ (* 0 *) ORow [("id", VNumber (ofInt 1)); ("cust", VString "A"); ("amt", VNumber (ofInt 100))];
    (* 1 *) ORow [("id", VNumber (ofInt 2)); ("cust", VString "B"); ("amt", VNumber (ofInt 50))];
    (* 2 *) ORowArray [0; 1];
    (* 3 *) OProfile (profile "id" NUMBER 0 2);
    (* 4 *) OProfile (profile "cust" STRING 0 2);
    (* 5 *) OProfile (profile "amt" NUMBER 0 2);
    (* 6 *) OProfileArray [3; 4; 5];
    (* 7 *) ONameArray [];
    (* 8 *) OTable (mkTableObj (mkDataSetObj "Orders" 2 6 2 None (Some "id") 7) "Orders" "Orders");
    (* 9 *) ORow [("cust", VString "A"); ("tier", VString "gold")];
    (* 10 *) ORowArray [9];
    (* 11 *) OProfile (profile "cust" STRING 0 1);
    (* 12 *) OProfile (profile "tier" STRING 0 1);
    (* 13 *) OProfileArray [11; 12];
    (* 14 *) ONameArray [];
    (* 15 *) OTable (mkTableObj (mkDataSetObj "Customers" 10 13 1 None None 14)
                                "Customers" "Customers") ].

Definition exRefs : list (string * Ref) := [("Orders", 8); ("Customers", 15)].

(** Four numeric strings and a word; and a column with a single repeated
    value. *)
Definition exFourInFive : list DataRow :=
  [ [("v", VString "1")]; [("v", VString "2")]; [("v", VString "3")];
    [("v", VString "4")]; [("v", VString "abc")] ].

Definition exOneRegion : list DataRow :=
  [ [("region", VString "EU"); ("city", VString "Paris")];
    [("region", VString "EU"); ("city", VString "Rome")];
    [("region", VString "EU"); ("city", VString "Paris")];
    [("region", VString "EU"); ("city", VString "Oslo")] ].

(** Nine numeric strings and a word (Scenario C). *)
Definition exNineInTen : list DataRow :=
  map (fun s => [("v", VString s)]) ["1"; "2"; "3"; "4"; "5"; "6"; "7"; "8"; "9"; "abc"].

(** ** [processFile] ([services/dataProcessor.ts])

    What [reader.onload] does once [XLSX.read] has given the workbook. The
    workbook is its [SheetNames] together with [sheetToJson], the rows that
    [XLSX.utils.sheet_to_json(workbook.Sheets[name], { defval: null })]
    returns for a sheet name; the promise resolves ([Returns]) or rejects
    ([Throws]). Reading the file itself, and [reader.onerror], are outside. *)

(** [obj[k] = a] on an object with string keys. *)
Fixpoint setKey {A : Type} (obj : list (string * A)) (k : string) (a : A)
  : list (string * A) :=
  match obj with
  | [] => [(k, a)]
  | (k', a') :: obj' =>
      if decide (k' = k) then (k, a) :: obj' else (k', a') :: setKey obj' k a
  end.

Section ProcessFile.
Context `{JsRuntime}.

(** [tables[sheetName] = table] on the collection, an object literal. For
    the name [__proto__] the assignment calls the setter that
    [Object.prototype] has under that name: it gives the collection no key.
    (It makes [table] the prototype of the collection; the collection
    returned stands for the keys of the object itself.) *)
Definition assignTable (tables : TableCollection) (sheetName : string) (table : Table)
  : TableCollection :=
  if decide (sheetName = "__proto__") then tables else setKey tables sheetName table.

(** The callback of [workbook.SheetNames.forEach]; an exception inside it
    ends the loop and reaches the [catch]. *)
Definition addSheet (sheetToJson : string -> list DataRow)
    (acc : Outcome TableCollection) (sheetName : string) : Outcome TableCollection :=
  match acc with
  | Throws msg => Throws msg
  | Returns tables =>
      let rawRows := sheetToJson sheetName in
      if 0 <? length rawRows then
        match analyzeSheetData rawRows sheetName with
        | Returns analyzedData =>
            Returns (assignTable tables sheetName
                       {| tableData := analyzedData; id := sheetName; tableName := sheetName |})
        | Throws msg => Throws msg
        end
      else Returns tables
  end.

Definition processFile (sheetNames : list string)
    (sheetToJson : string -> list DataRow) : Outcome TableCollection :=
  match foldl (addSheet sheetToJson) (Returns []) sheetNames with
  | Throws msg => Throws msg
  | Returns tables =>
      if length (objectKeys tables) =? 0
      then Throws "No valid data found in any sheet."
      else Returns tables
  end.

End ProcessFile.

(** What [processFile] leaves under the key [k]: the analysis of the rows of
    sheet [k], with [k] as its [id] and [tableName]. *)
Definition loadedTable `{JsRuntime} (sheetToJson : string -> list DataRow)
    (k : string) (t : Table) : Prop :=
  id t = k /\ tableName t = k
  /\ sheetToJson k ≠ []
  /\ analyzeSheetData (sheetToJson k) k = Returns (tableData t).

(** ** The join editor ([components/DataModeling.tsx])

    The handlers of the component, as functions of the state they read
    ([tables], [baseTableId], [joins]) to the value they pass to [setJoins];
    a handler that returns before [setJoins] gives the joins it found. *)

(** [Partial<JoinConfig>]: the fields an update carries. (A field that is
    present with the value [undefined] is not modelled; the component passes
    none.) *)
Record JoinUpdates : Type := mkJoinUpdates {
  newJoinId : option string;
  newRightTableId : option string;
  newLeftColumn : option string;
  newRightColumn : option string;
  newJoinType : option JoinType
}.

(** [{ ...j, ...updates }] *)
Definition applyUpdates (j : JoinConfig) (updates : JoinUpdates) : JoinConfig :=
  {| joinId := default (joinId j) (newJoinId updates);
     rightTableId := default (rightTableId j) (newRightTableId updates);
     leftColumn := default (leftColumn j) (newLeftColumn updates);
     rightColumn := default (rightColumn j) (newRightColumn updates);
     joinType := default (joinType j) (newJoinType updates) |}.

(** [table.columns[0].name], for [table = tables[k]]: a [TypeError] when the
    table is [undefined] or has no column (the messages are those of V8). *)
Definition firstColumnName (table : option Table) : Outcome string :=
  match table with
  | None => Throws "TypeError: Cannot read properties of undefined (reading 'columns')"
  | Some table =>
      match columns table with
      | [] => Throws "TypeError: Cannot read properties of undefined (reading 'name')"
      | c :: _ => Returns (name c)
      end
  end.

(** [joins.find(j => j.rightTableId === id)], as a truth value. *)
Definition isJoined (joins : list JoinConfig) (id : string) : bool :=
  match find (fun j => bool_decide (rightTableId j = id)) joins with
  | Some _ => true
  | None => false
  end.

Section DataModeling.
Context `{JsRuntime}.

(** [addJoin] (lines 44-59). The fields of the new join are evaluated in the
    order they are written: the identifier is drawn before the first columns
    are read. *)
Definition addJoin (tables : TableCollection) (baseTableId : string)
    (joins : list JoinConfig) (g : Entropy) : Outcome (list JoinConfig) * Entropy :=
  let tableIds := objectKeys tables in
  let potentialTables :=
    filter (fun id => id ≠ baseTableId /\ isJoined joins id = false) tableIds in
  match potentialTables with
  | [] => (Returns joins, g)
  | rightId :: _ =>
      let rightTable := lookupKey tables rightId in
      let leftTable := lookupKey tables baseTableId in
      let '(uuid, g') := randomUUID g in
      match firstColumnName leftTable with
      | Throws msg => (Throws msg, g')
      | Returns leftCol =>
          match firstColumnName rightTable with
          | Throws msg => (Throws msg, g')
          | Returns rightCol =>
              (Returns (joins ++ [ {| joinId := uuid;
                                      rightTableId := rightId;
                                      leftColumn := leftCol;
                                      rightColumn := rightCol;
                                      joinType := LEFT |} ]), g')
          end
      end
  end.

(** [removeJoin] (lines 61-63) *)
Definition removeJoin (id : string) (joins : list JoinConfig) : list JoinConfig :=
  filter (fun j => joinId j ≠ id) joins.

(** [updateJoin] (lines 65-67) *)
Definition updateJoin (id : string) (updates : JoinUpdates) (joins : list JoinConfig)
  : list JoinConfig :=
  map (fun j => if bool_decide (joinId j = id) then applyUpdates j updates else j) joins.

(** [getUniquenessWarning] (lines 80-87); [duplicateKeyWarning] is the text of
    [t.modeling.duplicateKeyWarning] in the language of the user, [None] is
    [null]. *)
Definition getUniquenessWarning (duplicateKeyWarning : string)
    (tables : TableCollection) (join : JoinConfig) : Outcome (option string) :=
  match lookupKey tables (rightTableId join) with
  | None => Throws "TypeError: Cannot read properties of undefined (reading 'columns')"
  | Some table =>
      match find (fun c => bool_decide (name c = rightColumn join)) (columns table) with
      | Some col =>
          if uniqueCount col <? rowCount table then
            Returns (Some (duplicateKeyWarning +:+ " (" +:+ pretty (uniqueCount col) +:+ "/"
                             +:+ pretty (rowCount table) +:+ " unique)"))
          else Returns None
      | None => Returns None
      end
  end.

(** The two effects (lines 25-42): the suggestions replace the joins when
    the base table changes, and the preview is replaced when the model runs;
    when it throws, the error is logged and the preview stays. *)
Definition suggestEffect (tables : TableCollection) (baseTableId : string) (g : Entropy)
  : list JoinConfig * Entropy :=
  suggestJoins baseTableId tables g.

Definition previewEffect (tables : TableCollection) (baseTableId : string)
    (joins : list JoinConfig) (previewData : option DataSet) : option DataSet :=
  match executeDataModel tables {| baseTableId := baseTableId; joins := joins |} with
  | Returns unified => Some unified
  | Throws _ => previewData
  end.

End DataModeling.

(** ** The quality report ([components/QualityReport.tsx])

    The two conditions under which the card of a column shows an alert
    (lines 97 and 103). *)

(** [col.nullCount > 0]: the alert on missing values. *)
Definition showsMissingAlert (col : ColumnProfile) : bool := 0 <? nullCount col.

(** [col.uniqueCount === dataset.rowCount]: the badge "all unique". *)
Definition showsAllUnique (dataset : DataSet) (col : ColumnProfile) : bool :=
  uniqueCount col =? rowCount dataset.

(** ** More vocabulary: keys, draws, fields and sharing *)

(** The values of a list are pairwise different for a [Set]. *)
Definition pairwiseDistinct (vals : list CellValue) : Prop :=
  forall i j a b, vals !! i = Some a -> vals !! j = Some b -> i ≠ j ->
                  sameValueZero a b = false.

(** The state of [crypto.randomUUID] after [n] draws, and the [n]-th
    identifier drawn from a state (counting from [0]). *)
Definition drawN `{JsRuntime} (n : nat) (g : Entropy) : Entropy :=
  Nat.iter n (fun g => snd (randomUUID g)) g.

Definition nthUUID `{JsRuntime} (n : nat) (g : Entropy) : string :=
  fst (randomUUID (drawN n g)).

(** The names that the joins of a model give to the columns they add. *)
Definition joinedNames (Ts : list Table) : list string :=
  Ts ≫= fun T : Table => map (fun c => prefixed (tableName T) (name c)) (columns T).

(** A table as [analyzeSheetData] builds it, as far as the callers rely on
    it: one profile per key of the first row, for the rows of the table. *)
Definition analysed `{JsRuntime} (t : Table) : Prop :=
  exists firstRow rest,
    rows t = firstRow :: rest
    /\ columns t = map (fun key => analyzeColumn key (rows t)) (objectKeys firstRow)
    /\ rowCount t = length (rows t).

(** A later value differs from every earlier one. *)
Definition laterDiffer (vals : list CellValue) : Prop :=
  forall i j a b, vals !! i = Some a -> vals !! j = Some b -> i < j ->
                  sameValueZero b a = false.

(** What a suggestion for [dimTable] is made of: a LEFT join to that table,
    from a column of the base table to a column of [dimTable] that has more
    distinct values than nine tenths of the rows. *)
Definition suggestionFor (baseTable dimTable : Table) (cfg : JoinConfig) : Prop :=
  rightTableId cfg = id dimTable
  /\ joinType cfg = LEFT
  /\ (exists baseCol, baseCol ∈ columns baseTable /\ leftColumn cfg = name baseCol)
  /\ (exists dimCol, dimCol ∈ columns dimTable /\ rightColumn cfg = name dimCol
                     /\ 9 * rowCount dimTable < 10 * uniqueCount dimCol).

(** On a string of ASCII characters the runtime's [toLowerCase] lowers the
    letters [A]-[Z] and keeps the rest, and its [slice(0, -1)] drops the last
    byte, as in every implementation of JavaScript. *)
Definition lowersAscii `{JsRuntime} : Prop :=
  forall s, isAscii s = true -> toLowerCase s = asciiLowerCase s.

Definition slicesAscii `{JsRuntime} : Prop :=
  forall s, isAscii s = true -> sliceInit s = asciiSliceInit s.

(** The pairs of columns in the order in which the two loops of Strategy 1
    visit them, and the test that makes a pair the best join so far. *)
Definition columnPairs (baseTable dimTable : Table) : list (ColumnProfile * ColumnProfile) :=
  columns baseTable ≫= fun baseCol => map (pair baseCol) (columns dimTable).

Definition namesMatch `{JsRuntime} (dimTable : Table)
    (p : ColumnProfile * ColumnProfile) : Prop :=
  toLowerCase (name p.1) = toLowerCase (name p.2) /\ nearUnique p.2 dimTable = true.

#[global] Instance namesMatch_dec `{JsRuntime} (dimTable : Table) p :
  Decision (namesMatch dimTable p).
Proof. unfold namesMatch. apply _. Defined.

(** Two rows hold the same value under every key outside [names]. *)
Definition agreeOutside (names : list string) (r b : DataRow) : Prop :=
  forall k, k ∉ names -> getField r k = getField b k.

(** The dimensions and the date and measure columns of a data set are names
    of its columns. *)
Definition namesItsColumns (ds : DataSet) : Prop :=
  Forall (fun d => d ∈ map name (columns ds)) (dimensions ds)
  /\ (forall d, primaryDateColumn ds = Some d -> d ∈ map name (columns ds))
  /\ (forall m, primaryMeasureColumn ds = Some m -> m ∈ map name (columns ds)).

(** Every row has a field for every column. *)
Definition rectangular (rows : list DataRow) (columns : list ColumnProfile) : Prop :=
  Forall (fun r => Forall (fun c => is_Some (lookupKey r (name c))) columns) rows.

(** Two rows hold the same value under every key (the order of their fields
    apart). *)
Definition sameFields (r r' : DataRow) : Prop := forall k, getField r k = getField r' k.

(** What the local variables of the loop over the joins share with the store
    [σ0] of before the call: the columns array holds the column profiles
    [baseCols] first, then profiles that [σ0] does not hold, and the rows
    array holds rows that [σ0] does not hold. *)
Definition resultShares (σ0 : Store) (baseCols : list Ref) (σ : Store)
    (vars : Ref * Ref * Ref) : Prop :=
  exists newCols rowRefs,
    σ !! vars.1.2 = Some (OProfileArray (baseCols ++ newCols))
    /\ Forall (freshFor σ0) newCols
    /\ σ !! vars.1.1 = Some (ORowArray rowRefs)
    /\ Forall (freshFor σ0) rowRefs.

(** ** An example workbook, and the editor on it *)

Definition exOrderSheet : list DataRow :=
  [ [("id", VNumber (ofInt 1)); ("cust", VString "A"); ("amt", VNumber (ofInt 100))];
    [("id", VNumber (ofInt 2)); ("cust", VString "B"); ("amt", VNumber (ofInt 50))];
    [("id", VNumber (ofInt 3)); ("cust", VString "A"); ("amt", VNumber (ofInt 70))] ].

Definition exCustomerSheet : list DataRow :=
  [ [("cust", VString "A"); ("tier", VString "gold")];
    [("cust", VString "B"); ("tier", VString "gold")] ].

(** Three sheets; the third one has no rows. *)
Definition exSheetNames : list string := ["Orders"; "Customers"; "Notes"].

Definition exWorkbook (sheetName : string) : list DataRow :=
  if decide (sheetName = "Orders") then exOrderSheet
  else if decide (sheetName = "Customers") then exCustomerSheet
  else [].

(** What [processFile] loads from it. *)
Definition exLoaded : TableCollection :=
  Eval vm_compute in
    match @processFile exampleRuntime exSheetNames exWorkbook with
    | Returns tables => tables
    | Throws _ => []
    end.

Definition exLoadedOrders : Table :=
  Eval vm_compute in
    match lookupKey exLoaded "Orders" with
    | Some t => t
    | None => exOrders
    end.

Definition exLoadedCustomers : Table :=
  Eval vm_compute in
    match lookupKey exLoaded "Customers" with
    | Some t => t
    | None => exCustomers
    end.

(** A sheet with a column of dates, a column of numbers and a column of
    words. *)
Definition exSales : list DataRow :=
  [ [("day", VDate (mkJsDate 0 (ofInt 1))); ("amt", VNumber (ofInt 10)); ("region", VString "N")];
    [("day", VDate (mkJsDate 1 (ofInt 2))); ("amt", VNumber (ofInt 20)); ("region", VString "N")];
    [("day", VDate (mkJsDate 2 (ofInt 3))); ("amt", VNumber (ofInt 30)); ("region", VString "S")] ].

(** The join that [addJoin] adds to [exTables] with base table [Orders]. *)
Definition exAddedJoin : JoinConfig :=
  {| joinId := "uuid-0"; rightTableId := "Customers";
     leftColumn := "id"; rightColumn := "cust"; joinType := LEFT |}.

(** A join on columns that neither table has. *)
Definition exAbsentJoin (joinType : JoinType) : JoinConfig :=
  {| joinId := "j2"; rightTableId := "Customers";
     leftColumn := "customer"; rightColumn := "customer"; joinType := joinType |}.

(** A join of the loaded workbook on a right column that repeats a value. *)
Definition exTierJoin : JoinConfig :=
  {| joinId := "j3"; rightTableId := "Customers";
     leftColumn := "cust"; rightColumn := "tier"; joinType := LEFT |}.

(** A third table, on the amounts of [exOrders], and an INNER join to it. *)
Definition exBands : Table :=
  {| tableData :=
       {| fileName := "Bands";
          rows := [ [("amt", VNumber (ofInt 100)); ("band", VString "high")] ];
          columns := [profile "amt" NUMBER 0 1; profile "band" STRING 0 1];
          rowCount := 1;
          primaryDateColumn := None;
          primaryMeasureColumn := Some "amt";
          dimensions := [] |};
     id := "Bands";
     tableName := "Bands" |}.

Definition exShop : TableCollection :=
  [("Orders", exOrders); ("Customers", exCustomers); ("Bands", exBands)].

Definition exBandJoin : JoinConfig :=
  {| joinId := "j4"; rightTableId := "Bands";
     leftColumn := "amt"; rightColumn := "amt"; joinType := INNER |}.

(** * Properties of the engine *)

(** ** Facts about string-keyed objects *)

Lemma getField_setField_eq (row : DataRow) (k : string) (v : CellValue) :
  getField (setField row k v) k = v.
Proof.
  unfold getField. induction row as [|[k' v'] row IH]; simpl.
  - by rewrite decide_True.
  - destruct (decide (k' = k)) as [->|Hne]; simpl.
    + by rewrite decide_True.
    + by rewrite decide_False.
Qed.

Lemma getField_setField_ne (row : DataRow) (k k' : string) (v : CellValue) :
  k ≠ k' -> getField (setField row k v) k' = getField row k'.
Proof.
  intros Hne. unfold getField. induction row as [|[k0 v0] row IH]; simpl.
  - by rewrite decide_False.
  - destruct (decide (k0 = k)) as [->|Hne0]; simpl.
    + by rewrite !decide_False.
    + destruct (decide (k0 = k')); [done | apply IH].
Qed.

Lemma append_cancel_l (p a b : string) : p +:+ a = p +:+ b -> a = b.
Proof. induction p as [|c p IH]; simpl; [done | intros [= Heq]; auto]. Qed.

Section JoinEngineFacts.
Context `{JsRuntime}.

Lemma prefixed_inj (p a b : string) : prefixed p a = prefixed p b -> a = b.
Proof.
  unfold prefixed. intros Heq.
  apply append_cancel_l in Heq. by apply (append_cancel_l ".") in Heq.
Qed.

Lemma probe_joinedRow join rightTable rightMap newRows leftRow :
  probe join rightTable rightMap newRows leftRow
  = newRows ++ option_list (joinedRow join rightTable rightMap leftRow).
Proof.
  unfold probe, joinedRow.
  destruct (rightMap !! _); [done |].
  destruct (joinType join); [done | by rewrite app_nil_r].
Qed.

Lemma foldl_probe join rightTable rightMap newRows accRows :
  foldl (probe join rightTable rightMap) newRows accRows
  = newRows ++ omap (joinedRow join rightTable rightMap) accRows.
Proof.
  revert newRows. induction accRows as [|l accRows IH]; intros newRows; csimpl.
  - by rewrite app_nil_r.
  - rewrite IH, probe_joinedRow, <- app_assoc. f_equal.
    by destruct (joinedRow join rightTable rightMap l).
Qed.

Lemma joinStep_skip tables st join :
  lookupKey tables (rightTableId join) = None -> joinStep tables st join = st.
Proof. intros Hno. unfold joinStep. by rewrite Hno. Qed.

Lemma joinStep_rows tables st join rightTable :
  lookupKey tables (rightTableId join) = Some rightTable ->
  resultRows (joinStep tables st join)
  = omap (joinedRow join rightTable
            (buildRightMap (rightColumn join) (rows rightTable)))
         (resultRows st).
Proof. intros Hrt. unfold joinStep. rewrite Hrt. simpl. apply foldl_probe. Qed.

Lemma length_omap_le {A B : Type} (f : A -> option B) (l : list A) :
  length (omap f l) ≤ length l.
Proof. induction l as [|a l IH]; csimpl; [lia |]. destruct (f a); simpl; lia. Qed.

Lemma length_omap_total {A B : Type} (f : A -> option B) (l : list A) :
  (forall a, is_Some (f a)) -> length (omap f l) = length l.
Proof.
  intros Hf. induction l as [|a l IH]; csimpl; [done |].
  destruct (Hf a) as [b ->]. simpl. by rewrite IH.
Qed.

Lemma joinStep_length_le tables st join :
  length (resultRows (joinStep tables st join)) ≤ length (resultRows st).
Proof.
  destruct (lookupKey tables (rightTableId join)) as [rt|] eqn:Hrt.
  - rewrite (joinStep_rows _ _ _ _ Hrt). apply length_omap_le.
  - by rewrite joinStep_skip.
Qed.

Lemma joinStep_length_LEFT tables st join :
  joinType join = LEFT ->
  length (resultRows (joinStep tables st join)) = length (resultRows st).
Proof.
  intros HL. destruct (lookupKey tables (rightTableId join)) as [rt|] eqn:Hrt.
  - rewrite (joinStep_rows _ _ _ _ Hrt). apply length_omap_total.
    intros l. unfold joinedRow. rewrite HL. destruct (_ !! _); eauto.
  - by rewrite joinStep_skip.
Qed.

Lemma joinSteps_length_le tables st js :
  length (resultRows (foldl (joinStep tables) st js)) ≤ length (resultRows st).
Proof.
  revert st. induction js as [|j js IH]; intros st; simpl; [lia |].
  etrans; [apply IH | apply joinStep_length_le].
Qed.

Lemma joinSteps_length_LEFT tables st js :
  Forall (fun j => joinType j = LEFT) js ->
  length (resultRows (foldl (joinStep tables) st js)) = length (resultRows st).
Proof.
  intros Hall. revert st. induction Hall as [|j js Hj _ IH]; intros st; simpl; [done |].
  by rewrite IH, joinStep_length_LEFT.
Qed.

End JoinEngineFacts.

(** ** The right-hand lookup and the merged row *)

Section RightMap.
Context `{JsRuntime}.

Lemma buildRightMap_snoc rightCol rightRows row :
  buildRightMap rightCol (rightRows ++ [row])
  = <[toJsString (getField row rightCol) := row]> (buildRightMap rightCol rightRows).
Proof. unfold buildRightMap. by rewrite foldl_app. Qed.

Lemma foldl_set_other (rightCol k : string) (post : list DataRow) (m : gmap string DataRow) :
  Forall (fun r' => toJsString (getField r' rightCol) ≠ k) post ->
  foldl (fun rightMap row => <[toJsString (getField row rightCol) := row]> rightMap) m post !! k
  = m !! k.
Proof.
  intros Hpost. revert m. induction Hpost as [|r' post Hr' _ IH]; intros m; simpl; [done |].
  rewrite IH. by apply lookup_insert_ne.
Qed.

(** The last row with a given key is the one the lookup holds. *)
Lemma buildRightMap_last rightCol pre r post :
  Forall (fun r' => toJsString (getField r' rightCol) ≠ toJsString (getField r rightCol)) post ->
  buildRightMap rightCol (pre ++ r :: post) !! toJsString (getField r rightCol) = Some r.
Proof.
  intros Hpost. unfold buildRightMap. rewrite foldl_app. simpl.
  rewrite foldl_set_other by done. apply lookup_insert_eq.
Qed.

(** A key is in the lookup exactly when some right row stringifies to it. *)
Lemma buildRightMap_None rightCol rightRows k :
  buildRightMap rightCol rightRows !! k = None
  <-> Forall (fun r' => toJsString (getField r' rightCol) ≠ k) rightRows.
Proof.
  induction rightRows as [|r rightRows IH] using rev_ind.
  - split; [constructor | done].
  - rewrite buildRightMap_snoc, Forall_app, Forall_singleton, <- IH.
    destruct (decide (toJsString (getField r rightCol) = k)) as [->|Hne].
    + rewrite lookup_insert_eq. split; [done | by intros [_ ?]].
    + rewrite lookup_insert_ne by done. split; [done | by intros [? _]].
Qed.

Lemma mergeMatched_snoc p cols col rightRow leftRow :
  mergeMatched p (cols ++ [col]) rightRow leftRow
  = setField (mergeMatched p cols rightRow leftRow) (prefixed p (name col))
             (getField rightRow (name col)).
Proof. unfold mergeMatched. by rewrite foldl_app. Qed.

Lemma mergeNulls_snoc p cols col leftRow :
  mergeNulls p (cols ++ [col]) leftRow
  = setField (mergeNulls p cols leftRow) (prefixed p (name col)) VNull.
Proof. unfold mergeNulls. by rewrite foldl_app. Qed.

(** After the assignments, each prefixed key holds the right row's value. *)
Lemma mergeMatched_prefixed p cols rightRow leftRow col :
  col ∈ cols ->
  getField (mergeMatched p cols rightRow leftRow) (prefixed p (name col))
  = getField rightRow (name col).
Proof.
  induction cols as [|c cols IH] using rev_ind; [by intros ?%elem_of_nil |].
  intros Hin. rewrite mergeMatched_snoc.
  destruct (decide (prefixed p (name c) = prefixed p (name col))) as [Heq|Hne].
  - rewrite Heq, getField_setField_eq. by rewrite (prefixed_inj _ _ _ Heq).
  - rewrite getField_setField_ne by done.
    apply elem_of_app in Hin as [Hin|Hin%list_elem_of_singleton]; [by apply IH |].
    by subst.
Qed.

Lemma mergeNulls_prefixed p cols leftRow col :
  col ∈ cols ->
  getField (mergeNulls p cols leftRow) (prefixed p (name col)) = VNull.
Proof.
  induction cols as [|c cols IH] using rev_ind; [by intros ?%elem_of_nil |].
  intros Hin. rewrite mergeNulls_snoc.
  destruct (decide (prefixed p (name c) = prefixed p (name col))) as [Heq|Hne].
  - by rewrite Heq, getField_setField_eq.
  - rewrite getField_setField_ne by done.
    apply elem_of_app in Hin as [Hin|Hin%list_elem_of_singleton]; [by apply IH |].
    by subst.
Qed.

(** The other keys keep the accumulator row's value. *)
Lemma mergeMatched_other p cols rightRow leftRow k :
  Forall (fun c => prefixed p (name c) ≠ k) cols ->
  getField (mergeMatched p cols rightRow leftRow) k = getField leftRow k.
Proof.
  induction cols as [|c cols IH] using rev_ind; [intros _; reflexivity |].
  intros [Hcols Hc]%Forall_app. rewrite Forall_singleton in Hc.
  rewrite mergeMatched_snoc, getField_setField_ne by done. by apply IH.
Qed.

(** Each accumulator row gives no row or one row, never more. *)
Lemma probe_at_most_one join rightTable rightMap leftRow :
  length (probe join rightTable rightMap [] leftRow) ≤ 1.
Proof.
  rewrite probe_joinedRow. simpl.
  destruct (joinedRow join rightTable rightMap leftRow); simpl; lia.
Qed.

Lemma foldl_probe_bind join rightTable rightMap accRows :
  foldl (probe join rightTable rightMap) [] accRows
  = accRows ≫= probe join rightTable rightMap [].
Proof.
  rewrite foldl_probe. simpl. induction accRows as [|l accRows IH]; csimpl; [done |].
  rewrite probe_joinedRow, <- IH. simpl.
  by destruct (joinedRow join rightTable rightMap l).
Qed.

Lemma probe_matched join rightTable rightMap leftRow rightRow :
  rightMap !! toJsString (getField leftRow (leftColumn join)) = Some rightRow ->
  probe join rightTable rightMap [] leftRow
  = [mergeMatched (tableName rightTable) (columns rightTable) rightRow leftRow].
Proof. intros Hm. unfold probe. by rewrite Hm. Qed.

End RightMap.

(** ** Row counts, missing tables, duplicate and null keys *)

Section JoinEngineClaims.
Context `{JsRuntime}.

Lemma executeDataModel_Returns tables model ds :
  executeDataModel tables model = Returns ds ->
  exists baseTable,
    lookupKey tables (baseTableId model) = Some baseTable
    /\ rows ds = resultRows (foldl (joinStep tables) (initialState baseTable) (joins model))
    /\ columns ds = resultColumns (foldl (joinStep tables) (initialState baseTable) (joins model))
    /\ dimensions ds
       = currentDimensions (foldl (joinStep tables) (initialState baseTable) (joins model))
    /\ rowCount ds = length (rows ds).
Proof.
  unfold executeDataModel. destruct (lookupKey tables (baseTableId model)) as [b|]; [|done].
  intros [= <-]. by exists b.
Qed.

(** C2. The row count of the result is the number of its rows and never
    exceeds the number of rows of the base table, whatever the joins (so also
    when they are INNER); when every join is LEFT it is equal to it. Step by
    step: a LEFT join keeps every accumulator row, merged with the matching
    right row or with [null] in every prefixed right column, and an INNER
    join keeps exactly the accumulator rows that have a match, merged with
    it. *)
Theorem executeDataModel_row_count (tables : TableCollection) model ds :
  executeDataModel tables model = Returns ds ->
  exists baseTable,
    lookupKey tables (baseTableId model) = Some baseTable
    /\ rowCount ds = length (rows ds)
    /\ rowCount ds ≤ length (rows baseTable)
    /\ (Forall (fun j => joinType j = LEFT) (joins model) ->
        rowCount ds = length (rows baseTable))
    /\ (forall st j, joinType j = LEFT ->
          length (resultRows (joinStep tables st j)) = length (resultRows st))
    /\ (forall st j (rightTable : Table),
          lookupKey tables (rightTableId j) = Some rightTable ->
          let rightMap := buildRightMap (rightColumn j) (rows rightTable) in
          let key leftRow := toJsString (getField leftRow (leftColumn j)) in
          match joinType j with
          | LEFT =>
              resultRows (joinStep tables st j)
              = map (fun leftRow =>
                       match rightMap !! key leftRow with
                       | Some rightRow =>
                           mergeMatched (tableName rightTable) (columns rightTable)
                                        rightRow leftRow
                       | None =>
                           mergeNulls (tableName rightTable) (columns rightTable) leftRow
                       end) (resultRows st)
          | INNER =>
              resultRows (joinStep tables st j)
              = omap (fun leftRow =>
                        (fun rightRow =>
                           mergeMatched (tableName rightTable) (columns rightTable)
                                        rightRow leftRow) <$> rightMap !! key leftRow)
                     (resultRows st)
          end)
    /\ (forall (rightTable : Table) leftRow col,
          col ∈ columns rightTable ->
          getField (mergeNulls (tableName rightTable) (columns rightTable) leftRow)
                   (prefixed (tableName rightTable) (name col)) = VNull).
Proof.
  intros Hex. destruct (executeDataModel_Returns _ _ _ Hex) as (b & Hb & Hrows & _ & _ & Hcount).
  exists b. split; [done |]. split; [done |].
  assert (Hinit : length (resultRows (initialState b)) = length (rows b)).
  { unfold initialState. simpl. by rewrite length_map. }
  rewrite Hcount, Hrows, <- Hinit.
  split; [apply joinSteps_length_le |].
  split; [apply joinSteps_length_LEFT |].
  split; [intros st j; apply joinStep_length_LEFT |].
  split; [|intros rt leftRow col Hcol; by apply mergeNulls_prefixed].
  intros st j rt Hrt rightMap key. rewrite (joinStep_rows _ _ _ _ Hrt).
  fold rightMap. generalize (resultRows st) as accRows.
  destruct (joinType j) eqn:Hjt; intros accRows.
  - induction accRows as [|l accRows IH]; csimpl; [done |].
    rewrite <- IH. unfold joinedRow at 1, key. rewrite Hjt.
    by destruct (rightMap !! _).
  - induction accRows as [|l accRows IH]; csimpl; [done |].
    rewrite <- IH. unfold joinedRow at 1, key. rewrite Hjt.
    by destruct (rightMap !! _).
Qed.

Lemma joinSteps_skip tables st pre j post :
  lookupKey tables (rightTableId j) = None ->
  foldl (joinStep tables) st (pre ++ j :: post) = foldl (joinStep tables) st (pre ++ post).
Proof. intros Hno. rewrite !foldl_app. simpl. by rewrite joinStep_skip. Qed.

(** *** Table ids that are not in the collection *)

Lemma readKey_Own {A : Type} (obj : list (string * A)) k a :
  readKey obj k = Own a <-> lookupKey obj k = Some a.
Proof.
  unfold readKey. destruct (lookupKey obj k); [|case_decide]; split; congruence.
Qed.

Lemma readKey_Missing {A : Type} (obj : list (string * A)) k :
  readKey obj k = Missing <-> lookupKey obj k = None /\ k ∉ objectPrototypeNames.
Proof.
  unfold readKey. destruct (lookupKey obj k); [|case_decide]; split;
    try done; try (by intros [? ?]).
Qed.

Lemma readKey_Inherited {A : Type} (obj : list (string * A)) k :
  readKey obj k = Inherited <-> lookupKey obj k = None /\ k ∈ objectPrototypeNames.
Proof.
  unfold readKey. destruct (lookupKey obj k); [|case_decide]; split;
    try done; try (by intros [? ?]).
Qed.

Lemma Proto_joinSteps_Throws tables msg js :
  foldl (Proto.joinStep tables) (Throws msg) js = Throws msg.
Proof. induction js as [|j js IH]; simpl; [done | apply IH]. Qed.

(** Where no right table id is inherited, the loop is the loop of
    [joinStep]. *)
Lemma Proto_joinSteps_Returns tables st js :
  Forall (fun j => readKey tables (rightTableId j) ≠ Inherited) js ->
  foldl (Proto.joinStep tables) (Returns st) js = Returns (foldl (joinStep tables) st js).
Proof.
  intros Hjs. revert st. induction Hjs as [|j js Hj _ IH]; intros st; simpl; [done |].
  unfold joinStep at 2. unfold readKey in *.
  destruct (lookupKey tables (rightTableId j)) as [rightTable|]; [apply IH |].
  case_decide; [done | apply IH].
Qed.

(** The first inherited right table id ends the loop, at line 29. *)
Lemma Proto_joinSteps_Inherited tables st js :
  Exists (fun j => readKey tables (rightTableId j) = Inherited) js ->
  foldl (Proto.joinStep tables) (Returns st) js
  = Throws "TypeError: Cannot read properties of undefined (reading 'forEach')".
Proof.
  revert st. induction js as [|j js IH]; intros st Hex; [by apply Exists_nil in Hex |].
  simpl. destruct (readKey tables (rightTableId j)) eqn:Hj.
  - apply IH. apply Exists_cons in Hex as [Hex|Hex]; [congruence | done].
  - apply Proto_joinSteps_Throws.
  - apply IH. apply Exists_cons in Hex as [Hex|Hex]; [congruence | done].
Qed.

Lemma Proto_joinSteps_outcome tables st js :
  (Forall (fun j => readKey tables (rightTableId j) ≠ Inherited) js
   /\ foldl (Proto.joinStep tables) (Returns st) js = Returns (foldl (joinStep tables) st js))
  \/ (Exists (fun j => readKey tables (rightTableId j) = Inherited) js
      /\ foldl (Proto.joinStep tables) (Returns st) js
         = Throws "TypeError: Cannot read properties of undefined (reading 'forEach')").
Proof.
  assert (Hcases : Forall (fun j => readKey tables (rightTableId j) ≠ Inherited) js
                   \/ Exists (fun j => readKey tables (rightTableId j) = Inherited) js).
  { induction js as [|j js [IH|IH]]; [by left | | right; by right].
    destruct (readKey tables (rightTableId j)) eqn:Hj.
    - left. constructor; [congruence | done].
    - right. by left.
    - left. constructor; [congruence | done]. }
  destruct Hcases as [Hall|Hex].
  - left. split; [done | by apply Proto_joinSteps_Returns].
  - right. split; [done | by apply Proto_joinSteps_Inherited].
Qed.

Lemma Proto_joinStep_Missing tables acc j :
  readKey tables (rightTableId j) = Missing -> Proto.joinStep tables acc j = acc.
Proof. intros Hj. unfold Proto.joinStep. rewrite Hj. by destruct acc. Qed.

(** Where neither the base table id nor a right table id is inherited, the
    call is the call of [executeDataModel]. *)
Lemma Proto_executeDataModel_plain tables model :
  readKey tables (baseTableId model) ≠ Inherited ->
  Forall (fun j => readKey tables (rightTableId j) ≠ Inherited) (joins model) ->
  Proto.executeDataModel tables model = executeDataModel tables model.
Proof.
  intros Hbase Hjs. unfold Proto.executeDataModel, executeDataModel.
  unfold readKey in *. destruct (lookupKey tables (baseTableId model)) as [baseTable|].
  - by rewrite Proto_joinSteps_Returns.
  - by case_decide.
Qed.

(** The guards of lines 9 and 19, for every table id. The call throws
    [Base table not found] exactly when the base table id is no key of the
    collection and no name of a member of [Object.prototype]; it returns
    exactly when the base table id is a key of the collection and no right
    table id is inherited; a join whose right table id is neither a key
    nor inherited is skipped: the outcome is the one of the model without
    that join, up to the [fileName] label, which counts the configured
    joins. An inherited id passes the guard and a [TypeError] is thrown, at
    line 12 for the base table and at line 29 for a right table. *)
Theorem executeDataModel_absent_table_ids tables model :
  (Proto.executeDataModel tables model = Throws "Base table not found"
   <-> readKey tables (baseTableId model) = Missing)
  /\ ((exists ds, Proto.executeDataModel tables model = Returns ds)
      <-> (exists baseTable, readKey tables (baseTableId model) = Own baseTable)
          /\ Forall (fun j => readKey tables (rightTableId j) ≠ Inherited) (joins model))
  /\ (forall pre j post,
        joins model = pre ++ j :: post ->
        readKey tables (rightTableId j) = Missing ->
        sameData (Proto.executeDataModel tables model)
                 (Proto.executeDataModel tables (mkDataModel (baseTableId model) (pre ++ post))))
  /\ (readKey tables (baseTableId model) = Inherited ->
      Proto.executeDataModel tables model
      = Throws "TypeError: Cannot read properties of undefined (reading 'map')")
  /\ (forall baseTable,
        readKey tables (baseTableId model) = Own baseTable ->
        Exists (fun j => readKey tables (rightTableId j) = Inherited) (joins model) ->
        Proto.executeDataModel tables model
        = Throws "TypeError: Cannot read properties of undefined (reading 'forEach')").
Proof.
  unfold Proto.executeDataModel. cbn [baseTableId joins].
  destruct (readKey tables (baseTableId model)) as [baseTable| |] eqn:Hbase.
  - split; [|split; [|split; [|split]]].
    + split; [|done].
      destruct (Proto_joinSteps_outcome tables (initialState baseTable) (joins model))
        as [[_ ->]|[_ ->]]; done.
    + destruct (Proto_joinSteps_outcome tables (initialState baseTable) (joins model))
        as [[Hall ->]|[Hex ->]].
      * split; [intros _; eauto | eauto].
      * split; [by intros [? ?] |]. intros [_ Hall].
        apply Exists_exists in Hex as (j & Hin & Hj). rewrite Forall_forall in Hall.
        by destruct (Hall j Hin).
    + intros pre j post Hjoins Hj. rewrite Hjoins, !foldl_app. simpl.
      rewrite (Proto_joinStep_Missing _ _ _ Hj).
      by destruct (foldl (Proto.joinStep tables) _ post).
    + done.
    + intros b _ Hex. by rewrite Proto_joinSteps_Inherited.
  - split; [done |]. split; [split; [by intros [? ?] | by intros [[? ?] _]] |].
    split; [done |]. split; [done |]. done.
  - split; [done |]. split; [split; [by intros [? ?] | by intros [[? ?] _]] |].
    split; [done |]. split; [done |]. done.
Qed.

(** C7. When the right rows are [pre ++ r :: post] and no row of [post] has
    the key of [r], the lookup holds [r] under that key, whatever rows of
    [pre] share it: every accumulator row with that key gives exactly one
    row, whose prefixed columns hold the values of [r]. The rows of a join
    are the rows each accumulator row gives, in order, and an accumulator
    row never gives more than one. *)
Theorem duplicate_right_key_last_wins (tables : TableCollection) st join
    (rightTable : Table) pre r post :
  lookupKey tables (rightTableId join) = Some rightTable ->
  rows rightTable = pre ++ r :: post ->
  Forall (fun r' => toJsString (getField r' (rightColumn join))
                    ≠ toJsString (getField r (rightColumn join))) post ->
  let rightMap := buildRightMap (rightColumn join) (rows rightTable) in
  rightMap !! toJsString (getField r (rightColumn join)) = Some r
  /\ (forall leftRow,
        toJsString (getField leftRow (leftColumn join))
        = toJsString (getField r (rightColumn join)) ->
        probe join rightTable rightMap [] leftRow
        = [mergeMatched (tableName rightTable) (columns rightTable) r leftRow]
        /\ forall col, col ∈ columns rightTable ->
             getField (mergeMatched (tableName rightTable) (columns rightTable) r leftRow)
                      (prefixed (tableName rightTable) (name col))
             = getField r (name col))
  /\ resultRows (joinStep tables st join)
     = resultRows st ≫= probe join rightTable rightMap []
  /\ (forall leftRow, length (probe join rightTable rightMap [] leftRow) ≤ 1)
  /\ length (resultRows (joinStep tables st join)) ≤ length (resultRows st).
Proof.
  intros Hrt Hrows Hpost rightMap.
  assert (Hlast : rightMap !! toJsString (getField r (rightColumn join)) = Some r).
  { unfold rightMap. rewrite Hrows. by apply buildRightMap_last. }
  split; [done |]. split; [|split; [|split]].
  - intros leftRow Hkey. split.
    + apply probe_matched. by rewrite Hkey.
    + intros col Hcol. by apply mergeMatched_prefixed.
  - unfold joinStep. rewrite Hrt. simpl. apply foldl_probe_bind.
  - intros leftRow. apply probe_at_most_one.
  - apply joinStep_length_le.
Qed.

(** C10. [null] and [undefined] stringify to ["null"] and ["undefined"]. An
    accumulator row whose left value is [null] has the key of a right row
    [r] whose right value is [null]; when [r] is the last right row with
    that key, the accumulator row is kept and gets the values of [r],
    whether the join is LEFT or INNER. *)
Theorem null_keys_match (tables : TableCollection) join (rightTable : Table)
    pre r post leftRow :
  lookupKey tables (rightTableId join) = Some rightTable ->
  rows rightTable = pre ++ r :: post ->
  getField r (rightColumn join) = VNull ->
  Forall (fun r' => toJsString (getField r' (rightColumn join)) ≠ "null") post ->
  getField leftRow (leftColumn join) = VNull ->
  let rightMap := buildRightMap (rightColumn join) (rows rightTable) in
  let mergedRow := mergeMatched (tableName rightTable) (columns rightTable) r leftRow in
  toJsString VNull = "null"
  /\ toJsString VUndefined = "undefined"
  /\ toJsString (getField leftRow (leftColumn join))
     = toJsString (getField r (rightColumn join))
  /\ probe join rightTable rightMap [] leftRow = [mergedRow]
  /\ (forall st, leftRow ∈ resultRows st -> mergedRow ∈ resultRows (joinStep tables st join))
  /\ (forall col, col ∈ columns rightTable ->
        getField mergedRow (prefixed (tableName rightTable) (name col))
        = getField r (name col)).
Proof.
  intros Hrt Hrows Hr Hpost Hl rightMap mergedRow.
  assert (Hlast : rightMap !! "null" = Some r).
  { unfold rightMap. rewrite Hrows.
    change "null" with (toJsString VNull). rewrite <- Hr.
    apply buildRightMap_last. by rewrite Hr. }
  assert (Hprobe : probe join rightTable rightMap [] leftRow = [mergedRow]).
  { apply probe_matched. by rewrite Hl. }
  split; [done |]. split; [done |]. split; [by rewrite Hl, Hr |].
  split; [done |]. split.
  - intros st Hin. unfold joinStep. rewrite Hrt. simpl.
    fold rightMap. rewrite foldl_probe_bind.
    apply list_elem_of_bind. exists leftRow. split; [|done].
    rewrite Hprobe. apply list_elem_of_singleton. done.
  - intros col Hcol. by apply mergeMatched_prefixed.
Qed.

End JoinEngineClaims.

(** ** The claims on the example tables *)

Lemma executeDataModel_row_count_witness :
  exists ds,
    @executeDataModel exampleRuntime exTables (mkDataModel "Orders" [exJoin LEFT]) = Returns ds
    /\ rowCount ds = 2
    /\ exists baseTable,
         lookupKey exTables "Orders" = Some baseTable
         /\ rowCount ds ≤ length (rows baseTable).
Proof.
  eexists. split; [reflexivity |]. split; [reflexivity |].
  destruct (@executeDataModel_row_count exampleRuntime exTables
              (mkDataModel "Orders" [exJoin LEFT]) _ eq_refl)
    as (b & Hb & _ & Hle & _).
  exists b. split; [exact Hb | exact Hle].
Defined.

(** C6 fails on the code for a table id that names a member of
    [Object.prototype]. The collection has no table [constructor], and
    the read [tables['constructor']] of lines 8 and 18 gives the inherited
    function [Object], which passes the guards of lines 9 and 19. A base
    table of that id is not reported by [Base table not found]: line 12
    throws a [TypeError]. A join to that id is not skipped: line 29 throws a
    [TypeError], where the model without the join returns its two rows. *)
Theorem inherited_table_id_passes_the_guards :
  lookupKey exTables "constructor" = None
  /\ @Proto.executeDataModel exampleRuntime exTables (mkDataModel "constructor" [])
     = Throws "TypeError: Cannot read properties of undefined (reading 'map')"
  /\ rightTableId exInheritedJoin = "constructor"
  /\ @Proto.executeDataModel exampleRuntime exTables
       (mkDataModel "Orders" [exInheritedJoin; exJoin LEFT])
     = Throws "TypeError: Cannot read properties of undefined (reading 'forEach')"
  /\ (exists ds,
        @Proto.executeDataModel exampleRuntime exTables (mkDataModel "Orders" [exJoin LEFT])
        = Returns ds
        /\ length (rows ds) = 2).
Proof.
  split; [done |]. split; [done |]. split; [done |]. split; [done |].
  eexists. split; [reflexivity | done].
Qed.

Lemma duplicate_right_key_last_wins_witness :
  let tables := [("Orders", exOrders); ("Customers", exCustomersDup)] in
  let rightMap := @buildRightMap exampleRuntime "cust" (rows exCustomersDup) in
  lookupKey tables "Customers" = Some exCustomersDup
  /\ rightMap !! "A" = Some [("cust", VString "A"); ("tier", VString "gold")]
  /\ length (resultRows (@joinStep exampleRuntime tables (initialState exOrders) (exJoin INNER)))
     ≤ 2.
Proof.
  intros tables rightMap. split; [reflexivity |].
  destruct (@duplicate_right_key_last_wins exampleRuntime tables (initialState exOrders)
              (exJoin INNER) exCustomersDup
              [ [("cust", VString "A"); ("tier", VString "silver")] ]
              [("cust", VString "A"); ("tier", VString "gold")] []
              eq_refl eq_refl (Forall_nil_2 _))
    as (Hlast & _ & _ & _ & Hlen).
  split; [exact Hlast | exact Hlen].
Defined.

Lemma null_keys_match_witness :
  let tables := [("Orders", exOrders); ("Customers", exCustomersNull)] in
  @probe exampleRuntime (exJoin INNER) exCustomersNull
     (@buildRightMap exampleRuntime "cust" (rows exCustomersNull)) [] exAnonymousOrder
  = [ [("id", VNumber (ofInt 3)); ("cust", VNull); ("amt", VNumber (ofInt 7));
       ("Customers.cust", VNull); ("Customers.tier", VString "unknown")] ].
Proof.
  intros tables.
  exact (proj1 (proj2 (proj2 (proj2
    (@null_keys_match exampleRuntime tables (exJoin INNER) exCustomersNull
       [ [("cust", VString "A"); ("tier", VString "gold")] ]
       [("cust", VNull); ("tier", VString "unknown")] [] exAnonymousOrder
       eq_refl eq_refl eq_refl (Forall_nil_2 _) eq_refl))))).
Defined.

(** C1, at a model that joins the same right table twice. Both joins prefix
    with the same table name: the column list of the result has every
    [Customers.] name twice, and in the one row of the result the values of
    the second join have replaced those of the first. *)
Theorem repeated_right_table_repeats_column_names :
  exists ds,
    @executeDataModel exampleRuntime [("Trades", exTrades); ("Customers", exParties)]
       exTradeModel = Returns ds
    /\ map name (columns ds)
       = ["id"; "buyer"; "seller";
          "Customers.cust"; "Customers.tier"; "Customers.cust"; "Customers.tier"]
    /\ ~ NoDup (map name (columns ds))
    /\ rows ds
       = [ [("id", VNumber (ofInt 1)); ("buyer", VString "A"); ("seller", VString "B");
            ("Customers.cust", VString "B"); ("Customers.tier", VString "basic")] ].
Proof.
  eexists. split; [reflexivity |]. split; [reflexivity |]. split; [|reflexivity].
  simpl. intros Hnd. apply NoDup_cons in Hnd as [_ Hnd].
  do 2 apply NoDup_cons in Hnd as [_ Hnd].
  apply NoDup_cons in Hnd as [Hnotin _]. apply Hnotin. set_solver.
Qed.

(** ** The loop of [analyzeColumn] *)

Section ProfilerFacts.
Context `{JsRuntime}.

Lemma classify_known val : classify val ≠ UNKNOWN.
Proof.
  destruct val as [s| | | | |]; simpl; try done.
  destruct (_ && _); [done |]. by destruct (_ && _).
Qed.

Lemma parsedAs_cons ty val vals :
  parsedAs ty (val :: vals)
  = (if decide (classify val = ty) then 1 else 0) + parsedAs ty vals.
Proof. unfold parsedAs. rewrite filter_cons. by destruct (decide (classify val = ty)). Qed.

Lemma bump_count ty tc :
  ty ≠ UNKNOWN ->
  countDATE (bump ty tc) = (if decide (ty = DATE) then 1 else 0) + countDATE tc
  /\ countNUMBER (bump ty tc) = (if decide (ty = NUMBER) then 1 else 0) + countNUMBER tc
  /\ countBOOLEAN (bump ty tc) = (if decide (ty = BOOLEAN) then 1 else 0) + countBOOLEAN tc
  /\ countSTRING (bump ty tc) = (if decide (ty = STRING) then 1 else 0) + countSTRING tc.
Proof. by destruct ty. Qed.

Lemma presentValues_cons key row rows :
  presentValues key (row :: rows)
  = if isAbsent (getField row key) then presentValues key rows
    else getField row key :: presentValues key rows.
Proof.
  unfold presentValues, columnValues. simpl. rewrite filter_cons.
  destruct (isAbsent (getField row key)); by case_decide.
Qed.

(** What the loop has computed after any number of rows. *)
Lemma scan_invariant key rows st :
  let st' := foldl (scanRow key) st rows in
  values st' = values st ++ presentValues key rows
  /\ nulls st' + length (presentValues key rows) = nulls st + length rows
  /\ distinct st' = foldl setAdd (distinct st) (presentValues key rows)
  /\ countDATE (typeCounts st')
     = countDATE (typeCounts st) + parsedAs DATE (presentValues key rows)
  /\ countNUMBER (typeCounts st')
     = countNUMBER (typeCounts st) + parsedAs NUMBER (presentValues key rows)
  /\ countBOOLEAN (typeCounts st')
     = countBOOLEAN (typeCounts st) + parsedAs BOOLEAN (presentValues key rows)
  /\ countSTRING (typeCounts st')
     = countSTRING (typeCounts st) + parsedAs STRING (presentValues key rows).
Proof.
  revert st. induction rows as [|row rows IH]; intros st.
  - unfold presentValues, parsedAs. simpl. rewrite app_nil_r. repeat split; lia.
  - destruct (IH (scanRow key st row)) as (Hv & Hn & Hd & HD & HN & HB & HS).
    cbn [foldl]. cbv zeta. rewrite Hv, Hd, HD, HN, HB, HS.
    rewrite presentValues_cons. clear Hv Hd HD HN HB HS IH.
    unfold scanRow in *.
    destruct (isAbsent (getField row key)) eqn:Habs; cbn [nulls values distinct typeCounts] in *.
    + repeat split; try done. simpl. lia.
    + destruct (bump_count (classify (getField row key)) (typeCounts st)
                  (classify_known _)) as (-> & -> & -> & ->).
      rewrite !parsedAs_cons, <- app_assoc. simpl. repeat split; try done; lia.
Qed.

Lemma setAdd_length distinct val : length (setAdd distinct val) ≤ S (length distinct).
Proof.
  unfold setAdd. destruct (existsb _ _); [lia |].
  rewrite length_app. simpl. lia.
Qed.

Lemma foldl_setAdd_length vals distinct :
  length (foldl setAdd distinct vals) ≤ length distinct + length vals.
Proof.
  revert distinct. induction vals as [|v vals IH]; intros distinct; simpl; [lia |].
  etrans; [apply IH |]. pose proof (setAdd_length distinct v). lia.
Qed.

(** The loop, from its initial state. *)
Lemma scan_result key rows :
  let st := foldl (scanRow key) scanStart rows in
  values st = presentValues key rows
  /\ nulls st + length (presentValues key rows) = length rows
  /\ distinct st = foldl setAdd [] (presentValues key rows)
  /\ countDATE (typeCounts st) = parsedAs DATE (presentValues key rows)
  /\ countNUMBER (typeCounts st) = parsedAs NUMBER (presentValues key rows)
  /\ countBOOLEAN (typeCounts st) = parsedAs BOOLEAN (presentValues key rows).
Proof.
  destruct (scan_invariant key rows scanStart) as (Hv & Hn & Hd & HD & HN & HB & _).
  cbv zeta. by rewrite Hv, Hd, HD, HN, HB.
Qed.

Lemma analyzeColumn_fields key rows :
  let st := foldl (scanRow key) scanStart rows in
  name (analyzeColumn key rows) = key
  /\ type (analyzeColumn key rows) = decideType (typeCounts st) (length (values st))
  /\ nullCount (analyzeColumn key rows) = nulls st
  /\ uniqueCount (analyzeColumn key rows) = length (distinct st).
Proof.
  unfold analyzeColumn. simpl.
  destruct (decideType _ _); try done.
  - by destruct (numericSummary _) as [[[[? ?] ?] ?]|].
  - by destruct (dateSummary _) as [[? ?]|].
Qed.

Lemma gt_fraction_decide count n num den :
  gt_fraction count n num den = bool_decide (num * n < den * count).
Proof.
  unfold gt_fraction. rewrite (Nat.mul_comm n num), (Nat.mul_comm count den).
  destruct (Nat.ltb_spec (num * n) (den * count)).
  - by rewrite bool_decide_eq_true_2.
  - rewrite bool_decide_eq_false_2; [done | lia].
Qed.

Lemma decideType_strict tc present :
  decideType tc present
  = (if decide (8 * present < 10 * countDATE tc) then DATE
     else if decide (8 * present < 10 * countNUMBER tc) then NUMBER
     else if decide (9 * present < 10 * countBOOLEAN tc) then BOOLEAN
     else STRING).
Proof.
  unfold decideType. rewrite !gt_fraction_decide.
  repeat case_bool_decide; repeat case_decide; done.
Qed.

(** C5. For every column and every row set, [nullCount] plus the number of
    rows whose value is present is the number of rows, and [uniqueCount] is
    at most the number of rows whose value is present. *)
Theorem analyzeColumn_counts key rows :
  nullCount (analyzeColumn key rows) + length (presentValues key rows) = length rows
  /\ uniqueCount (analyzeColumn key rows) ≤ length (presentValues key rows).
Proof.
  destruct (analyzeColumn_fields key rows) as (_ & _ & -> & ->).
  destruct (scan_result key rows) as (_ & Hn & -> & _).
  split; [done |]. apply (foldl_setAdd_length _ []).
Qed.

(** C3, as the code decides it: the thresholds are strict. With [n] present
    values of which [d], [k] and [b] are counted as DATE, NUMBER and
    BOOLEAN, the type is DATE when [d > 0.8 n], else NUMBER when
    [k > 0.8 n], else BOOLEAN when [b > 0.9 n], else STRING. So a column
    with exactly 80% of numbers is not NUMBER, and a column with no present
    value is STRING. *)
Theorem analyzeColumn_type_thresholds key rows :
  let present := presentValues key rows in
  let n := length present in
  type (analyzeColumn key rows)
  = (if decide (8 * n < 10 * parsedAs DATE present) then DATE
     else if decide (8 * n < 10 * parsedAs NUMBER present) then NUMBER
     else if decide (9 * n < 10 * parsedAs BOOLEAN present) then BOOLEAN
     else STRING)
  /\ (10 * parsedAs NUMBER present = 8 * n -> type (analyzeColumn key rows) ≠ NUMBER)
  /\ (n = 0 -> type (analyzeColumn key rows) = STRING).
Proof.
  intros present n.
  destruct (analyzeColumn_fields key rows) as (_ & -> & _).
  destruct (scan_result key rows) as (-> & _ & _ & HD & HN & HB).
  rewrite decideType_strict, HD, HN, HB. fold present n.
  split; [done |]. split.
  - intros Hk. repeat case_decide; try done; lia.
  - intros Hn0. subst n. apply nil_length_inv in Hn0. rewrite Hn0.
    unfold parsedAs. simpl. repeat case_decide; try done; lia.
Qed.

End ProfilerFacts.

(** C3 as stated fails on four numeric strings and a word: exactly 80% of
    the present values are counted as NUMBER and none as DATE, the
    specification's wording gives NUMBER, and the code gives STRING. *)
Lemma exactly_80_percent_is_not_NUMBER :
  let present := presentValues "v" exFourInFive in
  length present = 5
  /\ @parsedAs exampleRuntime NUMBER present = 4
  /\ @parsedAs exampleRuntime DATE present = 0
  /\ specDecideType (@parsedAs exampleRuntime DATE present)
                    (@parsedAs exampleRuntime NUMBER present)
                    (@parsedAs exampleRuntime BOOLEAN present) (length present) = NUMBER
  /\ type (@analyzeColumn exampleRuntime "v" exFourInFive) = STRING.
Proof. repeat split. Qed.

(** ** The dimensions of a sheet *)

Section SheetFacts.
Context `{JsRuntime}.

Lemma insertByUnique_perm c sorted : insertByUnique c sorted ≡ₚ c :: sorted.
Proof.
  induction sorted as [|d sorted IH]; simpl; [done |].
  destruct (uniqueCount c <=? uniqueCount d); [done |].
  rewrite IH. apply Permutation_swap.
Qed.

Lemma sortByUnique_perm cols : sortByUnique cols ≡ₚ cols.
Proof.
  induction cols as [|c cols IH]; simpl; [done |].
  by rewrite insertByUnique_perm, IH.
Qed.

Lemma insertByUnique_sorted c sorted :
  StronglySorted (fun a b => uniqueCount a ≤ uniqueCount b) sorted ->
  StronglySorted (fun a b => uniqueCount a ≤ uniqueCount b) (insertByUnique c sorted).
Proof.
  induction 1 as [|d sorted Hsorted IH Hd]; simpl.
  - repeat constructor.
  - destruct (uniqueCount c <=? uniqueCount d) eqn:Hcd.
    + apply Nat.leb_le in Hcd. constructor; [by constructor |].
      constructor; [done |]. eapply Forall_impl; [exact Hd |]. simpl. lia.
    + apply Nat.leb_gt in Hcd. constructor; [done |].
      rewrite insertByUnique_perm. constructor; [lia | done].
Qed.

Lemma sortByUnique_sorted cols :
  StronglySorted (fun a b => uniqueCount a ≤ uniqueCount b) (sortByUnique cols).
Proof.
  induction cols as [|c cols IH]; simpl; [constructor |].
  by apply insertByUnique_sorted.
Qed.

(** The sort is stable: columns with the same [uniqueCount] keep their order. *)
Lemma insertByUnique_stable k c sorted :
  filter (fun d => uniqueCount d = k) (insertByUnique c sorted)
  = filter (fun d => uniqueCount d = k) (c :: sorted).
Proof.
  induction sorted as [|d sorted IH]; simpl; [done |].
  destruct (uniqueCount c <=? uniqueCount d) eqn:Hcd; [done |].
  apply Nat.leb_gt in Hcd. rewrite !filter_cons in *. rewrite IH.
  repeat case_decide; try done; lia.
Qed.

Lemma sortByUnique_stable k cols :
  filter (fun d => uniqueCount d = k) (sortByUnique cols)
  = filter (fun d => uniqueCount d = k) cols.
Proof.
  induction cols as [|c cols IH]; simpl; [done |].
  rewrite insertByUnique_stable, !filter_cons, IH. done.
Qed.

Lemma isDimension_spec rowTotal c :
  isDimension rowTotal c
  <-> type c = STRING /\ uniqueCount c ≤ 100 /\ 10 * uniqueCount c < 9 * rowTotal.
Proof.
  unfold isDimension, lt_fraction.
  rewrite !andb_True, bool_decide_spec, !Is_true_true, Nat.leb_le, Nat.ltb_lt.
  intuition lia.
Qed.

(** C4, as the code selects them: the dimensions are the names of the STRING
    columns whose [uniqueCount] is at most 100 and below 0.9 times the
    number of rows, with no lower bound on [uniqueCount], in ascending order
    of [uniqueCount], columns with the same [uniqueCount] in column order. *)
Theorem analyzeSheetData_dimensions rawRows fileName ds :
  analyzeSheetData rawRows fileName = Returns ds ->
  exists dims : list ColumnProfile,
    dimensions ds = map name dims
    /\ dims ≡ₚ filter (fun c => type c = STRING /\ uniqueCount c ≤ 100
                                /\ 10 * uniqueCount c < 9 * length rawRows) (columns ds)
    /\ StronglySorted (fun a b => uniqueCount a ≤ uniqueCount b) dims
    /\ (forall k,
          filter (fun c => uniqueCount c = k) dims
          = filter (fun c => uniqueCount c = k)
              (filter (fun c => type c = STRING /\ uniqueCount c ≤ 100
                                /\ 10 * uniqueCount c < 9 * length rawRows) (columns ds))).
Proof.
  unfold analyzeSheetData. destruct rawRows as [|firstRow rawRows]; [done |].
  intros [= <-]. cbn [dimensions columns].
  set (cols := map _ (objectKeys firstRow)).
  rewrite <- (list_filter_iff _ _ cols (isDimension_spec (length (firstRow :: rawRows)))).
  eexists. split; [reflexivity |].
  split; [apply sortByUnique_perm |].
  split; [apply sortByUnique_sorted |].
  intros k. apply sortByUnique_stable.
Qed.

End SheetFacts.

(** C4 as stated fails on a sheet whose [region] column holds one repeated
    value: its [uniqueCount] is 1 and it is a dimension, the first one. *)
Lemma single_valued_column_is_a_dimension :
  exists ds,
    @analyzeSheetData exampleRuntime exOneRegion "Sales" = Returns ds
    /\ map (fun c => (name c, type c, uniqueCount c)) (columns ds)
       = [("region", STRING, 1); ("city", STRING, 3)]
    /\ dimensions ds = ["region"; "city"].
Proof. eexists. repeat split. Qed.

Lemma analyzeSheetData_dimensions_witness :
  exists ds dims,
    @analyzeSheetData exampleRuntime exOneRegion "Sales" = Returns ds
    /\ dimensions ds = map name dims
    /\ StronglySorted (fun a b => uniqueCount a ≤ uniqueCount b) dims.
Proof.
  eexists.
  destruct (@analyzeSheetData_dimensions exampleRuntime exOneRegion "Sales" _ eq_refl)
    as (dims & Hnames & _ & Hsorted & _).
  exists dims. split; [reflexivity |]. split; [exact Hnames | exact Hsorted].
Defined.

Lemma analyzeColumn_type_thresholds_witness :
  10 * @parsedAs exampleRuntime NUMBER (presentValues "v" exFourInFive)
  = 8 * length (presentValues "v" exFourInFive)
  /\ type (@analyzeColumn exampleRuntime "v" exFourInFive) ≠ NUMBER.
Proof.
  split; [reflexivity |].
  exact (proj1 (proj2 (@analyzeColumn_type_thresholds exampleRuntime "v" exFourInFive))
               eq_refl).
Defined.

(** ** Join suggestions *)

Section SuggesterFacts.
Context `{JsRuntime}.

Lemma find_first {A : Type} (f : A -> bool) (pre : list A) (x : A) (post : list A) :
  Forall (fun a => f a = false) pre -> f x = true -> find f (pre ++ x :: post) = Some x.
Proof.
  intros Hpre Hx. induction Hpre as [|a pre Ha _ IH]; simpl.
  - by rewrite Hx.
  - by rewrite Ha.
Qed.

Lemma nameMatch_LEFT dimTable baseCol acc dimCol :
  (forall cfg, fst acc = Some cfg -> joinType cfg = LEFT /\ rightTableId cfg = id dimTable) ->
  forall cfg, fst (nameMatch dimTable baseCol acc dimCol) = Some cfg ->
              joinType cfg = LEFT /\ rightTableId cfg = id dimTable.
Proof.
  intros Hacc cfg. unfold nameMatch.
  destruct (bool_decide _); [|apply Hacc].
  destruct (nearUnique _ _); [|apply Hacc].
  destruct (randomUUID (snd acc)) as [uuid g]. simpl. by intros [= <-].
Qed.

Lemma strategy1_LEFT baseTable dimTable g cfg :
  fst (strategy1 baseTable dimTable g) = Some cfg ->
  joinType cfg = LEFT /\ rightTableId cfg = id dimTable.
Proof.
  unfold strategy1. generalize (columns baseTable) as baseCols.
  assert (Hstart : forall c, fst (@None JoinConfig, g) = Some c ->
                             joinType c = LEFT /\ rightTableId c = id dimTable) by done.
  revert Hstart. generalize (@None JoinConfig, g) as acc.
  intros acc Hacc baseCols. revert acc Hacc cfg.
  induction baseCols as [|b baseCols IH]; intros acc Hacc cfg; simpl; [apply Hacc |].
  apply IH. clear IH cfg. revert acc Hacc.
  induction (columns dimTable) as [|d dimCols IHd]; intros acc Hacc; simpl; [done |].
  apply IHd. by apply nameMatch_LEFT.
Qed.

Lemma strategy2_LEFT baseTable dimTable g cfg :
  fst (strategy2 baseTable dimTable g) = Some cfg ->
  joinType cfg = LEFT /\ rightTableId cfg = id dimTable.
Proof.
  unfold strategy2.
  destruct (find (isIdColumn dimTable) _); [|done].
  destruct (nearUnique _ _); [|done].
  destruct (find (isForeignKey dimTable) _); [|done].
  destruct (randomUUID g). simpl. by intros [= <-].
Qed.

Lemma bestJoinFor_LEFT baseTable dimTable g cfg :
  fst (bestJoinFor baseTable dimTable g) = Some cfg ->
  joinType cfg = LEFT /\ rightTableId cfg = id dimTable.
Proof.
  unfold bestJoinFor.
  destruct (strategy1 baseTable dimTable g) as [[c|] g'] eqn:H1.
  - simpl. intros [= <-]. apply (strategy1_LEFT baseTable dimTable g). by rewrite H1.
  - apply strategy2_LEFT.
Qed.

(** Without a pair of equal names, Strategy 1 finds nothing and draws no
    identifier. *)
Lemma strategy1_no_match (baseTable dimTable : Table) g :
  (forall b d, b ∈ columns baseTable -> d ∈ columns dimTable ->
               toLowerCase (name b) ≠ toLowerCase (name d)) ->
  strategy1 baseTable dimTable g = (None, g).
Proof.
  unfold strategy1. generalize (columns baseTable) as baseCols.
  induction baseCols as [|b baseCols IH]; intros Hno; simpl; [done |].
  assert (Hinner : foldl (nameMatch dimTable b) (None, g) (columns dimTable) = (None, g)).
  { assert (Hb : forall d, d ∈ columns dimTable ->
                           toLowerCase (name b) ≠ toLowerCase (name d)).
    { intros d Hd. apply Hno; [left | done]. }
    revert Hb. generalize (columns dimTable) as dimCols.
    induction dimCols as [|d dimCols IHd]; intros Hb; simpl; [done |].
    unfold nameMatch at 2. rewrite bool_decide_eq_false_2 by (apply Hb; left).
    apply IHd. intros d' Hd'. apply Hb. by right. }
  rewrite Hinner. apply IH. intros b' d Hb' Hd. apply Hno; [by right | done].
Qed.

(** What the loop over the other tables has pushed, seen through the
    suggestions for one table id. *)
Lemma suggestFor_foldl_other baseTable (i : string) ts acc g :
  Forall (fun t => id t ≠ i) ts ->
  filter (fun c => rightTableId c = i) (fst (foldl (suggestFor baseTable) (acc, g) ts))
  = filter (fun c => rightTableId c = i) acc.
Proof.
  intros Hts. revert acc g. induction Hts as [|t ts Ht _ IH]; intros acc g; simpl; [done |].
  unfold suggestFor at 2. simpl.
  destruct (bestJoinFor baseTable t g) as [[c|] g'] eqn:Hbest; simpl; rewrite IH; [|done].
  rewrite filter_app, filter_cons, filter_nil.
  destruct (bestJoinFor_LEFT baseTable t g c) as [_ Hid]; [by rewrite Hbest |].
  rewrite decide_False by congruence. by rewrite app_nil_r.
Qed.

Lemma suggestFor_foldl_LEFT baseTable ts acc g :
  Forall (fun c => joinType c = LEFT) acc ->
  Forall (fun c => joinType c = LEFT) (fst (foldl (suggestFor baseTable) (acc, g) ts)).
Proof.
  revert acc g. induction ts as [|t ts IH]; intros acc g Hacc; simpl; [done |].
  unfold suggestFor at 2. simpl.
  destruct (bestJoinFor baseTable t g) as [[c|] g'] eqn:Hbest; simpl; apply IH; [|done].
  apply Forall_app. split; [done |]. apply Forall_singleton.
  apply (bestJoinFor_LEFT baseTable t g). by rewrite Hbest.
Qed.

End SuggesterFacts.

Section SuggesterClaims.
Context `{JsRuntime}.

Lemma customers_names :
  lowersAscii -> slicesAscii ->
  toLowerCase "Customers" = "customers"
  /\ toLowerCase "Customers" +:+ "_id" = "customers_id"
  /\ sliceInit (toLowerCase "Customers") +:+ "_id" = "customer_id"
  /\ toLowerCase "id" = "id"
  /\ toLowerCase "customer_id" = "customer_id".
Proof.
  intros Hlower Hslice.
  rewrite (Hlower "Customers"), (Hlower "id"), (Hlower "customer_id") by done.
  rewrite (Hslice (asciiLowerCase "Customers")) by done. done.
Qed.

(** The foreign-key convention for a table named [Customers], under the
    conditions of the amended claim, whatever the state of the generator. *)
Lemma bestJoinFor_customers (baseTable dimTable : Table) g
    basePre fk basePost dimPre idCol dimPost :
  lowersAscii -> slicesAscii ->
  tableName dimTable = "Customers" ->
  columns baseTable = basePre ++ fk :: basePost ->
  name fk = "customer_id" ->
  Forall (fun c => includes (toLowerCase (name c)) "customers" = false
                   /\ toLowerCase (name c) ≠ "customer_id") basePre ->
  columns dimTable = dimPre ++ idCol :: dimPost ->
  name idCol = "id" ->
  Forall (fun c => toLowerCase (name c) ∉ ["id"; "customers_id"; "customer_id"]) dimPre ->
  9 * rowCount dimTable < 10 * uniqueCount idCol ->
  (forall b d, b ∈ columns baseTable -> d ∈ columns dimTable ->
               toLowerCase (name b) ≠ toLowerCase (name d)) ->
  exists cfg g',
    bestJoinFor baseTable dimTable g = (Some cfg, g')
    /\ rightTableId cfg = id dimTable
    /\ leftColumn cfg = "customer_id" /\ rightColumn cfg = "id" /\ joinType cfg = LEFT.
Proof.
  intros Hlower Hslice Hname Hbase Hfk HbasePre Hdim Hid HdimPre Hunique Hno.
  destruct (customers_names Hlower Hslice) as (Hlow & Hsid & Hfkn & Hlid & Hlfk).
  unfold bestJoinFor. rewrite strategy1_no_match by done.
  unfold strategy2.
  assert (Hfind1 : find (isIdColumn dimTable) (columns dimTable) = Some idCol).
  { rewrite Hdim. apply find_first.
    - eapply Forall_impl; [exact HdimPre |]. intros c Hc. simpl in Hc.
      unfold isIdColumn. rewrite Hname, Hsid, Hfkn.
      rewrite !not_elem_of_cons in Hc. destruct Hc as (? & ? & ? & _).
      by rewrite !bool_decide_eq_false_2.
    - unfold isIdColumn. by rewrite Hid, Hlid. }
  assert (Hfind2 : find (isForeignKey dimTable) (columns baseTable) = Some fk).
  { rewrite Hbase. apply find_first.
    - eapply Forall_impl; [exact HbasePre |]. intros c [Hinc Hne].
      unfold isForeignKey, fkName. rewrite Hname, Hfkn, Hlow, Hinc.
      by rewrite bool_decide_eq_false_2.
    - unfold isForeignKey, fkName. rewrite Hname, Hfk, Hfkn, Hlfk.
      rewrite bool_decide_eq_true_2 by done. apply orb_true_r. }
  rewrite Hfind1, Hfind2.
  assert (Hnear : nearUnique idCol dimTable = true).
  { unfold nearUnique, gt_fraction. apply Nat.ltb_lt. lia. }
  rewrite Hnear. destruct (randomUUID g) as [uuid g'].
  eexists _, _. split; [reflexivity |]. simpl. by rewrite Hfk, Hid.
Qed.

(** C8, as amended. Every suggestion has join type LEFT. For a base table
    and another table named [Customers], the only one of the collection
    with its id: when no column name of one equals a column name of the
    other up to case, [customer_id] is the first base column whose
    lower-cased name contains [customers] or is [customer_id], and [id] is
    the first column of [Customers] whose lower-cased name is [id],
    [customers_id] or [customer_id] and has more than 0.9 distinct values
    per row, there is exactly one suggestion for that table, and it joins
    [customer_id] to [id] with type LEFT. Names are compared by the
    [toLowerCase] of the runtime, of which the theorem uses what it does on
    ASCII strings ([lowersAscii], [slicesAscii]): two names that differ by
    the case of a letter outside ASCII are equal up to case too. *)
Theorem suggestJoins_foreign_key_convention
    (baseTableId : string) (tables : TableCollection) (g : Entropy) :
  Forall (fun c => joinType c = LEFT) (fst (suggestJoins baseTableId tables g))
  /\ forall (baseTable dimTable : Table) basePre fk basePost dimPre idCol dimPost,
       lowersAscii -> slicesAscii ->
       lookupKey tables baseTableId = Some baseTable ->
       dimTable ∈ objectValues tables ->
       NoDup (map id (objectValues tables)) ->
       id dimTable ≠ baseTableId ->
       tableName dimTable = "Customers" ->
       columns baseTable = basePre ++ fk :: basePost ->
       name fk = "customer_id" ->
       Forall (fun c => includes (toLowerCase (name c)) "customers" = false
                        /\ toLowerCase (name c) ≠ "customer_id") basePre ->
       columns dimTable = dimPre ++ idCol :: dimPost ->
       name idCol = "id" ->
       Forall (fun c => toLowerCase (name c) ∉ ["id"; "customers_id"; "customer_id"])
              dimPre ->
       9 * rowCount dimTable < 10 * uniqueCount idCol ->
       (forall b d, b ∈ columns baseTable -> d ∈ columns dimTable ->
                    toLowerCase (name b) ≠ toLowerCase (name d)) ->
       exists cfg,
         filter (fun c => rightTableId c = id dimTable)
                (fst (suggestJoins baseTableId tables g)) = [cfg]
         /\ leftColumn cfg = "customer_id" /\ rightColumn cfg = "id"
         /\ joinType cfg = LEFT.
Proof.
  split.
  { unfold suggestJoins. destruct (lookupKey tables baseTableId); [|by constructor].
    by apply suggestFor_foldl_LEFT. }
  intros baseTable dimTable basePre fk basePost dimPre idCol dimPost
         Hlower Hslice Hb Hin Hnodup Hother Hname Hbase Hfk HbasePre Hdim Hid HdimPre Hunique Hno.
  unfold suggestJoins. rewrite Hb.
  apply list_elem_of_split in Hin as (pre & post & Hsplit).
  rewrite Hsplit in *. clear Hsplit.
  rewrite fmap_app, fmap_cons in Hnodup.
  apply NoDup_app in Hnodup as (_ & Hpre & Hpost).
  apply NoDup_cons in Hpost as [Hpost _].
  assert (Hpre' : Forall (fun t => id t ≠ id dimTable)
                         (filter (fun t => id t ≠ baseTableId) pre)).
  { apply Forall_forall. intros t [_ Ht]%list_elem_of_filter Heq.
    apply (Hpre (id t)); [by apply list_elem_of_fmap_2 | rewrite Heq; left]. }
  assert (Hpost' : Forall (fun t => id t ≠ id dimTable)
                          (filter (fun t => id t ≠ baseTableId) post)).
  { apply Forall_forall. intros t [_ Ht]%list_elem_of_filter Heq.
    apply Hpost. rewrite <- Heq. by apply list_elem_of_fmap_2. }
  rewrite filter_app, filter_cons, decide_True by done.
  rewrite foldl_app. cbn [foldl].
  pose proof (suggestFor_foldl_other baseTable (id dimTable) _ [] g Hpre') as Hacc1.
  destruct (foldl (suggestFor baseTable) ([], g) (filter _ pre)) as [acc1 g1].
  simpl in Hacc1.
  destruct (bestJoinFor_customers baseTable dimTable g1 basePre fk basePost dimPre idCol
              dimPost Hlower Hslice Hname Hbase Hfk HbasePre Hdim Hid HdimPre Hunique Hno)
    as (cfg & g2 & Hbest & Hrt & Hl & Hr & Hty).
  unfold suggestFor at 2. simpl. rewrite Hbest.
  rewrite (suggestFor_foldl_other baseTable (id dimTable) _ _ _ Hpost').
  rewrite filter_app, Hacc1, filter_cons, decide_True by done.
  exists cfg. by rewrite filter_nil.
Qed.

End SuggesterClaims.

(** C8 as stated fails when a base column named after the other table comes
    before [customer_id]: no two names are equal up to case, [id] is
    unique in [Customers], and the one suggestion joins [num_customers]. *)
Lemma customer_id_is_not_always_the_left_column :
  In (profile "customer_id" NUMBER 0 2) (columns (exInvoices "num_customers"))
  /\ (forall b d, In b (columns (exInvoices "num_customers")) ->
                  In d (columns exCustomerDirectory) ->
                  @toLowerCase exampleRuntime (name b) ≠ @toLowerCase exampleRuntime (name d))
  /\ map (fun c => (rightTableId c, leftColumn c, rightColumn c, joinType c))
         (fst (@suggestJoins exampleRuntime "Invoices" (exDirectory "num_customers") 0))
     = [("Customers", "num_customers", "id", LEFT)].
Proof.
  split; [simpl; tauto |]. split; [|reflexivity].
  simpl. intros b d [<-|[<-|[]]] [<-|[<-|[]]]; done.
Qed.

Lemma suggestJoins_foreign_key_convention_witness :
  exists cfg,
    filter (fun c => rightTableId c = "Customers")
           (fst (@suggestJoins exampleRuntime "Invoices" (exDirectory "amount") 0)) = [cfg]
    /\ leftColumn cfg = "customer_id" /\ rightColumn cfg = "id" /\ joinType cfg = LEFT.
Proof.
  refine (proj2 (@suggestJoins_foreign_key_convention exampleRuntime "Invoices"
                   (exDirectory "amount") 0)
            (exInvoices "amount") exCustomerDirectory
            [profile "amount" NUMBER 0 2] (profile "customer_id" NUMBER 0 2) []
            [] (profile "id" NUMBER 0 2) [profile "tier" STRING 0 2]
            (fun s _ => eq_refl) (fun s _ => eq_refl) eq_refl _ _ _ eq_refl eq_refl eq_refl _ eq_refl eq_refl _ _ _).
  - simpl. set_solver.
  - simpl. apply NoDup_cons.
    split; [by intros ?%list_elem_of_singleton | apply NoDup_singleton].
  - done.
  - repeat constructor; done.
  - constructor.
  - simpl. lia.
  - simpl. intros b d Hb Hd.
    apply elem_of_cons in Hb as [->|Hb%list_elem_of_singleton];
      apply elem_of_cons in Hd as [->|Hd%list_elem_of_singleton]; subst; done.
Defined.

(** ** What a call writes: a small logic of store extension *)

Lemma prefix_of_insert_fresh (σ0 σ : Store) (l : Ref) (o : Obj) :
  σ0 `prefix_of` σ -> freshFor σ0 l -> σ0 `prefix_of` <[l := o]> σ.
Proof.
  intros [ext ->] Hl. unfold freshFor in Hl.
  rewrite insert_app_r_alt by done. by eexists.
Qed.

Lemma prefix_of_alloc (σ0 σ : Store) (o : Obj) :
  σ0 `prefix_of` σ -> σ0 `prefix_of` σ ++ [o] /\ freshFor σ0 (length σ).
Proof.
  intros Hpre. split.
  - by apply prefix_app_r.
  - unfold freshFor. by apply prefix_length.
Qed.

Section Keeps.
Context {A B : Type}.

Lemma keeps_ret σ0 (a : A) (Q : A -> Prop) : Q a -> keeps σ0 (mret a) Q.
Proof. intros HQ σ Hσ. split; [done |]. by intros a' [= <-]. Qed.

Lemma keeps_throw σ0 msg (Q : A -> Prop) : keeps σ0 (throw msg) Q.
Proof. intros σ Hσ. by split. Qed.

Lemma keeps_bind σ0 (c : Heap A) (k : A -> Heap B) (Q : A -> Prop) (R : B -> Prop) :
  keeps σ0 c Q -> (forall a, Q a -> keeps σ0 (k a) R) -> keeps σ0 (c ≫= k) R.
Proof.
  intros Hc Hk σ Hσ. destruct (Hc σ Hσ) as [Hpre HQ].
  unfold mbind, Heap_bind. destruct (c σ) as [[a|msg] σ']; simpl in *; [|by split].
  by apply Hk; [apply HQ |].
Qed.

Lemma keeps_weaken σ0 (c : Heap A) (Q R : A -> Prop) :
  keeps σ0 c Q -> (forall a, Q a -> R a) -> keeps σ0 c R.
Proof.
  intros Hc HQR σ Hσ. destruct (Hc σ Hσ) as [Hpre HQ]. split; [done |].
  intros a Ha. by apply HQR, HQ.
Qed.

End Keeps.

Lemma keeps_alloc σ0 o : keeps σ0 (alloc o) (freshFor σ0).
Proof.
  intros σ Hσ. destruct (prefix_of_alloc σ0 σ o Hσ) as [Hpre Hfresh].
  split; [done |]. by intros a [= <-].
Qed.

Lemma keeps_load σ0 l : keeps σ0 (load l) (fun _ => True).
Proof. intros σ Hσ. unfold load. by destruct (σ !! l). Qed.

Lemma keeps_store σ0 l o : freshFor σ0 l -> keeps σ0 (store l o) (fun _ => True).
Proof. intros Hl σ Hσ. split; [|done]. by apply prefix_of_insert_fresh. Qed.

Lemma keeps_forEach {A : Type} σ0 (f : A -> Heap unit) (xs : list A) :
  (forall x, keeps σ0 (f x) (fun _ => True)) -> keeps σ0 (forEach f xs) (fun _ => True).
Proof.
  intros Hf. induction xs as [|x xs IH]; simpl.
  - by apply keeps_ret.
  - eapply keeps_bind; [apply Hf | intros _ _; apply IH].
Qed.

Lemma keeps_mapEach {A B : Type} σ0 (f : A -> Heap B) (Q : B -> Prop) (xs : list A) :
  (forall x, keeps σ0 (f x) Q) -> keeps σ0 (mapEach f xs) (Forall Q).
Proof.
  intros Hf. induction xs as [|x xs IH]; simpl.
  - by apply keeps_ret.
  - eapply keeps_bind; [apply Hf |]. intros y Hy.
    eapply keeps_bind; [apply IH |]. intros ys Hys.
    apply keeps_ret. by constructor.
Qed.

Lemma keeps_foldEach {A S : Type} σ0 (f : S -> A -> Heap S) (I : S -> Prop) s (xs : list A) :
  I s -> (forall s x, I s -> keeps σ0 (f s x) I) -> keeps σ0 (foldEach f s xs) I.
Proof.
  intros Hs Hf. revert s Hs. induction xs as [|x xs IH]; intros s Hs; simpl.
  - by apply keeps_ret.
  - eapply keeps_bind; [by apply Hf |]. intros s' Hs'. by apply IH.
Qed.

(** The typed reads write nothing. *)
Ltac keeps_read :=
  eapply keeps_bind; [apply keeps_load |];
  intros [] _; first [by apply keeps_ret | apply keeps_throw].

Lemma keeps_loadRow σ0 l : keeps σ0 (loadRow l) (fun _ => True).
Proof. unfold loadRow. keeps_read. Qed.

Lemma keeps_loadRowArray σ0 l : keeps σ0 (loadRowArray l) (fun _ => True).
Proof. unfold loadRowArray. keeps_read. Qed.

Lemma keeps_loadProfile σ0 l : keeps σ0 (loadProfile l) (fun _ => True).
Proof. unfold loadProfile. keeps_read. Qed.

Lemma keeps_loadProfileArray σ0 l : keeps σ0 (loadProfileArray l) (fun _ => True).
Proof. unfold loadProfileArray. keeps_read. Qed.

Lemma keeps_loadNameArray σ0 l : keeps σ0 (loadNameArray l) (fun _ => True).
Proof. unfold loadNameArray. keeps_read. Qed.

Lemma keeps_loadTable σ0 l : keeps σ0 (loadTable l) (fun _ => True).
Proof. unfold loadTable. keeps_read. Qed.

Create HintDb keeps discriminated.
#[local] Hint Resolve keeps_loadRow keeps_loadRowArray keeps_loadProfile
  keeps_loadProfileArray keeps_loadNameArray keeps_loadTable keeps_alloc : keeps.

(** [x ← read; ...]: step over a read, or over an allocation whose reference
    is then known to be fresh. *)
Ltac keeps_step :=
  lazymatch goal with
  | |- keeps _ (mret _) _ => apply keeps_ret
  | |- keeps _ (throw _) _ => apply keeps_throw
  | |- keeps _ (_ ≫= _) _ =>
      eapply keeps_bind; [solve [eauto with keeps] | intros ? ?]
  end.

Section ImpFrame.
Context `{JsRuntime}.

Lemma keeps_copyRow σ0 row : keeps σ0 (Imp.copyRow row) (freshFor σ0).
Proof. unfold Imp.copyRow. keeps_step. apply keeps_alloc. Qed.

Lemma keeps_assign σ0 row k v :
  freshFor σ0 row -> keeps σ0 (Imp.assign row k v) (fun _ => True).
Proof. intros Hrow. unfold Imp.assign. keeps_step. by apply keeps_store. Qed.

Lemma keeps_push σ0 rows row :
  freshFor σ0 rows -> keeps σ0 (Imp.push rows row) (fun _ => True).
Proof. intros Hrows. unfold Imp.push. keeps_step. by apply keeps_store. Qed.

Lemma keeps_buildRightMap σ0 rightCol rightRows :
  keeps σ0 (Imp.buildRightMap rightCol rightRows) (fun _ => True).
Proof.
  unfold Imp.buildRightMap. apply keeps_foldEach; [done |].
  intros rightMap row _. keeps_step. by apply keeps_ret.
Qed.

Lemma keeps_assignColumns σ0 rightTable mergedRow value :
  freshFor σ0 mergedRow ->
  (forall col, keeps σ0 (value col) (fun _ => True)) ->
  keeps σ0 (Imp.assignColumns rightTable mergedRow value) (fun _ => True).
Proof.
  intros Hm Hvalue. unfold Imp.assignColumns. keeps_step.
  apply keeps_forEach. intros c. keeps_step.
  eapply keeps_bind; [apply Hvalue |]. intros v _. by apply keeps_assign.
Qed.

Lemma keeps_probe σ0 join rightTable rightMap newRows leftRow :
  freshFor σ0 newRows ->
  keeps σ0 (Imp.probe join rightTable rightMap newRows leftRow) (fun _ => True).
Proof.
  intros Hnew. unfold Imp.probe. keeps_step.
  destruct (rightMap !! _) as [rightRow|]; [|destruct (joinType join)].
  - eapply keeps_bind; [apply keeps_copyRow |]. intros mergedRow Hm.
    eapply keeps_bind; [|intros _ _; by apply keeps_push].
    apply keeps_assignColumns; [done |]. intros col. keeps_step. by apply keeps_ret.
  - eapply keeps_bind; [apply keeps_copyRow |]. intros mergedRow Hm.
    eapply keeps_bind; [|intros _ _; by apply keeps_push].
    apply keeps_assignColumns; [done |]. intros col. by apply keeps_ret.
  - by apply keeps_ret.
Qed.

Lemma keeps_joinStep σ0 tables vars join :
  freshVars σ0 vars -> keeps σ0 (Imp.joinStep tables vars join) (freshVars σ0).
Proof.
  intros Hvars. unfold Imp.joinStep.
  destruct vars as [[resultRows resultColumns] currentDimensions].
  destruct (lookupKey tables (rightTableId join)) as [rightRef|]; [|by apply keeps_ret].
  do 2 keeps_step.
  eapply keeps_bind; [apply keeps_buildRightMap |]. intros rightMap _. keeps_step.
  eapply keeps_bind.
  { apply (keeps_mapEach _ _ (freshFor σ0)). intros c. keeps_step. apply keeps_alloc. }
  intros renamed _. keeps_step.
  eapply keeps_bind; [apply keeps_alloc |]. intros newRows Hnew. keeps_step.
  eapply keeps_bind; [apply keeps_forEach; intros l; by apply keeps_probe |]. intros _ _.
  do 2 keeps_step.
  eapply keeps_bind; [apply keeps_alloc |]. intros resultColumns' Hcols.
  do 4 keeps_step.
  eapply keeps_bind; [apply keeps_alloc |]. intros currentDimensions' Hdims.
  apply keeps_ret. by repeat split.
Qed.

(** C9. Whatever the collection, the model and the store, and whether the
    call returns or throws, the store after [executeDataModel] extends the
    store before it: every object that existed before the call (tables,
    arrays of rows, rows, arrays of column profiles, column profiles, arrays
    of dimension names) is at the same reference with the same content. The
    rows, columns and dimensions arrays of the result are objects that did
    not exist before. *)
Theorem executeDataModel_keeps_the_store tables model (σ : Store) :
  σ `prefix_of` snd (Imp.executeDataModel tables model σ)
  /\ (forall l o, σ !! l = Some o ->
                  snd (Imp.executeDataModel tables model σ) !! l = Some o)
  /\ (forall ds, fst (Imp.executeDataModel tables model σ) = Returns ds ->
                 length σ ≤ rowsRef ds /\ length σ ≤ columnsRef ds
                 /\ length σ ≤ dimensionsRef ds).
Proof.
  assert (Hkeeps : keeps σ (Imp.executeDataModel tables model)
                     (fun ds => freshFor σ (rowsRef ds) /\ freshFor σ (columnsRef ds)
                                /\ freshFor σ (dimensionsRef ds))).
  { unfold Imp.executeDataModel.
    destruct (lookupKey tables (baseTableId model)) as [baseRef|]; [|apply keeps_throw].
    do 2 keeps_step.
    eapply keeps_bind; [apply (keeps_mapEach _ _ (freshFor σ)), keeps_copyRow |].
    intros copies _.
    eapply keeps_bind; [apply keeps_alloc |]. intros resultRows Hrows. keeps_step.
    eapply keeps_bind; [apply keeps_alloc |]. intros resultColumns Hcols. keeps_step.
    eapply keeps_bind; [apply keeps_alloc |]. intros currentDimensions Hdims.
    eapply keeps_bind.
    { apply (keeps_foldEach _ _ (freshVars σ)); [by repeat split |].
      intros vars join Hvars. by apply keeps_joinStep. }
    intros [[resultRows' resultColumns'] currentDimensions'] (Hr & Hc & Hd).
    keeps_step. by apply keeps_ret. }
  destruct (Hkeeps σ) as [Hpre Hfresh]; [done |].
  split; [done |]. split; [|done].
  intros l o Hl. by eapply prefix_lookup_Some.
Qed.

End ImpFrame.

(** ** The store model computes what the value model computes *)

Section Runs.
Context {A B : Type}.

Lemma run_bind (c : Heap A) (k : A -> Heap B) (σ σ' : Store) a res :
  c σ = (Returns a, σ') -> k a σ' = res -> (c ≫= k) σ = res.
Proof. intros Hc Hk. unfold mbind, Heap_bind. by rewrite Hc. Qed.

Lemma run_bind_throw (c : Heap A) (k : A -> Heap B) (σ σ' : Store) msg :
  c σ = (Throws msg, σ') -> (c ≫= k) σ = (Throws msg, σ').
Proof. intros Hc. unfold mbind, Heap_bind. by rewrite Hc. Qed.

End Runs.

Lemma run_load (σ : Store) l o : σ !! l = Some o -> load l σ = (Returns o, σ).
Proof. intros Hl. unfold load. by rewrite Hl. Qed.

Lemma run_loadRow (σ : Store) l r :
  σ !! l = Some (ORow r) -> loadRow l σ = (Returns r, σ).
Proof. intros Hl. unfold loadRow. by erewrite run_bind; [| by apply run_load |]. Qed.

Lemma run_loadRowArray (σ : Store) l a :
  σ !! l = Some (ORowArray a) -> loadRowArray l σ = (Returns a, σ).
Proof. intros Hl. unfold loadRowArray. by erewrite run_bind; [| by apply run_load |]. Qed.

Lemma run_loadProfile (σ : Store) l c :
  σ !! l = Some (OProfile c) -> loadProfile l σ = (Returns c, σ).
Proof. intros Hl. unfold loadProfile. by erewrite run_bind; [| by apply run_load |]. Qed.

Lemma run_loadProfileArray (σ : Store) l a :
  σ !! l = Some (OProfileArray a) -> loadProfileArray l σ = (Returns a, σ).
Proof. intros Hl. unfold loadProfileArray. by erewrite run_bind; [| by apply run_load |]. Qed.

Lemma run_loadNameArray (σ : Store) l a :
  σ !! l = Some (ONameArray a) -> loadNameArray l σ = (Returns a, σ).
Proof. intros Hl. unfold loadNameArray. by erewrite run_bind; [| by apply run_load |]. Qed.

Lemma run_loadTable (σ : Store) l t :
  σ !! l = Some (OTable t) -> loadTable l σ = (Returns t, σ).
Proof. intros Hl. unfold loadTable. by erewrite run_bind; [| by apply run_load |]. Qed.

(** *** Reading back, unfolded *)

Lemma readRow_Some (σ : Store) l r : readRow σ l = Some r <-> σ !! l = Some (ORow r).
Proof.
  unfold readRow. destruct (σ !! l) as [[]|]; split; intros Heq; by simplify_eq.
Qed.

Lemma readProfile_Some (σ : Store) l c :
  readProfile σ l = Some c <-> σ !! l = Some (OProfile c).
Proof.
  unfold readProfile. destruct (σ !! l) as [[]|]; split; intros Heq; by simplify_eq.
Qed.

Lemma readRows_Some (σ : Store) l rs :
  readRows σ l = Some rs
  <-> exists a, σ !! l = Some (ORowArray a)
                /\ Forall2 (fun l r => σ !! l = Some (ORow r)) a rs.
Proof.
  unfold readRows. split.
  - destruct (σ !! l) as [[]|]; try done. intros Hm%mapM_Some.
    eexists. split; [done |]. eapply Forall2_impl; [exact Hm |].
    intros ? ?. apply readRow_Some.
  - intros (a & -> & Ha). apply mapM_Some. eapply Forall2_impl; [exact Ha |].
    intros ? ?. apply readRow_Some.
Qed.

Lemma readProfiles_Some (σ : Store) l cs :
  readProfiles σ l = Some cs
  <-> exists a, σ !! l = Some (OProfileArray a)
                /\ Forall2 (fun l c => σ !! l = Some (OProfile c)) a cs.
Proof.
  unfold readProfiles. split.
  - destruct (σ !! l) as [[]|]; try done. intros Hm%mapM_Some.
    eexists. split; [done |]. eapply Forall2_impl; [exact Hm |].
    intros ? ?. apply readProfile_Some.
  - intros (a & -> & Ha). apply mapM_Some. eapply Forall2_impl; [exact Ha |].
    intros ? ?. apply readProfile_Some.
Qed.

Lemma readNames_Some (σ : Store) l ns :
  readNames σ l = Some ns <-> σ !! l = Some (ONameArray ns).
Proof.
  unfold readNames. destruct (σ !! l) as [[]|]; split; intros Heq; by simplify_eq.
Qed.

(** *** What was read stays readable in a larger store *)

Lemma Forall2_lookup_prefix {X : Type} (σ σ' : Store) (mk : X -> Obj) ls xs :
  σ `prefix_of` σ' ->
  Forall2 (fun l x => σ !! l = Some (mk x)) ls xs ->
  Forall2 (fun l x => σ' !! l = Some (mk x)) ls xs.
Proof.
  intros Hpre Hall. eapply Forall2_impl; [exact Hall |].
  intros l x Hl. simpl in Hl. exact (prefix_lookup_Some _ _ _ _ Hl Hpre).
Qed.

Lemma readRows_prefix (σ σ' : Store) l rs :
  σ `prefix_of` σ' -> readRows σ l = Some rs -> readRows σ' l = Some rs.
Proof.
  intros Hpre (a & Ha & Hall)%readRows_Some. apply readRows_Some. exists a.
  split; [by eapply prefix_lookup_Some | by eapply Forall2_lookup_prefix].
Qed.

Lemma readProfiles_prefix (σ σ' : Store) l cs :
  σ `prefix_of` σ' -> readProfiles σ l = Some cs -> readProfiles σ' l = Some cs.
Proof.
  intros Hpre (a & Ha & Hall)%readProfiles_Some. apply readProfiles_Some. exists a.
  split; [by eapply prefix_lookup_Some | by eapply Forall2_lookup_prefix].
Qed.

Lemma readNames_prefix (σ σ' : Store) l ns :
  σ `prefix_of` σ' -> readNames σ l = Some ns -> readNames σ' l = Some ns.
Proof. rewrite !readNames_Some. intros Hpre Hl. by eapply prefix_lookup_Some. Qed.

Lemma readDataSet_Some (σ : Store) d ds :
  readDataSet σ d = Some ds
  <-> readRows σ (rowsRef d) = Some (rows ds)
      /\ readProfiles σ (columnsRef d) = Some (columns ds)
      /\ readNames σ (dimensionsRef d) = Some (dimensions ds)
      /\ fileName ds = fileNameOf d /\ rowCount ds = rowCountOf d
      /\ primaryDateColumn ds = primaryDateColumnOf d
      /\ primaryMeasureColumn ds = primaryMeasureColumnOf d.
Proof.
  unfold readDataSet. split.
  - destruct (readRows σ _) as [rs|]; [|done]. simpl.
    destruct (readProfiles σ _) as [cs|]; [|done]. simpl.
    destruct (readNames σ _) as [ns|]; [|done]. simpl.
    by intros [= <-].
  - destruct ds. simpl. by intros (-> & -> & -> & -> & -> & -> & ->).
Qed.

Lemma readTable_Some (σ : Store) l T :
  readTable σ l = Some T
  <-> exists t, σ !! l = Some (OTable t) /\ readDataSet σ t = Some (tableData T)
                /\ id T = idOf t /\ tableName T = tableNameOf t.
Proof.
  unfold readTable. split.
  - destruct (σ !! l) as [[| | | | |t]|]; try done.
    destruct (readDataSet σ t) as [d|] eqn:Hd; [|done]. simpl. intros [= <-]. by exists t.
  - intros (t & -> & -> & Hid & Hname). destruct T. simpl in *. by subst.
Qed.

Lemma readTable_prefix (σ σ' : Store) l T :
  σ `prefix_of` σ' -> readTable σ l = Some T -> readTable σ' l = Some T.
Proof.
  intros Hpre (t & Ht & Hd & Hid & Hname)%readTable_Some. apply readTable_Some.
  exists t. split; [by eapply prefix_lookup_Some |]. split; [|done].
  apply readDataSet_Some in Hd as (Hr & Hc & Hn & Hrest). apply readDataSet_Some.
  split; [by eapply readRows_prefix |]. split; [by eapply readProfiles_prefix |].
  split; [by eapply readNames_prefix | done].
Qed.

Lemma readTables_prefix (σ σ' : Store) refs Ts :
  σ `prefix_of` σ' -> readTables σ refs = Some Ts -> readTables σ' refs = Some Ts.
Proof.
  intros Hpre Hm%mapM_Some. apply mapM_Some. eapply Forall2_impl; [exact Hm |].
  intros [k l] [k' T]. simpl.
  destruct (readTable σ l) as [T0|] eqn:HT; [|done]. simpl. intros [= <- <-].
  by rewrite (readTable_prefix _ _ _ _ Hpre HT).
Qed.

(** A key is in the collection of references exactly when it is in the
    collection read back, and the reference reads as the table. *)
Lemma readTables_lookup (σ : Store) refs Ts k :
  readTables σ refs = Some Ts ->
  match lookupKey refs k, lookupKey Ts k with
  | Some l, Some T => readTable σ l = Some T
  | None, None => True
  | _, _ => False
  end.
Proof.
  intros Hm%mapM_Some. induction Hm as [|[k1 l] [k2 T] refs Ts Hhd _ IH]; simpl; [done |].
  simpl in Hhd. destruct (readTable σ l) as [T0|] eqn:HT; [|done].
  simpl in Hhd. injection Hhd as <- <-.
  destruct (decide (k1 = k)); [done | apply IH].
Qed.

(** *** Copies, the lookup, and the assignments to a merged row *)

(** Reading each object of a list and allocating a copy made from it: the
    copies are the next objects of the store, in order. *)
Lemma run_mapEach_copy {X : Type} (rd : Ref -> Heap X) (wrap mk : X -> Obj)
    ls xs (σ : Store) :
  (forall (σ' : Store) l x, σ' !! l = Some (wrap x) -> rd l σ' = (Returns x, σ')) ->
  Forall2 (fun l x => σ !! l = Some (wrap x)) ls xs ->
  mapEach (fun l => x ← rd l; alloc (mk x)) ls σ
  = (Returns (seq (length σ) (length xs)), σ ++ (mk <$> xs)).
Proof.
  intros Hrd. revert xs σ. induction ls as [|l ls IH]; intros xs σ Hall.
  - apply Forall2_nil_inv_l in Hall as ->. simpl. by rewrite app_nil_r.
  - apply Forall2_cons_inv_l in Hall as (x & xs' & Hx & Hall & ->). cbn [mapEach].
    eapply run_bind; [eapply run_bind; [by apply Hrd | reflexivity] |].
    eapply run_bind.
    { apply (IH xs'). eapply Forall2_impl; [exact Hall |].
      intros l' x' Hl'. by apply lookup_app_l_Some. }
    rewrite length_app, Nat.add_1_r, <- app_assoc. reflexivity.
Qed.

(** ... and they read back as what they were made from. *)
Lemma lookup_allocated {X : Type} (mk : X -> Obj) xs (σ ext : Store) :
  Forall2 (fun l x => (σ ++ (mk <$> xs) ++ ext) !! l = Some (mk x))
          (seq (length σ) (length xs)) xs.
Proof.
  revert σ. induction xs as [|x xs IH]; intros σ; simpl; constructor.
  - by apply list_lookup_middle.
  - specialize (IH (σ ++ [mk x])).
    rewrite length_app, Nat.add_1_r, <- app_assoc in IH. exact IH.
Qed.

Section Refinement.
Context `{JsRuntime}.

Lemma mapStandsFor_insert (σ : Store) refMap rowMap k l r :
  mapStandsFor σ refMap rowMap -> σ !! l = Some (ORow r) ->
  mapStandsFor σ (<[k := l]> refMap) (<[k := r]> rowMap).
Proof.
  intros Hm Hl k'. destruct (decide (k = k')) as [->|Hne].
  - by rewrite !lookup_insert_eq.
  - rewrite !lookup_insert_ne by done. apply Hm.
Qed.

Lemma run_buildRightMap (σ : Store) rightCol ls rs :
  Forall2 (fun l r => σ !! l = Some (ORow r)) ls rs ->
  exists refMap,
    Imp.buildRightMap rightCol ls σ = (Returns refMap, σ)
    /\ mapStandsFor σ refMap (buildRightMap rightCol rs).
Proof.
  unfold Imp.buildRightMap, buildRightMap.
  assert (Hstart : mapStandsFor σ (∅ : gmap string Ref) (∅ : gmap string DataRow)).
  { intros k. by rewrite !lookup_empty. }
  revert Hstart. generalize (∅ : gmap string Ref) (∅ : gmap string DataRow).
  intros refMap rowMap Hstart Hall. revert refMap rowMap Hstart.
  induction Hall as [|l r ls rs Hl _ IH]; intros refMap rowMap Hstart; simpl.
  - by exists refMap.
  - destruct (IH _ _ (mapStandsFor_insert _ _ _ (toJsString (getField r rightCol)) _ _
                        Hstart Hl)) as (m & Hrun & Hm).
    exists m. split; [|done].
    eapply run_bind; [|exact Hrun].
    eapply run_bind; [by apply run_loadRow | reflexivity].
Qed.

Lemma run_assign (σ : Store) m k v :
  Imp.assign (length σ) k v (σ ++ [ORow m]) = (Returns (), σ ++ [ORow (setField m k v)]).
Proof.
  unfold Imp.assign. eapply run_bind; [by apply run_loadRow, list_lookup_middle |].
  unfold store. by rewrite insert_app_r_alt, Nat.sub_diag.
Qed.

Lemma run_assignColumns (σ : Store) (rightTable : TableObj) value
    (valueOf : ColumnProfile -> CellValue) cs cols m :
  σ !! columnsRef rightTable = Some (OProfileArray cs) ->
  Forall2 (fun c col => σ !! c = Some (OProfile col)) cs cols ->
  (forall col m', value col (σ ++ [ORow m']) = (Returns (valueOf col), σ ++ [ORow m'])) ->
  Imp.assignColumns rightTable (length σ) value (σ ++ [ORow m])
  = (Returns (),
     σ ++ [ORow (foldl (fun mergedRow col =>
                          setField mergedRow (prefixed (tableNameOf rightTable) (name col))
                                   (valueOf col)) m cols)]).
Proof.
  intros Hcs Hall Hvalue. unfold Imp.assignColumns.
  eapply run_bind; [by apply run_loadProfileArray, lookup_app_l_Some |].
  clear Hcs. revert m. induction Hall as [|c col cs' cols' Hc _ IH]; intros m; simpl; [done |].
  eapply run_bind; [|apply IH].
  eapply run_bind; [by apply run_loadProfile, lookup_app_l_Some |].
  eapply run_bind; [apply Hvalue |]. apply run_assign.
Qed.

(** *** The loop over the accumulator rows *)

Lemma probing_length (σ : Store) merged :
  length (probing σ merged) = S (length σ) + length merged.
Proof. unfold probing. rewrite !length_app, length_fmap. simpl. lia. Qed.

Lemma probing_lookup_old (σ : Store) merged l o :
  σ !! l = Some o -> probing σ merged !! l = Some o.
Proof. intros Hl. unfold probing. by apply lookup_app_l_Some. Qed.

Lemma probing_Forall2_old {X : Type} (σ : Store) merged (mk : X -> Obj) ls xs :
  Forall2 (fun l x => σ !! l = Some (mk x)) ls xs ->
  Forall2 (fun l x => probing σ merged !! l = Some (mk x)) ls xs.
Proof.
  intros Hall. eapply Forall2_impl; [exact Hall |].
  intros l x Hl. by apply probing_lookup_old.
Qed.

Lemma mapStandsFor_prefix (σ σ' : Store) refMap rowMap :
  σ `prefix_of` σ' -> mapStandsFor σ refMap rowMap -> mapStandsFor σ' refMap rowMap.
Proof.
  intros Hpre Hm k. specialize (Hm k).
  destruct (refMap !! k), (rowMap !! k); try done. by eapply prefix_lookup_Some.
Qed.

(** The array of new rows reads back as the merged rows, whatever is
    allocated after the loop. *)
Lemma probing_readRows (σ : Store) merged ext :
  readRows (probing σ merged ++ ext) (length σ) = Some merged.
Proof.
  apply readRows_Some. exists (seq (S (length σ)) (length merged)). split.
  - apply lookup_app_l_Some. unfold probing. by apply list_lookup_middle.
  - pose proof (lookup_allocated ORow merged
                  (σ ++ [ORowArray (seq (S (length σ)) (length merged))]) ext) as Hnew.
    rewrite length_app, Nat.add_1_r in Hnew. unfold probing.
    by rewrite <- !app_assoc in *.
Qed.

Lemma run_copyRow (σ : Store) l r :
  σ !! l = Some (ORow r) -> Imp.copyRow l σ = (Returns (length σ), σ ++ [ORow r]).
Proof. intros Hl. unfold Imp.copyRow. by eapply run_bind; [apply run_loadRow |]. Qed.

Lemma run_push_probing (σ : Store) merged m :
  Imp.push (length σ) (length (probing σ merged)) (probing σ merged ++ [ORow m])
  = (Returns (), probing σ (merged ++ [m])).
Proof.
  unfold Imp.push. eapply run_bind.
  { apply run_loadRowArray. unfold probing. rewrite <- app_assoc.
    by apply list_lookup_middle. }
  unfold store. f_equal. rewrite probing_length. unfold probing.
  rewrite <- !app_assoc, insert_app_r_alt, Nat.sub_diag by done. simpl.
  by rewrite length_app, fmap_app, seq_app.
Qed.

Lemma run_probe (σ : Store) join (rightTable : TableObj) (T : Table)
    refMap rowMap cs leftRef leftRow merged :
  tableName T = tableNameOf rightTable ->
  σ !! columnsRef rightTable = Some (OProfileArray cs) ->
  Forall2 (fun c col => σ !! c = Some (OProfile col)) cs (columns T) ->
  mapStandsFor σ refMap rowMap ->
  σ !! leftRef = Some (ORow leftRow) ->
  Imp.probe join rightTable refMap (length σ) leftRef (probing σ merged)
  = (Returns (), probing σ (merged ++ option_list (joinedRow join T rowMap leftRow))).
Proof.
  intros Hname Hcs Hcols Hmap Hleft. unfold Imp.probe, joinedRow.
  eapply run_bind; [by apply run_loadRow, probing_lookup_old |].
  specialize (Hmap (toJsString (getField leftRow (leftColumn join)))).
  destruct (refMap !! _) as [rightRef|], (rowMap !! _) as [rightRow|]; try done.
  - eapply run_bind; [by apply run_copyRow, probing_lookup_old |].
    eapply run_bind.
    { apply (run_assignColumns _ _ _ (fun col => getField rightRow (name col)) cs (columns T)).
      - by apply probing_lookup_old.
      - by apply probing_Forall2_old.
      - intros col m'. eapply run_bind; [|reflexivity].
        by apply run_loadRow, lookup_app_l_Some, probing_lookup_old. }
    rewrite <- Hname. apply run_push_probing.
  - destruct (joinType join).
    + eapply run_bind; [by apply run_copyRow, probing_lookup_old |].
      eapply run_bind.
      { apply (run_assignColumns _ _ _ (fun _ => VNull) cs (columns T)).
        - by apply probing_lookup_old.
        - by apply probing_Forall2_old.
        - done. }
      rewrite <- Hname. apply run_push_probing.
    + simpl. by rewrite app_nil_r.
Qed.

Lemma run_probe_loop (σ : Store) join (rightTable : TableObj) (T : Table)
    refMap rowMap cs accRefs accRows merged :
  tableName T = tableNameOf rightTable ->
  σ !! columnsRef rightTable = Some (OProfileArray cs) ->
  Forall2 (fun c col => σ !! c = Some (OProfile col)) cs (columns T) ->
  mapStandsFor σ refMap rowMap ->
  Forall2 (fun l r => σ !! l = Some (ORow r)) accRefs accRows ->
  forEach (Imp.probe join rightTable refMap (length σ)) accRefs (probing σ merged)
  = (Returns (), probing σ (merged ++ omap (joinedRow join T rowMap) accRows)).
Proof.
  intros Hname Hcs Hcols Hmap Hacc. revert merged.
  induction Hacc as [|l r accRefs accRows Hl _ IH]; intros merged; csimpl.
  - by rewrite app_nil_r.
  - eapply run_bind; [by eapply run_probe |].
    rewrite IH. do 2 f_equal. rewrite <- app_assoc. f_equal.
    by destruct (joinedRow join T rowMap r).
Qed.

(** *** One join, and the whole call *)

Lemma readVars_Some (σ : Store) vars st :
  readVars σ vars = Some st
  <-> readRows σ vars.1.1 = Some (resultRows st)
      /\ readProfiles σ vars.1.2 = Some (resultColumns st)
      /\ readNames σ vars.2 = Some (currentDimensions st).
Proof.
  unfold readVars. split.
  - destruct (readRows σ _) as [rs|]; [|done]. simpl.
    destruct (readProfiles σ _) as [cs|]; [|done]. simpl.
    destruct (readNames σ _) as [ns|]; [|done]. simpl.
    by intros [= <-].
  - destruct st. simpl. by intros (-> & -> & ->).
Qed.

Lemma run_alloc (σ : Store) o : alloc o σ = (Returns (length σ), σ ++ [o]).
Proof. done. Qed.

Lemma run_joinStep (σ : Store) refs Ts vars st join :
  readTables σ refs = Some Ts ->
  readVars σ vars = Some st ->
  exists vars' σ',
    Imp.joinStep refs vars join σ = (Returns vars', σ')
    /\ σ `prefix_of` σ'
    /\ readVars σ' vars' = Some (joinStep Ts st join)
    /\ (forall (σ0 : Store) baseCols,
          σ0 `prefix_of` σ -> resultShares σ0 baseCols σ vars ->
          resultShares σ0 baseCols σ' vars').
Proof.
  intros Hts (Hrows & Hcols & Hdims)%readVars_Some.
  destruct vars as [[rowsVar colsVar] dimsVar]. simpl in *.
  unfold Imp.joinStep, joinStep.
  pose proof (readTables_lookup σ refs Ts (rightTableId join) Hts) as Hlook.
  destruct (lookupKey refs _) as [rightRef|], (lookupKey Ts _) as [T|]; try done.
  2:{ exists (rowsVar, colsVar, dimsVar), σ.
      split; [done |]. split; [done |]. split; [|done]. apply readVars_Some. done. }
  apply readTable_Some in Hlook as (t & Ht & Hd & _ & Hname).
  apply readDataSet_Some in Hd as (HTrows & HTcols & HTdims & _).
  apply readRows_Some in HTrows as (rightRows & HrightRows & HrightAll).
  apply readProfiles_Some in HTcols as (rightCols & HrightCols & HrightColsAll).
  apply readNames_Some in HTdims.
  apply readRows_Some in Hrows as (accRefs & HaccRefs & HaccAll).
  apply readProfiles_Some in Hcols as (oldCols & HoldCols & HoldAll).
  apply readNames_Some in Hdims.
  destruct (run_buildRightMap σ (rightColumn join) rightRows (rows T) HrightAll)
    as (refMap & HrunMap & HstandsFor).
  set (renamed := (fun col => OProfile (renameColumn (tableNameOf t) col)) <$> columns T).
  set (σ2 := (σ ++ renamed) ++ [OProfileArray (seq (length σ) (length (columns T)))]).
  assert (Hσ2 : σ `prefix_of` σ2) by (unfold σ2; by do 2 apply prefix_app_r).
  set (out := omap (joinedRow join T (buildRightMap (rightColumn join) (rows T)))
                   (resultRows st)).
  eexists _, _. split; [|split; [|split]].
  - eapply run_bind; [by apply run_loadTable |].
    eapply run_bind; [by apply run_loadRowArray |].
    eapply run_bind; [exact HrunMap |].
    eapply run_bind; [by apply run_loadProfileArray |].
    eapply run_bind.
    { apply (run_mapEach_copy loadProfile OProfile
               (fun col => OProfile (renameColumn (tableNameOf t) col))
               rightCols (columns T)); [apply run_loadProfile | done]. }
    eapply run_bind; [apply run_alloc |].
    eapply run_bind; [apply run_alloc |].
    fold renamed. fold σ2. change (σ2 ++ [ORowArray []]) with (probing σ2 []).
    eapply run_bind.
    { apply run_loadRowArray, probing_lookup_old. by eapply prefix_lookup_Some. }
    eapply run_bind.
    { apply (run_probe_loop σ2 join t T refMap
               (buildRightMap (rightColumn join) (rows T)) rightCols accRefs
               (resultRows st) []); [done | by eapply prefix_lookup_Some | | |].
      - by eapply Forall2_lookup_prefix.
      - by eapply mapStandsFor_prefix.
      - by eapply Forall2_lookup_prefix. }
    rewrite app_nil_l. fold out.
    eapply run_bind.
    { apply run_loadProfileArray, probing_lookup_old. by eapply prefix_lookup_Some. }
    eapply run_bind.
    { apply run_loadProfileArray, probing_lookup_old. by apply list_lookup_middle. }
    eapply run_bind; [apply run_alloc |].
    eapply run_bind.
    { apply run_loadNameArray, lookup_app_l_Some, probing_lookup_old.
      by eapply prefix_lookup_Some. }
    eapply run_bind; [apply run_alloc |].
    eapply run_bind.
    { apply run_loadNameArray. do 2 apply lookup_app_l_Some. apply probing_lookup_old.
      by eapply prefix_lookup_Some. }
    eapply run_bind; [by apply run_loadNameArray, list_lookup_middle |].
    eapply run_bind; [apply run_alloc |].
    reflexivity.
  - do 3 apply prefix_app_r. unfold probing. by apply prefix_app_r.
  - apply readVars_Some. cbn [fst snd resultRows resultColumns currentDimensions].
    split; [|split].
    + rewrite foldl_probe, app_nil_l. fold out.
      rewrite <- !app_assoc. apply probing_readRows.
    + apply readProfiles_Some. eexists. split.
      { do 2 apply lookup_app_l_Some. by apply list_lookup_middle. }
      apply Forall2_app.
      * eapply Forall2_lookup_prefix; [|exact HoldAll].
        do 3 apply prefix_app_r. unfold probing. by apply prefix_app_r.
      * rewrite Hname. apply Forall2_fmap_r.
        eapply (Forall2_lookup_prefix (σ ++ renamed) _
                  (fun col => OProfile (renameColumn (tableNameOf t) col))).
        { do 3 apply prefix_app_r. unfold probing, σ2. by do 2 apply prefix_app_r. }
        pose proof (lookup_allocated
                      (fun col => OProfile (renameColumn (tableNameOf t) col))
                      (columns T) σ []) as Hnew.
        rewrite app_nil_r in Hnew. exact Hnew.
    + apply readNames_Some. rewrite Hname. by apply list_lookup_middle.
  - intros σ0 baseCols Hσ0 (newCols & rowRefs & Hshared & Hfresh & _ & _).
    cbn [fst snd] in *. rewrite HoldCols in Hshared. injection Hshared as ->.
    apply prefix_length in Hσ0.
    exists (newCols ++ seq (length σ) (length (columns T))),
           (seq (S (length σ2)) (length out)).
    split; [|split; [|split]].
    + rewrite app_assoc. do 2 apply lookup_app_l_Some. by apply list_lookup_middle.
    + apply Forall_app. split; [done |]. apply Forall_forall.
      intros l Hl%elem_of_seq. unfold freshFor. lia.
    + cbn [fst snd]. do 3 apply lookup_app_l_Some.
      unfold probing. by apply list_lookup_middle.
    + apply Forall_forall. intros l Hl%elem_of_seq.
      pose proof (prefix_length _ _ Hσ2). unfold freshFor. lia.
Qed.

Lemma run_joinSteps (σ : Store) refs Ts vars st js :
  readTables σ refs = Some Ts ->
  readVars σ vars = Some st ->
  exists vars' σ',
    foldEach (Imp.joinStep refs) vars js σ = (Returns vars', σ')
    /\ σ `prefix_of` σ'
    /\ readVars σ' vars' = Some (foldl (joinStep Ts) st js)
    /\ (forall (σ0 : Store) baseCols,
          σ0 `prefix_of` σ -> resultShares σ0 baseCols σ vars ->
          resultShares σ0 baseCols σ' vars').
Proof.
  revert σ vars st. induction js as [|j js IH]; intros σ vars st Hts Hvars; simpl.
  - by exists vars, σ.
  - destruct (run_joinStep σ refs Ts vars st j Hts Hvars)
      as (vars1 & σ1 & Hrun & Hpre & Hvars1 & Hshare1).
    destruct (IH σ1 vars1 _ (readTables_prefix _ _ _ _ Hpre Hts) Hvars1)
      as (vars' & σ' & Hrun' & Hpre' & Hvars' & Hshare').
    exists vars', σ'. split; [by eapply run_bind |]. split; [by etrans |].
    split; [done |]. intros σ0 baseCols Hσ0 Hshares.
    apply Hshare'; [by etrans | by apply Hshare1].
Qed.

(** The store model refines the value model: on a store in which the
    references of the collection read as the tables [Ts], the call over the
    store throws when the call on [Ts] throws, with the same message and
    without touching the store, and else returns a data set that reads back,
    in the final store, as the data set returned on [Ts]. *)
Theorem executeDataModel_on_store_refines (σ : Store) refs Ts model :
  readTables σ refs = Some Ts ->
  match executeDataModel Ts model with
  | Throws msg => Imp.executeDataModel refs model σ = (Throws msg, σ)
  | Returns ds =>
      exists d σ',
        Imp.executeDataModel refs model σ = (Returns d, σ')
        /\ σ `prefix_of` σ'
        /\ readDataSet σ' d = Some ds
  end.
Proof.
  intros Hts. unfold executeDataModel, Imp.executeDataModel.
  pose proof (readTables_lookup σ refs Ts (baseTableId model) Hts) as Hlook.
  destruct (lookupKey refs _) as [baseRef|], (lookupKey Ts _) as [T|]; try done.
  apply readTable_Some in Hlook as (t & Ht & Hd & _ & Hname).
  apply readDataSet_Some in Hd as (HTrows & HTcols & HTdims & _ & _ & Hdate & Hmeasure).
  apply readRows_Some in HTrows as (baseRows & HbaseRows & HbaseAll).
  pose proof HTcols as (baseCols & HbaseCols & HbaseColsAll)%readProfiles_Some.
  apply readNames_Some in HTdims.
  set (copies := (fun r => ORow (spread r)) <$> rows T).
  set (σ1 := (σ ++ copies) ++ [ORowArray (seq (length σ) (length (rows T)))]).
  set (σ3 := (σ1 ++ [OProfileArray baseCols]) ++ [ONameArray (dimensions T)]).
  assert (Hσ1 : σ `prefix_of` σ1) by (unfold σ1; by do 2 apply prefix_app_r).
  assert (Hσ3 : σ `prefix_of` σ3) by (unfold σ3; by do 2 apply prefix_app_r).
  assert (Hvars : readVars σ3 (length (σ ++ copies), length σ1, length (σ1 ++ [OProfileArray baseCols]))
                  = Some (initialState T)).
  { apply readVars_Some. cbn [fst snd initialState resultRows resultColumns currentDimensions].
    split; [|split].
    - apply readRows_Some. eexists. split.
      { do 2 apply lookup_app_l_Some. by apply list_lookup_middle. }
      apply Forall2_fmap_r.
      eapply (Forall2_lookup_prefix (σ ++ copies) _ (fun r => ORow (spread r))).
      { unfold σ3, σ1. by do 3 apply prefix_app_r. }
      pose proof (lookup_allocated (fun r => ORow (spread r)) (rows T) σ []) as Hnew.
      rewrite app_nil_r in Hnew. exact Hnew.
    - apply readProfiles_Some. exists baseCols. split.
      { apply lookup_app_l_Some. by apply list_lookup_middle. }
      by eapply Forall2_lookup_prefix.
    - apply readNames_Some. by apply list_lookup_middle. }
  destruct (run_joinSteps σ3 refs Ts _ _ (joins model)
              (readTables_prefix _ _ _ _ Hσ3 Hts) Hvars)
    as ([[rowsVar colsVar] dimsVar] & σ' & Hrun & Hpre & Hfinal & _).
  apply readVars_Some in Hfinal as (Hr & Hc & Hn). cbn [fst snd] in Hr, Hc, Hn.
  pose proof Hr as (finalRows & HfinalRows & HfinalAll)%readRows_Some.
  eexists _, σ'. split; [|split].
  - eapply run_bind; [by apply run_loadTable |].
    eapply run_bind; [by apply run_loadRowArray |].
    eapply run_bind.
    { apply (run_mapEach_copy loadRow ORow (fun r => ORow (spread r)) baseRows (rows T));
        [apply run_loadRow | done]. }
    eapply run_bind; [apply run_alloc |].
    eapply run_bind.
    { apply run_loadProfileArray. by eapply prefix_lookup_Some. }
    eapply run_bind; [apply run_alloc |].
    eapply run_bind.
    { apply run_loadNameArray, lookup_app_l_Some. by eapply prefix_lookup_Some. }
    eapply run_bind; [apply run_alloc |].
    eapply run_bind; [exact Hrun |].
    eapply run_bind; [by apply run_loadRowArray |].
    reflexivity.
  - by etrans.
  - apply readDataSet_Some. simpl.
    rewrite Hname, (Forall2_length _ _ _ HfinalAll), Hdate, Hmeasure. done.
Qed.

End Refinement.

Lemma executeDataModel_on_store_refines_witness :
  readTables exStore exRefs = Some exTables
  /\ exists d σ',
       @Imp.executeDataModel exampleRuntime exRefs (mkDataModel "Orders" [exJoin LEFT]) exStore
       = (Returns d, σ')
       /\ exStore `prefix_of` σ'
       /\ (readRows σ' (rowsRef d)
           = Some [ [("id", VNumber (ofInt 1)); ("cust", VString "A");
                     ("amt", VNumber (ofInt 100));
                     ("Customers.cust", VString "A"); ("Customers.tier", VString "gold")];
                    [("id", VNumber (ofInt 2)); ("cust", VString "B");
                     ("amt", VNumber (ofInt 50));
                     ("Customers.cust", VNull); ("Customers.tier", VNull)] ]).
Proof.
  split; [reflexivity |].
  pose proof (@executeDataModel_on_store_refines exampleRuntime exStore exRefs exTables
                (mkDataModel "Orders" [exJoin LEFT]) eq_refl) as Href.
  destruct (@executeDataModel exampleRuntime exTables (mkDataModel "Orders" [exJoin LEFT]))
    as [ds|msg] eqn:Hex; [|vm_compute in Hex; discriminate Hex].
  destruct Href as (d & σ' & Hrun & Hpre & Hread).
  exists d, σ'. split; [exact Hrun |]. split; [exact Hpre |].
  apply readDataSet_Some in Hread as (Hrows & _). rewrite Hrows.
  vm_compute in Hex. injection Hex as <-. reflexivity.
Defined.

(** ** When the prefix does keep the column names apart *)

Lemma hasDot_prefixed p c : hasDot (prefixed p c) = true.
Proof.
  unfold prefixed. induction p as [|a p IH]; simpl; [done |].
  rewrite IH. apply orb_true_r.
Qed.

Lemma prefixed_inj_both p q a b :
  hasDot p = false -> hasDot q = false -> prefixed p a = prefixed q b -> p = q /\ a = b.
Proof.
  unfold prefixed. revert q. induction p as [|c p IH]; intros [|d q]; simpl.
  - intros _ _ Heq. injection Heq as Heq. by subst.
  - intros _ Hq Heq. injection Heq as Hd _. subst d.
    by rewrite bool_decide_eq_true_2 in Hq.
  - intros Hp _ Heq. injection Heq as Hc _. subst c.
    by rewrite bool_decide_eq_true_2 in Hp.
  - intros [_ Hp]%orb_false_elim [_ Hq]%orb_false_elim Heq.
    injection Heq as Hcd Heq. subst d.
    destruct (IH q Hp Hq Heq) as [-> ->]. done.
Qed.

Section ColumnNames.
Context `{JsRuntime}.

Lemma joinSteps_columns tables st js :
  map name (resultColumns (foldl (joinStep tables) st js))
  = map name (resultColumns st)
    ++ (joinedTables tables js
          ≫= fun T => map (fun c => prefixed (tableName T) (name c)) (columns T)).
Proof.
  revert st. induction js as [|j js IH]; intros st; csimpl.
  - by rewrite app_nil_r.
  - rewrite IH. unfold joinStep.
    destruct (lookupKey tables (rightTableId j)) as [T|]; csimpl; [|done].
    rewrite map_app, map_map, <- app_assoc. done.
Qed.

Lemma prefixed_columns_NoDup (Ts : list Table) :
  NoDup (map tableName Ts) ->
  Forall (fun T : Table => NoDup (map name (columns T)) /\ hasDot (tableName T) = false) Ts ->
  NoDup (Ts ≫= fun T => map (fun c => prefixed (tableName T) (name c)) (columns T))
  /\ forall x, x ∈ (Ts ≫= fun T => map (fun c => prefixed (tableName T) (name c)) (columns T)) ->
               exists T c, T ∈ Ts /\ x = prefixed (tableName T) c.
Proof.
  intros Hnames Hall. split.
  - induction Hall as [|T Ts [Hcols Hdot] Hall IH]; csimpl; [constructor |].
    apply NoDup_cons in Hnames as [Hnotin Hnames].
    apply NoDup_app. split; [|split; [|by apply IH]].
    + rewrite <- (map_map name (prefixed (tableName T))).
      apply NoDup_fmap_2_strong; [|done].
      intros a b _ _. apply prefixed_inj.
    + intros x (c & -> & _)%list_elem_of_fmap (T' & (c' & Heq & _)%list_elem_of_fmap & HT')%list_elem_of_bind.
      rewrite Forall_forall in Hall. destruct (Hall T' HT') as [_ Hdot'].
      destruct (prefixed_inj_both _ _ _ _ Hdot Hdot' Heq) as [Hpq _].
      apply Hnotin. rewrite Hpq. by apply list_elem_of_fmap_2.
  - intros x (T & (c & -> & _)%list_elem_of_fmap & HT)%list_elem_of_bind. by exists T, (name c).
Qed.

(** When the column names of the base table are distinct and free of dots,
    and the right tables that are joined have distinct, dot-free names and
    distinct column names each, the column names of the result are distinct. *)
Theorem column_names_unique_for_distinct_tables
    (tables : TableCollection) model ds (baseTable : Table) :
  executeDataModel tables model = Returns ds ->
  lookupKey tables (baseTableId model) = Some baseTable ->
  NoDup (map name (columns baseTable)) ->
  Forall (fun c => hasDot (name c) = false) (columns baseTable) ->
  NoDup (map tableName (joinedTables tables (joins model))) ->
  Forall (fun T : Table => NoDup (map name (columns T)) /\ hasDot (tableName T) = false)
         (joinedTables tables (joins model)) ->
  NoDup (map name (columns ds)).
Proof.
  intros Hex Hbase Hnd Hdots Htabs Hall.
  destruct (executeDataModel_Returns _ _ _ Hex) as (b & Hb & _ & -> & _).
  rewrite Hbase in Hb. injection Hb as <-.
  rewrite joinSteps_columns. cbn [initialState resultColumns].
  destruct (prefixed_columns_NoDup _ Htabs Hall) as [Hnew Hshape].
  apply NoDup_app. split; [done |]. split; [|done].
  intros x (c & -> & Hc)%list_elem_of_fmap (T & c' & _ & Heq)%Hshape.
  rewrite Forall_forall in Hdots. specialize (Hdots c Hc).
  by rewrite Heq, hasDot_prefixed in Hdots.
Qed.

End ColumnNames.

Lemma column_names_unique_for_distinct_tables_witness :
  exists ds,
    @executeDataModel exampleRuntime exTables (mkDataModel "Orders" [exJoin LEFT]) = Returns ds
    /\ NoDup (map name (columns ds)).
Proof.
  eexists. split; [reflexivity |].
  apply (@column_names_unique_for_distinct_tables exampleRuntime exTables
           (mkDataModel "Orders" [exJoin LEFT]) _ exOrders eq_refl eq_refl).
  - simpl. apply (bool_decide_unpack _). vm_compute. exact I.
  - simpl. by repeat constructor.
  - simpl. apply NoDup_singleton.
  - simpl. constructor; [|constructor]. split; [|done].
    simpl. apply (bool_decide_unpack _). vm_compute. exact I.
Defined.

(** ** The scenarios of the specification *)

(** Scenarios A and B: a LEFT join of [Orders] with [Customers] on [cust]
    keeps both orders, the one without a customer with [null] in
    [Customers.tier]; an INNER join keeps the order of customer ["A"] only. *)
Theorem scenario_left_and_inner_join :
  (exists ds,
     @executeDataModel exampleRuntime exTables (mkDataModel "Orders" [exJoin LEFT])
     = Returns ds
     /\ rowCount ds = 2
     /\ map (fun row => (getField row "cust", getField row "Customers.tier")) (rows ds)
        = [(VString "A", VString "gold"); (VString "B", VNull)])
  /\ (exists ds,
        @executeDataModel exampleRuntime exTables (mkDataModel "Orders" [exJoin INNER])
        = Returns ds
        /\ rowCount ds = 1
        /\ map (fun row => (getField row "cust", getField row "Customers.tier")) (rows ds)
           = [(VString "A", VString "gold")]).
Proof. split; eexists; repeat split. Qed.

(** Scenario C: with nine numeric strings out of ten, the column is NUMBER. *)
Theorem scenario_ninety_percent_numeric :
  type (@analyzeColumn exampleRuntime "v" exNineInTen) = NUMBER
  /\ @parsedAs exampleRuntime NUMBER (presentValues "v" exNineInTen) = 9
  /\ length (presentValues "v" exNineInTen) = 10.
Proof. repeat split. Qed.

Section AbsentColumn.
Context `{JsRuntime}.

Lemma scan_all_absent key rows st :
  Forall (fun row => isAbsent (getField row key) = true) rows ->
  foldl (scanRow key) st rows
  = mkScan (nulls st + length rows) (values st) (distinct st) (typeCounts st).
Proof.
  intros Hall. revert st. induction Hall as [|row rows Hrow _ IH]; intros st; simpl.
  - rewrite Nat.add_0_r. by destruct st.
  - rewrite IH. unfold scanRow. rewrite Hrow. simpl. f_equal. lia.
Qed.

(** Scenario D: a column without a present value is a STRING column whose
    [nullCount] is the number of rows, with no distinct value, no example
    and no statistics. *)
Theorem analyzeColumn_all_absent key rows :
  Forall (fun row => isAbsent (getField row key) = true) rows ->
  analyzeColumn key rows
  = {| name := key; type := STRING; nullCount := length rows; uniqueCount := 0;
       min := None; max := None; mean := None; sum := None; exampleValues := [] |}.
Proof.
  intros Hall. unfold analyzeColumn. by rewrite scan_all_absent.
Qed.

End AbsentColumn.

Lemma analyzeColumn_all_absent_witness :
  nullCount (@analyzeColumn exampleRuntime "tier"
               [ [("cust", VString "A"); ("tier", VNull)]; [("cust", VString "B")];
                 [("cust", VString "C"); ("tier", VString "")] ]) = 3.
Proof.
  rewrite (@analyzeColumn_all_absent exampleRuntime "tier"); [reflexivity |].
  repeat constructor.
Defined.

(** ** Loading a workbook *)

Section SetKey.
Context {A : Type}.
Implicit Types (obj : list (string * A)).

Lemma lookupKey_setKey_eq obj k (a : A) : lookupKey (setKey obj k a) k = Some a.
Proof.
  induction obj as [|[k' a'] obj IH]; simpl.
  - by rewrite decide_True.
  - destruct (decide (k' = k)) as [->|Hne]; simpl.
    + by rewrite decide_True.
    + by rewrite decide_False.
Qed.

Lemma lookupKey_setKey_ne obj k k' (a : A) :
  k ≠ k' -> lookupKey (setKey obj k a) k' = lookupKey obj k'.
Proof.
  intros Hne. induction obj as [|[k0 a0] obj IH]; simpl.
  - by rewrite decide_False.
  - destruct (decide (k0 = k)) as [->|Hne0]; simpl.
    + by rewrite !decide_False.
    + destruct (decide (k0 = k')); [done | apply IH].
Qed.

Lemma objectKeys_setKey obj k (a : A) :
  objectKeys (setKey obj k a)
  = if decide (k ∈ objectKeys obj) then objectKeys obj else objectKeys obj ++ [k].
Proof.
  unfold objectKeys. induction obj as [|[k' a'] obj IH].
  - cbn [setKey map fst]. case_decide as Hin; [by apply elem_of_nil in Hin | done].
  - cbn [setKey map fst]. destruct (decide (k' = k)) as [->|Hne].
    + clear IH. cbn [map fst]. case_decide as Hin; [done |]. destruct Hin. left.
    + cbn [map fst]. rewrite IH. destruct (decide (k ∈ map fst obj)) as [Hin|Hnin].
      * clear IH. case_decide as Hin'; [done |]. destruct Hin'. by right.
      * clear IH. case_decide as Hin'; [|done]. by apply elem_of_cons in Hin' as [?|?].
Qed.

Lemma setKey_Forall (P : string * A -> Prop) obj k (a : A) :
  Forall P obj -> P (k, a) -> Forall P (setKey obj k a).
Proof.
  intros Hobj Hka. induction Hobj as [|[k' a'] obj Hhd Htl IH]; simpl.
  - by constructor.
  - destruct (decide (k' = k)); by constructor.
Qed.

Lemma lookupKey_Some_elem obj k (a : A) : lookupKey obj k = Some a -> (k, a) ∈ obj.
Proof.
  induction obj as [|[k' a'] obj IH]; simpl; [done |].
  destruct (decide (k' = k)) as [->|Hne].
  - intros [= ->]. left.
  - intros Hl. right. by apply IH.
Qed.

Lemma lookupKey_is_Some obj k : is_Some (lookupKey obj k) <-> k ∈ objectKeys obj.
Proof.
  unfold objectKeys. induction obj as [|[k' a'] obj IH]; simpl.
  - split; [by intros [? ?] | by intros ?%elem_of_nil].
  - destruct (decide (k' = k)) as [->|Hne].
    + split; [left | eauto].
    + rewrite IH. split; [by right | by intros [?|?]%elem_of_cons].
Qed.

Lemma lookupKey_elem_Some obj k (a : A) :
  NoDup (objectKeys obj) -> (k, a) ∈ obj -> lookupKey obj k = Some a.
Proof.
  unfold objectKeys. induction obj as [|[k' a'] obj IH]; simpl.
  - by intros _ ?%elem_of_nil.
  - intros [Hnin Hnd]%NoDup_cons [[= -> ->]|Hin]%elem_of_cons.
    + by rewrite decide_True.
    + rewrite decide_False; [by apply IH |].
      intros ->. apply Hnin. by apply (list_elem_of_fmap_2 fst) in Hin.
Qed.

End SetKey.

Section ProcessFileFacts.
Context `{JsRuntime}.

Lemma analyzeSheetData_nonempty rawRows fileName :
  rawRows ≠ [] -> exists ds, analyzeSheetData rawRows fileName = Returns ds.
Proof. intros Hne. destruct rawRows; [done |]. simpl. eauto. Qed.

(** The loop over the sheets never throws, and keeps the keys distinct. *)
Lemma addSheet_invariant sheetToJson sheetNames :
  exists tables,
    foldl (addSheet sheetToJson) (Returns []) sheetNames = Returns tables
    /\ NoDup (objectKeys tables)
    /\ Forall (fun e => loadedTable sheetToJson (fst e) (snd e)) tables
    /\ (forall k, k ∈ objectKeys tables
                  <-> k ∈ sheetNames /\ sheetToJson k ≠ [] /\ k ≠ "__proto__").
Proof.
  induction sheetNames as [|name sheetNames IH] using rev_ind.
  - exists []. simpl. split; [done |]. split; [constructor |]. split; [constructor |].
    intros k. split; [by intros ?%elem_of_nil | by intros [?%elem_of_nil _]].
  - destruct IH as (tables & Hrun & Hnd & Hall & Hkeys).
    rewrite foldl_app, Hrun. simpl.
    destruct (Nat.ltb_spec 0 (length (sheetToJson name))) as [Hlen|Hlen].
    + assert (Hne : sheetToJson name ≠ []) by (intros Heq; rewrite Heq in Hlen; simpl in Hlen; lia).
      destruct (analyzeSheetData_nonempty _ name Hne) as [ds Hds]. rewrite Hds.
      unfold assignTable. destruct (decide (name = "__proto__")) as [Hproto|Hproto].
      { exists tables. split; [done |]. split; [done |]. split; [done |].
        intros k. rewrite Hkeys, elem_of_app, list_elem_of_singleton.
        split; [intros (? & ? & ?); auto | intros [[?| ->] [? ?]]; done]. }
      eexists. split; [done |]. rewrite objectKeys_setKey. split; [|split].
      * case_decide; [done |]. apply NoDup_app. split; [done |].
        split; [|apply NoDup_singleton]. by intros k Hk ->%list_elem_of_singleton.
      * apply setKey_Forall; [done |]. by repeat split.
      * intros k. rewrite elem_of_app, list_elem_of_singleton.
        case_decide as Hin.
        -- rewrite Hkeys. split; [intros (? & ? & ?); auto |].
           intros [[?| ->] [? ?]]; [done |]. by apply Hkeys.
        -- rewrite elem_of_app, list_elem_of_singleton, Hkeys.
           split; [intros [(? & ? & ?)| ->]; auto | intros [[?| ->] [? ?]]; auto].
    + assert (Hnil : sheetToJson name = []) by (apply nil_length_inv; lia).
      exists tables. split; [done |]. split; [done |]. split; [done |].
      intros k. rewrite Hkeys, elem_of_app, list_elem_of_singleton.
      split; [intros (? & ? & ?); auto | intros [[?| ->] [? ?]]; done].
Qed.

(** When no sheet has a row, [processFile] rejects with its own message.
    It rejects with that message only when no sheet has a row that gives
    the collection a key (a sheet named [__proto__] gives none), and it
    resolves only when some sheet does. The guard on [rawRows.length] keeps
    [analyzeSheetData] from an empty sheet: the [TypeError] of its read of
    [rawRows[0]] is never the rejection. *)
Theorem processFile_rejects_an_empty_workbook sheetNames sheetToJson :
  (Forall (fun name => sheetToJson name = []) sheetNames ->
   processFile sheetNames sheetToJson = Throws "No valid data found in any sheet.")
  /\ (processFile sheetNames sheetToJson = Throws "No valid data found in any sheet." ->
      Forall (fun name => sheetToJson name = [] \/ name = "__proto__") sheetNames)
  /\ (forall tables,
        processFile sheetNames sheetToJson = Returns tables ->
        Exists (fun name => sheetToJson name ≠ [] /\ name ≠ "__proto__") sheetNames)
  /\ (forall msg,
        processFile sheetNames sheetToJson = Throws msg ->
        msg ≠ "TypeError: Cannot convert undefined or null to object").
Proof.
  unfold processFile.
  destruct (addSheet_invariant sheetToJson sheetNames) as (tables & -> & _ & _ & Hkeys).
  destruct (Nat.eqb_spec (length (objectKeys tables)) 0) as [Hlen|Hlen].
  - apply nil_length_inv in Hlen. split; [done |]. split; [|split; [done |]].
    + intros _. apply Forall_forall. intros name Hname.
      destruct (decide (sheetToJson name = [])) as [|Hne]; [by left |].
      destruct (decide (name = "__proto__")) as [|Hproto]; [by right |].
      assert (Hin : name ∈ objectKeys tables) by by apply Hkeys.
      rewrite Hlen in Hin. by apply elem_of_nil in Hin.
    + by intros msg [= <-].
  - destruct (objectKeys tables) as [|k ks] eqn:Hks; [done |].
    destruct (proj1 (Hkeys k)) as (Hk & Hne & Hproto); [left |].
    split; [|split; [done |]; split; [|done]].
    + intros Hall. rewrite Forall_forall in Hall. by apply Hall in Hk.
    + intros ? _. apply Exists_exists. by exists k.
Qed.

Lemma processFile_loaded sheetNames sheetToJson tables :
  processFile sheetNames sheetToJson = Returns tables ->
  NoDup (objectKeys tables)
  /\ NoDup (map id (objectValues tables))
  /\ (forall k, is_Some (lookupKey tables k)
                <-> k ∈ sheetNames /\ sheetToJson k ≠ [] /\ k ≠ "__proto__")
  /\ (forall k (t : Table), lookupKey tables k = Some t ->
        id t = k /\ tableName t = k
        /\ analyzeSheetData (sheetToJson k) k = Returns (tableData t)
        /\ rows t = sheetToJson k
        /\ rowCount t = length (rows t) /\ 0 < rowCount t)
  /\ (forall t : Table, t ∈ objectValues tables -> lookupKey tables (id t) = Some t).
Proof.
  unfold processFile.
  destruct (addSheet_invariant sheetToJson sheetNames) as (tables' & -> & Hnd & Hall & Hkeys).
  destruct (length (objectKeys tables') =? 0); [done |]. intros [= <-].
  assert (Hloaded : forall k (t : Table), (k, t) ∈ tables' ->
            id t = k /\ tableName t = k
            /\ analyzeSheetData (sheetToJson k) k = Returns (tableData t)
            /\ rows t = sheetToJson k
            /\ rowCount t = length (rows t) /\ 0 < rowCount t).
  { intros k t Hin. rewrite Forall_forall in Hall.
    destruct (Hall _ Hin) as (Hid & Hname & Hne & Han). simpl in *.
    split; [done |]. split; [done |]. split; [done |].
    unfold analyzeSheetData in Han. destruct (sheetToJson k) as [|r rs] eqn:Hrows; [done |].
    injection Han as Han. rewrite <- Han. simpl. repeat split; lia. }
  assert (Hids : map id (objectValues tables') = objectKeys tables').
  { unfold objectValues, objectKeys. rewrite map_map. apply map_ext_in.
    intros [k t] Hin%list_elem_of_In. simpl. by destruct (Hloaded k t Hin) as [? _]. }
  split; [done |]. split; [by rewrite Hids |].
  split; [intros k; by rewrite lookupKey_is_Some |].
  split; [intros k t Hl; by apply Hloaded, lookupKey_Some_elem |].
  intros t Hin. apply list_elem_of_fmap in Hin as ([k t'] & -> & Hin). simpl.
  destruct (Hloaded k t' Hin) as [-> _].
  by apply lookupKey_elem_Some.
Qed.

(** The collection that [processFile] resolves with: its keys are distinct,
    they are the names of the sheets that have rows, but for a sheet named
    [__proto__], whose assignment gives no key, and the table under a
    key is the analysis of that sheet, carrying the key as [id] and
    [tableName] and the number of its rows, at least one, as [rowCount]. So
    the ids of its tables are distinct, and a table is found under its id. *)
Theorem processFile_tables sheetNames sheetToJson tables :
  processFile sheetNames sheetToJson = Returns tables ->
  NoDup (objectKeys tables)
  /\ NoDup (map id (objectValues tables))
  /\ (forall k, is_Some (lookupKey tables k)
                <-> k ∈ sheetNames /\ sheetToJson k ≠ [] /\ k ≠ "__proto__")
  /\ (forall k (t : Table), lookupKey tables k = Some t ->
        id t = k /\ tableName t = k
        /\ analyzeSheetData (sheetToJson k) k = Returns (tableData t)
        /\ rows t = sheetToJson k
        /\ rowCount t = length (rows t) /\ 0 < rowCount t)
  /\ (forall t : Table, t ∈ objectValues tables -> lookupKey tables (id t) = Some t).
Proof. apply processFile_loaded. Qed.

End ProcessFileFacts.

(** ** The type of a column does not depend on the order of the tests *)

Section TypeByMajority.
Context `{JsRuntime}.

(** Every present value is counted for exactly one of the four types. *)
Lemma parsedAs_partition vals :
  parsedAs DATE vals + parsedAs NUMBER vals + parsedAs BOOLEAN vals + parsedAs STRING vals
  = length vals.
Proof.
  induction vals as [|v vals IH]; [done |].
  rewrite !parsedAs_cons. pose proof (classify_known v) as Hk. simpl.
  destruct (classify v); try done; repeat case_decide; try done; lia.
Qed.

(** The three thresholds exclude one another, since each asks for more than
    four fifths of the present values: the type of a column is DATE, NUMBER
    or BOOLEAN exactly when its own threshold is passed, whatever the order
    in which lines 116-118 test them, and STRING exactly when none is. *)
Theorem analyzeColumn_type_by_majority key rows :
  let present := presentValues key rows in
  let n := length present in
  let ty := type (analyzeColumn key rows) in
  (ty = DATE <-> 8 * n < 10 * parsedAs DATE present)
  /\ (ty = NUMBER <-> 8 * n < 10 * parsedAs NUMBER present)
  /\ (ty = BOOLEAN <-> 9 * n < 10 * parsedAs BOOLEAN present)
  /\ (ty = STRING <-> 10 * parsedAs DATE present ≤ 8 * n
                      /\ 10 * parsedAs NUMBER present ≤ 8 * n
                      /\ 10 * parsedAs BOOLEAN present ≤ 9 * n).
Proof.
  intros present n ty. subst ty.
  destruct (analyzeColumn_fields key rows) as (_ & -> & _).
  destruct (scan_result key rows) as (-> & _ & _ & HD & HN & HB).
  rewrite decideType_strict, HD, HN, HB. fold present n.
  pose proof (parsedAs_partition present) as Hsum. fold n in Hsum.
  repeat case_decide; repeat split; intros; try done; try lia.
Qed.

End TypeByMajority.

(** ** The set of the distinct values *)

Lemma numberSameValueZero_sym x y : numberSameValueZero x y = numberSameValueZero y x.
Proof.
  unfold numberSameValueZero.
  destruct x, y; try done; apply bool_decide_ext; split; congruence.
Qed.

Lemma sameValueZero_sym a b : sameValueZero a b = sameValueZero b a.
Proof.
  destruct a, b; simpl; try done;
    try (apply bool_decide_ext; split; congruence).
  apply numberSameValueZero_sym.
Qed.

Lemma sameValueZero_refl a : sameValueZero a a = true.
Proof.
  destruct a as [s|x|b|d| |]; simpl; try done; try by apply bool_decide_eq_true_2.
  unfold numberSameValueZero. destruct x; try done; by apply bool_decide_eq_true_2.
Qed.

Lemma sameValueZero_setMember_l a b : sameValueZero (setMember a) b = sameValueZero a b.
Proof. destruct a as [|[]| | | |]; try done. by destruct b as [|[]| | | |]. Qed.

Lemma sameValueZero_setMember_r a b : sameValueZero a (setMember b) = sameValueZero a b.
Proof. by rewrite sameValueZero_sym, sameValueZero_setMember_l, sameValueZero_sym. Qed.

Lemma setAdd_prefix distinct val : distinct `prefix_of` setAdd distinct val.
Proof. unfold setAdd. destruct (existsb _ _); [done | by apply prefix_app_r]. Qed.

Lemma foldl_setAdd_prefix vals distinct : distinct `prefix_of` foldl setAdd distinct vals.
Proof.
  revert distinct. induction vals as [|v vals IH]; intros distinct; simpl; [done |].
  etrans; [apply setAdd_prefix | apply IH].
Qed.

Lemma existsb_prefix (f : CellValue -> bool) (l1 l2 : list CellValue) :
  l1 `prefix_of` l2 -> existsb f l1 = true -> existsb f l2 = true.
Proof. intros [k ->] Hl1. rewrite existsb_app, Hl1. done. Qed.

Lemma setAdd_represents distinct val : existsb (sameValueZero val) (setAdd distinct val) = true.
Proof.
  unfold setAdd. destruct (existsb _ distinct) eqn:Hex; [done |].
  rewrite existsb_app. simpl.
  by rewrite sameValueZero_setMember_r, sameValueZero_refl, orb_true_r.
Qed.

(** Every value that went in is represented by a member. *)
Lemma foldl_setAdd_represents vals distinct v :
  v ∈ vals -> existsb (sameValueZero v) (foldl setAdd distinct vals) = true.
Proof.
  revert distinct. induction vals as [|w vals IH]; intros distinct Hin; simpl.
  - by apply elem_of_nil in Hin.
  - apply elem_of_cons in Hin as [->|Hin]; [|by apply IH].
    eapply existsb_prefix; [apply foldl_setAdd_prefix | apply setAdd_represents].
Qed.

(** Every member is what the set holds for a value that went in. *)
Lemma foldl_setAdd_members vals distinct d :
  d ∈ foldl setAdd distinct vals -> d ∈ distinct \/ exists v, v ∈ vals /\ d = setMember v.
Proof.
  revert distinct. induction vals as [|w vals IH]; intros distinct Hin; simpl in *; [by left |].
  apply IH in Hin as [Hin|(v & Hv & ->)]; [|right; exists v; split; [by right | done]].
  unfold setAdd in Hin. destruct (existsb _ _); [by left |].
  apply elem_of_app in Hin as [Hin|Hin%list_elem_of_singleton]; [by left |].
  right. exists w. split; [left | done].
Qed.

Lemma laterDiffer_pairwise vals : laterDiffer vals <-> pairwiseDistinct vals.
Proof.
  split.
  - intros Hl i j a b Hi Hj Hne.
    destruct (decide (i < j)) as [Hlt|Hge].
    + rewrite sameValueZero_sym. by apply (Hl i j).
    + apply (Hl j i); [done | done | lia].
  - intros Hp i j a b Hi Hj Hlt. apply (Hp j i); [done | done | lia].
Qed.

Lemma existsb_false_lookup (f : CellValue -> bool) (l : list CellValue) :
  existsb f l = false <-> forall i a, l !! i = Some a -> f a = false.
Proof.
  induction l as [|x l IH]; simpl.
  - split; [by intros _ i a | done].
  - rewrite orb_false_iff, IH. split.
    + intros [Hx Hl] [|i] a; simpl; [by intros [= <-] | apply Hl].
    + intros Hall. split; [by apply (Hall 0) | intros i a; apply (Hall (S i))].
Qed.

Lemma laterDiffer_snoc vals v :
  laterDiffer (vals ++ [v]) <-> laterDiffer vals /\ existsb (sameValueZero v) vals = false.
Proof.
  rewrite existsb_false_lookup. split.
  - intros Hl. split.
    + intros i j a b Hi Hj Hlt. apply (Hl i j); [| |done]; by apply lookup_app_l_Some.
    + intros i a Hi. apply (Hl i (length vals)); [by apply lookup_app_l_Some | |].
      * by rewrite list_lookup_middle.
      * by apply lookup_lt_Some in Hi.
  - intros [Hl Hv] i j a b Hi Hj Hlt.
    destruct (decide (j < length vals)) as [Hj'|Hj'].
    + rewrite lookup_app_l in Hi, Hj by lia. by apply (Hl i j).
    + assert (j = length vals) as ->.
      { apply lookup_lt_Some in Hj. rewrite length_app in Hj. simpl in Hj. lia. }
      rewrite list_lookup_middle in Hj by done. injection Hj as <-.
      rewrite lookup_app_l in Hi by lia. by apply (Hv i).
Qed.

Lemma foldl_setAdd_differ vals distinct :
  laterDiffer distinct -> laterDiffer (foldl setAdd distinct vals).
Proof.
  revert distinct. induction vals as [|v vals IH]; intros distinct Hd; simpl; [done |].
  apply IH. unfold setAdd. destruct (existsb _ _) eqn:Hex; [done |].
  apply laterDiffer_snoc. split; [done |].
  rewrite <- Hex. clear. induction distinct as [|a distinct IH]; simpl; [done |].
  by rewrite sameValueZero_setMember_l, IH.
Qed.

(** The set grows with every value exactly when no value was in it and no
    value repeats an earlier one. *)
Lemma foldl_setAdd_all_new vals distinct :
  length (foldl setAdd distinct vals) = length distinct + length vals
  <-> forall i v, vals !! i = Some v ->
        existsb (sameValueZero v) distinct = false
        /\ forall j w, j < i -> vals !! j = Some w -> sameValueZero v w = false.
Proof.
  revert distinct. induction vals as [|v vals IH]; intros distinct; simpl.
  - split; [by intros _ i v | lia].
  - unfold setAdd at 2. destruct (existsb (sameValueZero v) distinct) eqn:Hex.
    + split.
      * intros Hlen. pose proof (foldl_setAdd_length vals distinct). lia.
      * intros Hall. destruct (Hall 0 v eq_refl) as [Hno _]. congruence.
    + specialize (IH (distinct ++ [setMember v])). rewrite length_app in IH. simpl in IH.
      replace (length distinct + S (length vals))
        with (length distinct + 1 + length vals) by lia.
      rewrite IH. clear IH. split.
      * intros Hall [|i] w; simpl.
        -- intros [= <-]. split; [done |]. intros j x Hj. lia.
        -- intros Hw. destruct (Hall i w Hw) as [Hnew Hearlier].
           rewrite existsb_app in Hnew. simpl in Hnew.
           apply orb_false_iff in Hnew as [Hnew Hv]. rewrite orb_false_r in Hv.
           rewrite sameValueZero_setMember_r in Hv.
           split; [done |]. intros [|j] x Hlt; simpl; [by intros [= <-] |].
           apply Hearlier. lia.
      * intros Hall i w Hw.
        destruct (Hall (S i) w Hw) as [Hnew Hearlier]. split.
        -- rewrite existsb_app, Hnew. simpl.
           rewrite orb_false_r, sameValueZero_setMember_r.
           by apply (Hearlier 0 v); [lia |].
        -- intros j x Hlt Hx. apply (Hearlier (S j) x); [lia | done].
Qed.

Lemma filter_all_length {A : Type} (P : A -> Prop) `{!forall a, Decision (P a)} (l : list A) :
  length (filter P l) = length l -> filter P l = l /\ Forall P l.
Proof.
  induction l as [|a l IH]; [done |].
  rewrite filter_cons. pose proof (length_filter P l) as Hle.
  destruct (decide (P a)) as [Ha|Ha]; simpl.
  - intros Hlen. destruct IH as [-> Hall]; [lia |]. split; [done | by constructor].
  - intros Hlen. lia.
Qed.

Lemma filter_all {A : Type} (P : A -> Prop) `{!forall a, Decision (P a)} (l : list A) :
  Forall P l -> filter P l = l.
Proof.
  induction 1 as [|a l Ha _ IH]; [done |].
  rewrite filter_cons, decide_True by done. by rewrite IH.
Qed.

Section DistinctValues.
Context `{JsRuntime}.

Lemma analyzeColumn_distinct key rows :
  uniqueCount (analyzeColumn key rows) = length (foldl setAdd [] (presentValues key rows))
  /\ exampleValues (analyzeColumn key rows) = take 5 (foldl setAdd [] (presentValues key rows)).
Proof.
  destruct (scan_result key rows) as (_ & _ & Hd & _).
  unfold analyzeColumn. cbv zeta in *. rewrite Hd.
  destruct (decideType _ _); simpl; try done.
  - by destruct (numericSummary _) as [[[[? ?] ?] ?]|].
  - by destruct (dateSummary _) as [[? ?]|].
Qed.

Lemma uniqueCount_full_iff key rows :
  uniqueCount (analyzeColumn key rows) = length rows
  <-> Forall (fun val => isAbsent val = false) (columnValues key rows)
      /\ pairwiseDistinct (columnValues key rows).
Proof.
  destruct (analyzeColumn_distinct key rows) as [-> _].
  pose proof (foldl_setAdd_length (presentValues key rows) []) as Hle. simpl in Hle.
  assert (Hcols : length (columnValues key rows) = length rows)
    by (unfold columnValues; apply length_map).
  pose proof (length_filter (fun val => isAbsent val = false) (columnValues key rows)) as Hfl.
  fold (presentValues key rows) in Hfl.
  split.
  - intros Hlen.
    destruct (filter_all_length (fun val => isAbsent val = false) (columnValues key rows))
      as [Hall HForall]; [fold (presentValues key rows); lia |].
    fold (presentValues key rows) in Hall. split; [done |].
    rewrite Hall in Hlen. apply laterDiffer_pairwise.
    pose proof (proj1 (foldl_setAdd_all_new (columnValues key rows) [])) as Hnew.
    simpl in Hnew. specialize (Hnew ltac:(lia)).
    intros i j a b Hi Hj Hlt. destruct (Hnew j b Hj) as [_ Hearlier]. by apply (Hearlier i a).
  - intros [Hall Hpd].
    assert (Heq : presentValues key rows = columnValues key rows).
    { unfold presentValues. by apply filter_all. }
    rewrite Heq, <- Hcols.
    apply (foldl_setAdd_all_new (columnValues key rows) []).
    intros i v Hi. split; [done |]. intros j w Hlt Hj.
    apply laterDiffer_pairwise in Hpd. by apply (Hpd j i).
Qed.

(** The comment of line 95 relies on it: [uniqueCount] is the number of rows
    exactly when the column is a key of the rows, that is, no row has an
    absent value ([null], [undefined], the empty string or no such field)
    and no two rows have values that a [Set] holds for the same. *)
Theorem analyzeColumn_unique_iff_key key rows :
  uniqueCount (analyzeColumn key rows) = length rows
  <-> Forall (fun val => isAbsent val = false) (columnValues key rows)
      /\ pairwiseDistinct (columnValues key rows).
Proof. apply uniqueCount_full_iff. Qed.

(** The example values are the first five members of the set, or all of
    them: as many as [uniqueCount] up to five, each what a [Set] holds for a
    present value of the column (the value itself, and [+0] for [-0]), no
    two the same for a [Set], the first one held for the first present
    value; and when the column has at most five distinct values, every
    present value is among the examples, up to the comparison of a [Set]. *)
Theorem analyzeColumn_exampleValues key rows :
  let c := analyzeColumn key rows in
  length (exampleValues c) = Nat.min 5 (uniqueCount c)
  /\ (forall e, e ∈ exampleValues c ->
                exists v, v ∈ presentValues key rows /\ e = setMember v)
  /\ pairwiseDistinct (exampleValues c)
  /\ head (exampleValues c) = setMember <$> head (presentValues key rows)
  /\ (uniqueCount c ≤ 5 ->
      forall v, v ∈ presentValues key rows ->
                exists e, e ∈ exampleValues c /\ sameValueZero v e = true).
Proof.
  cbv zeta. destruct (analyzeColumn_distinct key rows) as [-> ->].
  set (present := presentValues key rows). set (D := foldl setAdd [] present).
  split; [by rewrite length_take |]. split; [|split; [|split]].
  - intros v Hv%elem_of_take. destruct Hv as (i & Hv & _).
    apply list_elem_of_lookup_2 in Hv.
    apply foldl_setAdd_members in Hv as [Hv|Hv]; [by apply elem_of_nil in Hv | done].
  - apply laterDiffer_pairwise. intros i j a b Hi Hj Hlt.
    apply lookup_take_Some in Hi as [Hi _]. apply lookup_take_Some in Hj as [Hj _].
    assert (HD : laterDiffer D) by (apply foldl_setAdd_differ; by intros ? ? ? ? ?).
    by apply (HD i j).
  - subst D. destruct present as [|v present]; [done |]. simpl.
    destruct (foldl_setAdd_prefix present (setAdd [] v)) as [k ->]. done.
  - intros Hle v Hv. rewrite take_ge by done.
    pose proof (foldl_setAdd_represents present [] v Hv) as Hex. fold D in Hex.
    apply existsb_exists in Hex as (e & He & Heq). exists e. split; [|done].
    by apply list_elem_of_In.
Qed.

End DistinctValues.

(** ** The date and measure columns of a sheet *)

Lemma find_Some_split {A : Type} (f : A -> bool) (l : list A) (x : A) :
  find f l = Some x ->
  exists pre post, l = pre ++ x :: post /\ f x = true /\ Forall (fun a => f a = false) pre.
Proof.
  induction l as [|a l IH]; simpl; [done |].
  destruct (f a) eqn:Ha.
  - intros [= <-]. exists [], l. by repeat split.
  - intros Hl. destruct (IH Hl) as (pre & post & -> & Hx & Hpre).
    exists (a :: pre), post. repeat split; [done |]. by constructor.
Qed.

Lemma find_None_Forall {A : Type} (f : A -> bool) (l : list A) :
  find f l = None <-> Forall (fun a => f a = false) l.
Proof.
  induction l as [|a l IH]; simpl; [by split; [constructor |] |].
  destruct (f a) eqn:Ha.
  - split; [done |]. intros [Hfa _]%Forall_cons. congruence.
  - rewrite IH. split; [by constructor | by intros [_ ?]%Forall_cons].
Qed.

Section PrimaryColumns.
Context `{JsRuntime}.

(** The columns of a sheet are the profiles of the keys of its first row: a
    column is determined by its name. *)
Lemma analyzeSheetData_columns rawRows fileName ds :
  analyzeSheetData rawRows fileName = Returns ds ->
  rows ds = rawRows /\ rowCount ds = length rawRows
  /\ map name (columns ds) = objectKeys (default [] (head rawRows))
  /\ Forall (fun c => c = analyzeColumn (name c) rawRows) (columns ds).
Proof.
  unfold analyzeSheetData. destruct rawRows as [|firstRow rest]; [done |].
  intros [= <-]. cbn [rows rowCount columns head default].
  split; [done |]. split; [done |]. split.
  - rewrite map_map. erewrite map_ext; [apply map_id |].
    intros key. by destruct (analyzeColumn_fields key (firstRow :: rest)) as [-> _].
  - apply Forall_map, Forall_forall. intros key _. simpl.
    by destruct (analyzeColumn_fields key (firstRow :: rest)) as [-> _].
Qed.

(** The heuristics of lines 55-71. The date column is the first column of
    type DATE with more than one distinct value, and there is none exactly
    when no column is such. Provided the sort of the runtime permutes the
    array it sorts, the measure column is a column of type NUMBER, and
    there is none exactly when no column is of that type. The three roles
    never fall on the same column: a dimension is neither the date nor the
    measure column, and the date column is not the measure column. *)
Theorem analyzeSheetData_primary_columns rawRows fileName ds :
  analyzeSheetData rawRows fileName = Returns ds ->
  (forall n cols, sortByScore n cols ≡ₚ cols) ->
  match primaryDateColumn ds with
  | Some d =>
      exists pre c post,
        columns ds = pre ++ c :: post /\ name c = d
        /\ type c = DATE /\ 1 < uniqueCount c
        /\ Forall (fun c' => ~ (type c' = DATE /\ 1 < uniqueCount c')) pre
  | None => Forall (fun c => ~ (type c = DATE /\ 1 < uniqueCount c)) (columns ds)
  end
  /\ match primaryMeasureColumn ds with
     | Some m => exists c, c ∈ columns ds /\ name c = m /\ type c = NUMBER
     | None => Forall (fun c => type c ≠ NUMBER) (columns ds)
     end
  /\ (forall d, d ∈ dimensions ds ->
        primaryDateColumn ds ≠ Some d /\ primaryMeasureColumn ds ≠ Some d)
  /\ (forall d, primaryDateColumn ds = Some d -> primaryMeasureColumn ds ≠ Some d).
Proof.
  intros Hds Hsort.
  destruct (analyzeSheetData_columns _ _ _ Hds) as (_ & _ & _ & Hcols).
  assert (Hsame : forall c c', c ∈ columns ds -> c' ∈ columns ds -> name c = name c' -> c = c').
  { intros c c' Hc Hc' Hname. rewrite Forall_forall in Hcols.
    rewrite (Hcols c Hc), (Hcols c' Hc'). by rewrite Hname. }
  clear Hcols. revert Hsame.
  unfold analyzeSheetData in Hds. destruct rawRows as [|firstRow rest]; [done |].
  injection Hds as <-. cbn [primaryDateColumn primaryMeasureColumn dimensions columns].
  set (rawRows := firstRow :: rest).
  set (cols := map (fun key => analyzeColumn key rawRows) (objectKeys firstRow)).
  set (isDate := fun c : ColumnProfile => bool_decide (type c = DATE) && (1 <? uniqueCount c)).
  intros Hsame.
  assert (HisDate : forall c, isDate c = false <-> ~ (type c = DATE /\ 1 < uniqueCount c)).
  { intros c. unfold isDate. rewrite andb_false_iff, bool_decide_eq_false, Nat.ltb_ge.
    split; [intros [?|?] [? ?]; [done | lia] |].
    intros Hno. destruct (decide (type c = DATE)); [right | by left].
    destruct (decide (1 < uniqueCount c)); [|lia]. by destruct Hno. }
  assert (Hdate : match name <$> find isDate cols with
                  | Some d => exists pre c post,
                      cols = pre ++ c :: post /\ name c = d /\ type c = DATE
                      /\ 1 < uniqueCount c
                      /\ Forall (fun c' => ~ (type c' = DATE /\ 1 < uniqueCount c')) pre
                  | None => Forall (fun c => ~ (type c = DATE /\ 1 < uniqueCount c)) cols
                  end).
  { destruct (find isDate cols) as [c|] eqn:Hfind; simpl.
    - destruct (find_Some_split _ _ _ Hfind) as (pre & post & Hsplit & Hc & Hpre).
      exists pre, c, post. unfold isDate in Hc.
      apply andb_true_iff in Hc as [Hty%bool_decide_eq_true Hu%Nat.ltb_lt].
      repeat split; try done.
      eapply Forall_impl; [exact Hpre |]. intros c'. apply HisDate.
    - apply find_None_Forall in Hfind.
      eapply Forall_impl; [exact Hfind |]. intros c'. apply HisDate. }
  set (numberCols := sortByScore (length rawRows) (filter (fun c => type c = NUMBER) cols)).
  assert (Hnum : forall c, c ∈ numberCols <-> type c = NUMBER /\ c ∈ cols).
  { intros c. unfold numberCols. rewrite (Hsort _ _).
    apply (list_elem_of_filter (fun c => type c = NUMBER)). }
  assert (Hmeasure : match name <$> head numberCols with
                     | Some m => exists c, c ∈ cols /\ name c = m /\ type c = NUMBER
                     | None => Forall (fun c => type c ≠ NUMBER) cols
                     end).
  { destruct numberCols as [|c rest'] eqn:Hnc; simpl.
    - apply Forall_forall. intros c Hc Hty.
      assert (Hin : c ∈ @nil ColumnProfile) by by apply Hnum.
      by apply elem_of_nil in Hin.
    - destruct (proj1 (Hnum c)) as [Hty Hc]; [left |]. by exists c. }
  split; [exact Hdate |]. split; [exact Hmeasure |].
  assert (Hdims : forall d, d ∈ map name (sortByUnique (filter (fun c => isDimension (length rawRows) c) cols)) ->
                            exists c, c ∈ cols /\ name c = d /\ type c = STRING).
  { intros d (c & -> & Hc)%list_elem_of_fmap. rewrite sortByUnique_perm in Hc.
    apply list_elem_of_filter in Hc as [Hdim Hc]. exists c. split; [done |]. split; [done |].
    apply Is_true_true in Hdim. unfold isDimension in Hdim.
    apply andb_true_iff in Hdim as [Hdim _]. apply andb_true_iff in Hdim as [Hdim _].
    by apply bool_decide_eq_true in Hdim. }
  split.
  - intros d (c & Hc & Hname & Hty)%Hdims. split.
    + intros Heq. rewrite Heq in Hdate.
      destruct Hdate as (pre & c' & post & Hsplit & Hname' & Hty' & _).
      assert (c = c') as <-; [|congruence].
      apply Hsame; [done | | congruence].
      rewrite Hsplit. apply elem_of_app. right. left.
    + intros Heq. change (name <$> head numberCols = Some d) in Heq.
      rewrite Heq in Hmeasure.
      destruct Hmeasure as (c' & Hc' & Hname' & Hty').
      assert (c = c') as <-; [|congruence].
      apply Hsame; [done | done | congruence].
  - intros d Heq Heq'. change (name <$> head numberCols = Some d) in Heq'.
    rewrite Heq in Hdate. rewrite Heq' in Hmeasure.
    destruct Hdate as (pre & c & post & Hsplit & Hname & Hty & _).
    destruct Hmeasure as (c' & Hc' & Hname' & Hty').
    assert (c = c') as <-; [|congruence].
    apply Hsame; [| done | congruence].
    rewrite Hsplit. apply elem_of_app. right. left.
Qed.

End PrimaryColumns.

(** ** What a suggestion is made of, and which pair of Strategy 1 wins *)

Section SuggestionsAreValid.
Context `{JsRuntime}.

Lemma nearUnique_spec (col : ColumnProfile) (table : Table) :
  nearUnique col table = true <-> 9 * rowCount table < 10 * uniqueCount col.
Proof. unfold nearUnique. rewrite gt_fraction_decide, bool_decide_eq_true. lia. Qed.

Lemma nameMatch_suggestion (baseTable dimTable : Table) baseCol acc dimCol :
  baseCol ∈ columns baseTable -> dimCol ∈ columns dimTable ->
  (forall cfg, fst acc = Some cfg -> suggestionFor baseTable dimTable cfg) ->
  forall cfg, fst (nameMatch dimTable baseCol acc dimCol) = Some cfg ->
              suggestionFor baseTable dimTable cfg.
Proof.
  intros Hb Hd Hacc cfg. unfold nameMatch.
  destruct (bool_decide _); [|apply Hacc].
  destruct (nearUnique _ _) eqn:Hnear; [|apply Hacc].
  destruct (randomUUID (snd acc)) as [uuid g]. simpl. intros [= <-].
  repeat split; simpl; [by exists baseCol |].
  exists dimCol. repeat split; [done |]. by apply nearUnique_spec.
Qed.

Lemma strategy1_suggestion (baseTable dimTable : Table) g cfg :
  fst (strategy1 baseTable dimTable g) = Some cfg -> suggestionFor baseTable dimTable cfg.
Proof.
  unfold strategy1.
  assert (Hsub : forall b, b ∈ columns baseTable -> b ∈ columns baseTable) by done.
  revert Hsub. generalize (columns baseTable) at 1 3 as baseCols.
  assert (Hstart : forall c, fst (@None JoinConfig, g) = Some c ->
                             suggestionFor baseTable dimTable c) by done.
  revert Hstart. generalize (@None JoinConfig, g) as acc.
  intros acc Hacc baseCols. revert acc Hacc cfg.
  induction baseCols as [|b baseCols IH]; intros acc Hacc cfg Hsub; simpl; [apply Hacc |].
  apply IH; [|intros b' Hb'; apply Hsub; by right].
  assert (Hb : b ∈ columns baseTable) by (apply Hsub; left).
  clear IH cfg Hsub.
  assert (Hsub : forall d, d ∈ columns dimTable -> d ∈ columns dimTable) by done.
  revert acc Hacc Hsub. generalize (columns dimTable) at 1 3 as dimCols.
  induction dimCols as [|d dimCols IHd]; intros acc Hacc Hsub; simpl; [done |].
  apply IHd; [|intros d' Hd'; apply Hsub; by right].
  apply nameMatch_suggestion; [done | apply Hsub; left | done].
Qed.

Lemma strategy2_suggestion (baseTable dimTable : Table) g cfg :
  fst (strategy2 baseTable dimTable g) = Some cfg -> suggestionFor baseTable dimTable cfg.
Proof.
  unfold strategy2.
  destruct (find (isIdColumn dimTable) _) as [dimIdCol|] eqn:Hdim; [|done].
  destruct (nearUnique _ _) eqn:Hnear; [|done].
  destruct (find (isForeignKey dimTable) _) as [baseCol|] eqn:Hbase; [|done].
  destruct (randomUUID g). simpl. intros [= <-].
  apply find_Some_split in Hdim as (pre & post & Hd & _).
  apply find_Some_split in Hbase as (pre' & post' & Hb & _).
  repeat split; simpl.
  - exists baseCol. split; [|done]. rewrite Hb. apply elem_of_app. right. left.
  - exists dimIdCol. split; [|split; [done | by apply nearUnique_spec]].
    rewrite Hd. apply elem_of_app. right. left.
Qed.

Lemma bestJoinFor_suggestion (baseTable dimTable : Table) g cfg :
  fst (bestJoinFor baseTable dimTable g) = Some cfg -> suggestionFor baseTable dimTable cfg.
Proof.
  unfold bestJoinFor.
  destruct (strategy1 baseTable dimTable g) as [[c|] g'] eqn:H1.
  - simpl. intros [= <-]. apply (strategy1_suggestion baseTable dimTable g). by rewrite H1.
  - apply strategy2_suggestion.
Qed.

(** The suggestions pushed for a list of tables: one for each table that has
    a best join, in the order of the tables. *)
Lemma suggestFor_foldl (baseTable : Table) ts acc g :
  exists chosen : list (Table * JoinConfig),
    fst (foldl (suggestFor baseTable) (acc, g) ts) = acc ++ map snd chosen
    /\ map fst chosen `sublist_of` ts
    /\ Forall (fun p => suggestionFor baseTable p.1 p.2) chosen.
Proof.
  revert acc g. induction ts as [|t ts IH]; intros acc g; simpl.
  - exists []. simpl. by rewrite app_nil_r.
  - unfold suggestFor at 2. simpl.
    destruct (bestJoinFor baseTable t g) as [[c|] g'] eqn:Hbest; simpl.
    + destruct (IH (acc ++ [c]) g') as (chosen & -> & Hsub & Hall).
      exists ((t, c) :: chosen). simpl. rewrite <- app_assoc. split; [done |].
      split; [by apply sublist_skip |]. constructor; [|done]. simpl.
      apply (bestJoinFor_suggestion baseTable t g). by rewrite Hbest.
    + destruct (IH acc g') as (chosen & -> & Hsub & Hall).
      exists chosen. split; [done |]. split; [by apply sublist_cons | done].
Qed.

Lemma suggestJoins_chosen baseTableId tables g (baseTable : Table) :
  lookupKey tables baseTableId = Some baseTable ->
  exists chosen : list (Table * JoinConfig),
    fst (suggestJoins baseTableId tables g) = map snd chosen
    /\ map fst chosen `sublist_of` filter (fun t : Table => id t ≠ baseTableId) (objectValues tables)
    /\ Forall (fun p => suggestionFor baseTable p.1 p.2) chosen.
Proof.
  intros Hbase. unfold suggestJoins. rewrite Hbase.
  destruct (suggestFor_foldl baseTable
              (filter (fun t : Table => id t ≠ baseTableId) (objectValues tables)) [] g)
    as (chosen & Hfst & Hsub & Hall).
  exists chosen. by rewrite Hfst.
Qed.

(** Whatever the tables, every suggestion is a LEFT join from a column of the
    base table to a column of another table of the collection, a column with
    more distinct values than nine tenths of the rows of that table; the
    tables of the suggestions follow the order of the collection, with at
    most one suggestion each. When [tables[baseTableId]] is [undefined],
    that is, the id is no key of the collection and no name of a member of
    [Object.prototype], there is no suggestion and no identifier is drawn.
    (An inherited member passes the guard of line 157; nothing is said of
    that call.) *)
Theorem suggestJoins_suggestions_are_sound baseTableId tables g :
  match readKey tables baseTableId with
  | Missing => suggestJoins baseTableId tables g = ([], g)
  | Inherited => True
  | Own baseTable =>
      Forall (fun cfg =>
                exists dimTable : Table,
                  dimTable ∈ objectValues tables /\ id dimTable ≠ baseTableId
                  /\ suggestionFor baseTable dimTable cfg)
             (fst (suggestJoins baseTableId tables g))
      /\ map rightTableId (fst (suggestJoins baseTableId tables g))
         `sublist_of` filter (fun i => i ≠ baseTableId) (map id (objectValues tables))
  end.
Proof.
  destruct (readKey tables baseTableId) as [baseTable| |] eqn:Hread; [| done |].
  2: { apply readKey_Missing in Hread as [Hbase _]. unfold suggestJoins. by rewrite Hbase. }
  apply readKey_Own in Hread as Hbase.
  - destruct (suggestJoins_chosen baseTableId tables g baseTable Hbase)
      as (chosen & -> & Hsub & Hall).
    split.
    + apply Forall_map, Forall_forall. intros [t c] Hin. simpl.
      rewrite Forall_forall in Hall. specialize (Hall _ Hin). simpl in Hall.
      exists t. split; [|split; [|done]].
      * apply (list_elem_of_fmap_2 fst) in Hin. simpl in Hin.
        eapply elem_of_sublist in Hin; [|exact Hsub].
        by apply list_elem_of_filter in Hin as [_ ?].
      * apply (list_elem_of_fmap_2 fst) in Hin. simpl in Hin.
        eapply elem_of_sublist in Hin; [|exact Hsub].
        by apply list_elem_of_filter in Hin as [? _].
    + assert (Hids : map rightTableId (map snd chosen) = map id (map fst chosen)).
      { rewrite !map_map. apply map_ext_in. intros [t c] Hin%list_elem_of_In.
        rewrite Forall_forall in Hall. by destruct (Hall _ Hin) as [? _]. }
      rewrite Hids.
      assert (Hfilter : filter (fun i => i ≠ baseTableId) (map id (objectValues tables))
                        = map id (filter (fun t : Table => id t ≠ baseTableId)
                                         (objectValues tables))).
      { generalize (objectValues tables) as ts.
        induction ts as [|t ts IH]; [done |]. simpl.
        rewrite !filter_cons. destruct (decide (id t ≠ baseTableId)); simpl; by rewrite IH. }
      rewrite Hfilter. by apply (fmap_sublist id).
Qed.

End SuggestionsAreValid.

Section LastMatchWins.
Context `{JsRuntime}.

Lemma drawN_S n g : drawN (S n) g = snd (randomUUID (drawN n g)).
Proof. done. Qed.

(** The two loops, as one loop over the pairs. *)
Lemma strategy1_pairs (baseTable dimTable : Table) acc :
  foldl (fun acc baseCol => foldl (nameMatch dimTable baseCol) acc (columns dimTable))
        acc (columns baseTable)
  = foldl (fun acc p => nameMatch dimTable p.1 acc p.2) acc (columnPairs baseTable dimTable).
Proof.
  unfold columnPairs. revert acc.
  induction (columns baseTable) as [|b baseCols IH]; intros acc; csimpl; [done |].
  rewrite foldl_app, <- IH. f_equal.
  generalize (columns dimTable) as dimCols. clear IH. intros dimCols. revert acc.
  induction dimCols as [|d dimCols IHd]; intros acc; simpl; [done |]. apply IHd.
Qed.

Lemma nameMatch_pairs (dimTable : Table) g ps :
  let matches := filter (namesMatch dimTable) ps in
  foldl (fun acc p => nameMatch dimTable p.1 acc p.2) (None, g) ps
  = (match last matches with
     | Some p => Some {| joinId := nthUUID (length matches - 1) g;
                         rightTableId := id dimTable;
                         leftColumn := name p.1;
                         rightColumn := name p.2;
                         joinType := LEFT |}
     | None => None
     end, drawN (length matches) g).
Proof.
  induction ps as [|p ps IH] using rev_ind; [done |].
  cbv zeta in *. rewrite foldl_app, IH, filter_app. clear IH. simpl.
  rewrite filter_cons, filter_nil. unfold nameMatch at 1.
  destruct (decide (namesMatch dimTable p)) as [[Hname Hnear]|Hno].
  - rewrite bool_decide_eq_true_2, Hnear by done. simpl.
    rewrite last_snoc, length_app. simpl.
    replace (length (filter (namesMatch dimTable) ps) + 1 - 1)
      with (length (filter (namesMatch dimTable) ps)) by lia.
    replace (length (filter (namesMatch dimTable) ps) + 1)
      with (S (length (filter (namesMatch dimTable) ps))) by lia.
    rewrite drawN_S. unfold nthUUID. by destruct (randomUUID _).
  - rewrite app_nil_r.
    destruct (bool_decide _) eqn:Hname; [|done].
    destruct (nearUnique p.2 dimTable) eqn:Hnear; [|done].
    destruct Hno. split; [by apply bool_decide_eq_true in Hname | done].
Qed.

(** Strategy 1 keeps the last pair of columns that passes its tests, in the
    order of the loops (base columns outside, columns of the other table
    inside), not the first one; it draws one identifier for every pair that
    passes, and the suggestion carries the last one drawn. Strategy 2 is
    tried exactly when no pair passes, and then with no identifier drawn
    yet. A pair passes ([namesMatch]) when the two names are equal after
    the [toLowerCase] of the runtime, so for letters outside ASCII as well,
    and the column of the other table has more distinct values than nine
    tenths of its rows. *)
Theorem strategy1_last_match_wins (baseTable dimTable : Table) g :
  let matches := filter (namesMatch dimTable) (columnPairs baseTable dimTable) in
  strategy1 baseTable dimTable g
  = (match last matches with
     | Some p => Some {| joinId := nthUUID (length matches - 1) g;
                         rightTableId := id dimTable;
                         leftColumn := name p.1;
                         rightColumn := name p.2;
                         joinType := LEFT |}
     | None => None
     end, drawN (length matches) g)
  /\ bestJoinFor baseTable dimTable g
     = match matches with
       | [] => strategy2 baseTable dimTable g
       | _ :: _ => strategy1 baseTable dimTable g
       end.
Proof.
  intros matches.
  assert (H1 : strategy1 baseTable dimTable g
               = (match last matches with
                  | Some p => Some {| joinId := nthUUID (length matches - 1) g;
                                      rightTableId := id dimTable;
                                      leftColumn := name p.1;
                                      rightColumn := name p.2;
                                      joinType := LEFT |}
                  | None => None
                  end, drawN (length matches) g)).
  { unfold strategy1. rewrite strategy1_pairs. apply nameMatch_pairs. }
  split; [exact H1 |].
  unfold bestJoinFor. rewrite H1.
  destruct matches as [|p ms] eqn:Hm; [done |].
  destruct (last (p :: ms)) as [q|] eqn:Hlast; [done |].
  by apply last_None in Hlast.
Qed.

End LastMatchWins.

(** ** The join editor *)

Lemma isJoined_spec joins i : isJoined joins i = true <-> i ∈ map rightTableId joins.
Proof.
  unfold isJoined. induction joins as [|j joins IH]; simpl.
  - split; [done | by intros ?%elem_of_nil].
  - destruct (bool_decide (rightTableId j = i)) eqn:Hj.
    + apply bool_decide_eq_true in Hj. split; [intros _; rewrite Hj; left | done].
    + apply bool_decide_eq_false in Hj. rewrite IH.
      split; [by right | by intros [?|?]%elem_of_cons].
Qed.

Lemma isJoined_false joins i : isJoined joins i = false <-> i ∉ map rightTableId joins.
Proof. rewrite <- isJoined_spec. by destruct (isJoined joins i). Qed.

Lemma filter_head_split {A : Type} (P : A -> Prop) `{!forall a, Decision (P a)}
    (l : list A) :
  match filter P l with
  | [] => Forall (fun a => ~ P a) l
  | x :: _ => exists pre post, l = pre ++ x :: post /\ P x /\ Forall (fun a => ~ P a) pre
  end.
Proof.
  induction l as [|a l IH]; [by constructor |].
  rewrite filter_cons. destruct (decide (P a)) as [Ha|Ha].
  - exists [], l. by repeat split.
  - destruct (filter P l) as [|x xs].
    + by constructor.
    + destruct IH as (pre & post & -> & Hx & Hpre).
      exists (a :: pre), post. repeat split; [done |]. by constructor.
Qed.

Section JoinEditor.
Context `{JsRuntime}.

Lemma addJoin_outcome (tables : TableCollection) baseTableId joins g joins' g' :
  addJoin tables baseTableId joins g = (Returns joins', g') ->
  (joins' = joins /\ g' = g
   /\ Forall (fun k => k = baseTableId \/ k ∈ map rightTableId joins) (objectKeys tables))
  \/ (exists pre k post (B T : Table) b bs t ts,
        objectKeys tables = pre ++ k :: post
        /\ Forall (fun k' => k' = baseTableId \/ k' ∈ map rightTableId joins) pre
        /\ k ≠ baseTableId /\ (k ∉ map rightTableId joins)
        /\ lookupKey tables baseTableId = Some B /\ columns B = b :: bs
        /\ lookupKey tables k = Some T /\ columns T = t :: ts
        /\ joins' = joins ++ [ {| joinId := fst (randomUUID g);
                                  rightTableId := k;
                                  leftColumn := name b;
                                  rightColumn := name t;
                                  joinType := LEFT |} ]
        /\ g' = snd (randomUUID g)).
Proof.
  unfold addJoin.
  pose proof (filter_head_split
                (fun i => i ≠ baseTableId /\ isJoined joins i = false) (objectKeys tables))
    as Hsplit.
  assert (Hnot : forall k, ~ (k ≠ baseTableId /\ isJoined joins k = false) ->
                           k = baseTableId \/ k ∈ map rightTableId joins).
  { intros k Hk. destruct (decide (k = baseTableId)) as [|Hne]; [by left |]. right.
    apply isJoined_spec. destruct (isJoined joins k); [done |]. by destruct Hk. }
  destruct (filter _ (objectKeys tables)) as [|k ks].
  - intros [= <- <-]. left. repeat split; try done.
    eapply Forall_impl; [exact Hsplit | exact Hnot].
  - destruct Hsplit as (pre & post & Hkeys & [Hne Hnj] & Hpre).
    destruct (randomUUID g) as [uuid g1] eqn:Hdraw.
    unfold firstColumnName.
    destruct (lookupKey tables baseTableId) as [B|] eqn:HlB; [|done].
    destruct (columns B) as [|b bs] eqn:HB; [done |].
    destruct (lookupKey tables k) as [T|] eqn:HlT; [|done].
    destruct (columns T) as [|t ts] eqn:HT; [done |].
    intros [= <- <-]. right.
    exists pre, k, post, B, T, b, bs, t, ts. simpl.
    repeat split; try done.
    + eapply Forall_impl; [exact Hpre | exact Hnot].
    + by apply isJoined_false.
Qed.

(** [addJoin] either leaves the joins as they are, drawing no identifier,
    when every table other than the base table is the right table of a join
    already, or appends one LEFT join: to the first table of the collection
    that is neither the base table nor joined yet, on the first column of
    the base table and the first column of that table, under the next
    identifier. *)
Theorem addJoin_adds_first_unjoined_table
    (tables : TableCollection) baseTableId joins g joins' g' :
  addJoin tables baseTableId joins g = (Returns joins', g') ->
  (joins' = joins /\ g' = g
   /\ Forall (fun k => k = baseTableId \/ k ∈ map rightTableId joins) (objectKeys tables))
  \/ (exists pre k post (B T : Table) b bs t ts,
        objectKeys tables = pre ++ k :: post
        /\ Forall (fun k' => k' = baseTableId \/ k' ∈ map rightTableId joins) pre
        /\ k ≠ baseTableId /\ (k ∉ map rightTableId joins)
        /\ lookupKey tables baseTableId = Some B /\ columns B = b :: bs
        /\ lookupKey tables k = Some T /\ columns T = t :: ts
        /\ joins' = joins ++ [ {| joinId := fst (randomUUID g);
                                  rightTableId := k;
                                  leftColumn := name b;
                                  rightColumn := name t;
                                  joinType := LEFT |} ]
        /\ g' = snd (randomUUID g)).
Proof. apply addJoin_outcome. Qed.

(** [addJoin] never joins the base table to itself and never joins a table
    twice: when the right tables of the joins are distinct tables of the
    collection other than the base table, they still are afterwards, and
    the joins that were there are unchanged. *)
Theorem addJoin_keeps_right_tables_distinct
    (tables : TableCollection) baseTableId joins g joins' g' :
  addJoin tables baseTableId joins g = (Returns joins', g') ->
  NoDup (map rightTableId joins) ->
  Forall (fun j => rightTableId j ≠ baseTableId /\ rightTableId j ∈ objectKeys tables) joins ->
  NoDup (map rightTableId joins')
  /\ Forall (fun j => rightTableId j ≠ baseTableId /\ rightTableId j ∈ objectKeys tables) joins'
  /\ joins `prefix_of` joins'
  /\ length joins' ≤ length (objectKeys tables).
Proof.
  intros Hadd Hnd Hall.
  assert (Hbound : forall js : list JoinConfig,
             NoDup (map rightTableId js) ->
             Forall (fun j => rightTableId j ≠ baseTableId
                              /\ rightTableId j ∈ objectKeys tables) js ->
             length js ≤ length (objectKeys tables)).
  { intros js Hnd' Hall'. rewrite <- (length_map rightTableId js).
    apply submseteq_length, NoDup_submseteq; [done |].
    intros i (j & -> & Hj)%list_elem_of_fmap. rewrite Forall_forall in Hall'.
    by destruct (Hall' j Hj). }
  destruct (addJoin_outcome _ _ _ _ _ _ Hadd)
    as [(-> & _ & _)|(pre & k & post & B & T & b & bs & t & ts & Hkeys & _ & Hne & Hnj
                      & _ & _ & _ & _ & -> & _)].
  - repeat split; try done. by apply Hbound.
  - assert (Hnd' : NoDup (map rightTableId
                            (joins ++ [ {| joinId := fst (randomUUID g); rightTableId := k;
                                           leftColumn := name b; rightColumn := name t;
                                           joinType := LEFT |} ]))).
    { rewrite map_app. simpl. apply NoDup_app. split; [done |]. split; [|apply NoDup_singleton].
      by intros i Hi ->%list_elem_of_singleton. }
    assert (Hall' : Forall (fun j => rightTableId j ≠ baseTableId
                                     /\ rightTableId j ∈ objectKeys tables)
                           (joins ++ [ {| joinId := fst (randomUUID g); rightTableId := k;
                                          leftColumn := name b; rightColumn := name t;
                                          joinType := LEFT |} ])).
    { apply Forall_app. split; [done |]. apply Forall_singleton. simpl. split; [done |].
      rewrite Hkeys. apply elem_of_app. right. left. }
    repeat split; try done; [by apply prefix_app_r | by apply Hbound].
Qed.

(** Removing the join that [addJoin] has just added gives back the joins as
    they were, provided the identifier drawn for it is not the identifier of
    a join that was there. *)
Theorem removeJoin_undoes_addJoin (tables : TableCollection) baseTableId joins g joins' g' :
  addJoin tables baseTableId joins g = (Returns joins', g') ->
  fst (randomUUID g) ∉ map joinId joins ->
  removeJoin (fst (randomUUID g)) joins' = joins.
Proof.
  intros Hadd Hfresh.
  assert (Hkeep : removeJoin (fst (randomUUID g)) joins = joins).
  { unfold removeJoin. apply filter_all, Forall_forall.
    intros j Hj Heq. apply Hfresh. rewrite <- Heq. by apply list_elem_of_fmap_2. }
  destruct (addJoin_outcome _ _ _ _ _ _ Hadd)
    as [(-> & _ & _)|(pre & k & post & B & T & b & bs & t & ts & _ & _ & _ & _
                      & _ & _ & _ & _ & -> & _)]; [done |].
  unfold removeJoin in *. rewrite filter_app, Hkeep, filter_cons, filter_nil. simpl.
  rewrite decide_False by (by intros Hne; apply Hne). by rewrite app_nil_r.
Qed.

(** [removeJoin] leaves no join under the identifier, keeps the other joins
    in their order, and changes nothing when no join has the identifier;
    when the identifiers are distinct it removes exactly one join. *)
Theorem removeJoin_removes_exactly id joins :
  (id ∉ map joinId (removeJoin id joins))
  /\ (forall i, i ≠ id ->
        filter (fun j => joinId j = i) (removeJoin id joins)
        = filter (fun j => joinId j = i) joins)
  /\ removeJoin id joins `sublist_of` joins
  /\ (id ∉ map joinId joins <-> removeJoin id joins = joins)
  /\ (NoDup (map joinId joins) ->
      length (removeJoin id joins)
      = length joins - (if decide (id ∈ map joinId joins) then 1 else 0)).
Proof.
  unfold removeJoin. split; [|split; [|split; [|split]]].
  - intros (j & Hid & Hj)%list_elem_of_fmap.
    apply list_elem_of_filter in Hj as [Hne _]. by destruct Hne.
  - intros i Hne. induction joins as [|j joins IH]; [done |].
    rewrite !filter_cons. destruct (decide (joinId j ≠ id)) as [Hj|Hj].
    + rewrite filter_cons. destruct (decide (joinId j = i)); by rewrite IH.
    + rewrite decide_False; [done |]. intros Heq. apply Hj. congruence.
  - apply sublist_filter.
  - split.
    + intros Hno. apply filter_all, Forall_forall. intros j Hj Heq.
      apply Hno. rewrite <- Heq. by apply list_elem_of_fmap_2.
    + intros Heq (j & Hid & Hj)%list_elem_of_fmap. rewrite <- Heq in Hj.
      apply list_elem_of_filter in Hj as [Hne _]. by destruct Hne.
  - induction joins as [|j joins IH]; [done |]. cbn [map].
    intros [Hnin Hnd]%NoDup_cons. rewrite filter_cons.
    destruct (decide (joinId j ≠ id)) as [Hj|Hj].
    + cbn [length]. rewrite IH by done.
      destruct (decide (id ∈ map joinId joins)) as [Hin|Hout].
      * rewrite decide_True by (by right).
        destruct joins; [by apply elem_of_nil in Hin | simpl; lia].
      * rewrite decide_False; [lia |]. intros [?|?]%elem_of_cons; [by destruct Hj | done].
    + assert (Heq : joinId j = id) by (destruct (decide (joinId j = id)); [done | by destruct Hj]).
      rewrite decide_True by (rewrite <- Heq; left).
      rewrite filter_all; [simpl; lia |].
      apply Forall_forall. intros j' Hj' Heq'. apply Hnin.
      rewrite Heq, <- Heq'. by apply list_elem_of_fmap_2.
Qed.

(** [updateJoin] changes the join under the identifier and nothing else:
    with distinct identifiers, the join at any position is replaced by its
    update when its identifier is used, the other joins and the order stay,
    and an identifier that no join has changes nothing. *)
Theorem updateJoin_updates_one_join joins updates :
  NoDup (map joinId joins) ->
  (forall i j, joins !! i = Some j ->
               updateJoin (joinId j) updates joins = <[i := applyUpdates j updates]> joins)
  /\ (forall id, id ∉ map joinId joins -> updateJoin id updates joins = joins)
  /\ (forall id, length (updateJoin id updates joins) = length joins).
Proof.
  intros Hnd. unfold updateJoin. split; [|split].
  - intros i j Hi. apply list_eq. intros k.
    rewrite list_lookup_fmap. destruct (decide (k = i)) as [->|Hne].
    + rewrite list_lookup_insert_eq by (by apply lookup_lt_Some in Hi).
      rewrite Hi. simpl. by rewrite bool_decide_eq_true_2.
    + rewrite list_lookup_insert_ne by done.
      destruct (joins !! k) as [j'|] eqn:Hk; [|done]. simpl.
      rewrite bool_decide_eq_false_2; [done |]. intros Heq.
      apply Hne. eapply NoDup_lookup; [exact Hnd | |];
        rewrite list_lookup_fmap; [by rewrite Hk | by rewrite Hi; simpl; rewrite Heq].
  - intros id Hno. rewrite <- (map_id joins) at 2. apply map_ext_in.
    intros j Hj%list_elem_of_In. rewrite bool_decide_eq_false_2; [done |].
    intros Heq. apply Hno. rewrite <- Heq. by apply list_elem_of_fmap_2.
  - intros id. apply length_map.
Qed.

End JoinEditor.

(** ** The warning on the right-hand key *)

Section UniquenessWarning.
Context `{JsRuntime}.

Lemma analyzeSheetData_analysed rawRows fileName (t : Table) :
  analyzeSheetData rawRows fileName = Returns (tableData t) -> analysed t.
Proof.
  unfold analyzeSheetData. destruct rawRows as [|firstRow rest]; [done |].
  intros [= Heq]. exists firstRow, rest. by rewrite <- Heq.
Qed.

Lemma find_profile_by_name key rows keys :
  find (fun c => bool_decide (name c = key)) (map (fun k => analyzeColumn k rows) keys)
  = if decide (key ∈ keys) then Some (analyzeColumn key rows) else None.
Proof.
  induction keys as [|k keys IH]; cbn [map find].
  - destruct (decide (key ∈ [])) as [Hin|]; [by apply elem_of_nil in Hin | done].
  - destruct (analyzeColumn_fields k rows) as [-> _].
    destruct (decide (k = key)) as [->|Hne].
    + rewrite bool_decide_eq_true_2 by done.
      destruct (decide (key ∈ key :: keys)) as [|Hn]; [done | destruct Hn; left].
    + rewrite bool_decide_eq_false_2 by done. rewrite IH.
      destruct (decide (key ∈ keys)) as [Hin|Hout];
        destruct (decide (key ∈ k :: keys)) as [Hin'|Hout']; try done.
      * destruct Hout'. by right.
      * by apply elem_of_cons in Hin' as [?|?].
Qed.

Lemma analysed_column_names (t : Table) firstRow rest :
  rows t = firstRow :: rest ->
  columns t = map (fun key => analyzeColumn key (rows t)) (objectKeys firstRow) ->
  map name (columns t) = objectKeys firstRow.
Proof.
  intros _ ->. rewrite map_map. erewrite map_ext; [apply map_id |].
  intros key. by destruct (analyzeColumn_fields key (rows t)) as [-> _].
Qed.

Lemma uniqueCount_le_rows key rows : uniqueCount (analyzeColumn key rows) ≤ length rows.
Proof.
  destruct (analyzeColumn_fields key rows) as (_ & _ & _ & ->).
  destruct (scan_result key rows) as (_ & Hn & -> & _).
  pose proof (foldl_setAdd_length (presentValues key rows) []). simpl in *. lia.
Qed.

(** The warning of the editor, for a table as [analyzeSheetData] builds it:
    the call returns, and it returns a warning exactly when the right column
    is a column of the table and is not a key of its rows (some row has an
    absent value there, or two rows have the same value); the warning then
    shows [uniqueCount] and the number of rows. When the right table is not
    in the collection the call throws, where [executeDataModel] skips the
    join. *)
Theorem getUniquenessWarning_iff_not_a_key
    duplicateKeyWarning (tables : TableCollection) join (rightTable : Table) :
  lookupKey tables (rightTableId join) = Some rightTable ->
  analysed rightTable ->
  let key := rightColumn join in
  let isKey := Forall (fun val => isAbsent val = false) (columnValues key (rows rightTable))
               /\ pairwiseDistinct (columnValues key (rows rightTable)) in
  (key ∈ map name (columns rightTable) /\ ~ isKey ->
   getUniquenessWarning duplicateKeyWarning tables join
   = Returns (Some (duplicateKeyWarning +:+ " ("
                      +:+ pretty (uniqueCount (analyzeColumn key (rows rightTable))) +:+ "/"
                      +:+ pretty (length (rows rightTable)) +:+ " unique)")))
  /\ (~ (key ∈ map name (columns rightTable) /\ ~ isKey) ->
      getUniquenessWarning duplicateKeyWarning tables join = Returns None)
  /\ (forall other, lookupKey tables (rightTableId other) = None ->
        exists msg, getUniquenessWarning duplicateKeyWarning tables other = Throws msg).
Proof.
  intros Hlook (firstRow & rest & Hrows & Hcols & Hcount) key isKey.
  assert (Hnames := analysed_column_names _ _ _ Hrows Hcols).
  assert (Hrun : getUniquenessWarning duplicateKeyWarning tables join
                 = if decide (key ∈ map name (columns rightTable)) then
                     if uniqueCount (analyzeColumn key (rows rightTable))
                        <? length (rows rightTable)
                     then Returns (Some (duplicateKeyWarning +:+ " ("
                            +:+ pretty (uniqueCount (analyzeColumn key (rows rightTable)))
                            +:+ "/" +:+ pretty (length (rows rightTable)) +:+ " unique)"))
                     else Returns None
                   else Returns None).
  { unfold getUniquenessWarning. rewrite Hlook, Hnames.
    rewrite Hcols at 1. rewrite find_profile_by_name. fold key.
    destruct (decide (key ∈ objectKeys firstRow)); [|done]. by rewrite Hcount. }
  assert (Hlt : (uniqueCount (analyzeColumn key (rows rightTable))
                 <? length (rows rightTable)) = true <-> ~ isKey).
  { rewrite Nat.ltb_lt. subst isKey. rewrite <- uniqueCount_full_iff.
    pose proof (uniqueCount_le_rows key (rows rightTable)). lia. }
  split; [|split].
  - intros [Hin Hnk]. rewrite Hrun, decide_True by done.
    apply Hlt in Hnk. by rewrite Hnk.
  - intros Hno. rewrite Hrun. destruct (decide (key ∈ map name (columns rightTable))); [|done].
    destruct (_ <? _) eqn:Hu; [|done]. destruct Hno. split; [done |]. by apply Hlt.
  - intros other Hnone. unfold getUniquenessWarning. rewrite Hnone. eauto.
Qed.

End UniquenessWarning.

(** ** From the workbook to the preview *)

Section Pipeline.
Context `{JsRuntime}.

Lemma joinedTables_total (tables : TableCollection) joins (Ts : list Table) :
  Forall2 (fun j (T : Table) => lookupKey tables (rightTableId j) = Some T) joins Ts ->
  joinedTables tables joins = Ts.
Proof.
  unfold joinedTables. induction 1 as [|j T joins Ts Hj _ IH]; csimpl; [done |].
  by rewrite Hj, IH.
Qed.

(** The suggestions for a loaded workbook, with the tables they join. *)
Lemma suggestions_for_loaded sheetNames sheetToJson tables baseTableId (baseTable : Table) g :
  processFile sheetNames sheetToJson = Returns tables ->
  lookupKey tables baseTableId = Some baseTable ->
  let joins := fst (suggestJoins baseTableId tables g) in
  Forall (fun j => joinType j = LEFT /\ rightTableId j ≠ baseTableId
                   /\ is_Some (lookupKey tables (rightTableId j))) joins
  /\ NoDup (map rightTableId joins)
  /\ map tableName (joinedTables tables joins) = map rightTableId joins
  /\ Forall (fun T : Table => lookupKey tables (id T) = Some T) (joinedTables tables joins).
Proof.
  intros Hload Hbase joins.
  destruct (processFile_loaded _ _ _ Hload) as (_ & Hids & _ & Hloaded & Hfound).
  destruct (suggestJoins_chosen baseTableId tables g baseTable Hbase)
    as (chosen & Hjoins & Hsub & Hall).
  subst joins. rewrite Hjoins. clear Hjoins.
  assert (Hin : forall T : Table, T ∈ map fst chosen ->
                  T ∈ objectValues tables /\ id T ≠ baseTableId).
  { intros T HT. eapply elem_of_sublist in HT; [|exact Hsub].
    apply list_elem_of_filter in HT. by destruct HT. }
  assert (Hright : map rightTableId (map snd chosen) = map id (map fst chosen)).
  { rewrite !map_map. apply map_ext_in. intros [t c] Hp%list_elem_of_In.
    rewrite Forall_forall in Hall. by destruct (Hall _ Hp) as [? _]. }
  assert (Hjoined : joinedTables tables (map snd chosen) = map fst chosen).
  { apply joinedTables_total. apply Forall2_fmap, Forall_Forall2_diag, Forall_forall.
    intros [t c] Hp. simpl. rewrite Forall_forall in Hall.
    destruct (Hall _ Hp) as [Hid _]. simpl in Hid. rewrite Hid. apply Hfound, Hin.
    by apply (list_elem_of_fmap_2 fst) in Hp. }
  split; [|split; [|split]].
  - apply Forall_map, Forall_forall. intros [t c] Hp. simpl.
    rewrite Forall_forall in Hall. destruct (Hall _ Hp) as (Hid & HL & _). simpl in *.
    assert (Ht : t ∈ map fst chosen) by by apply (list_elem_of_fmap_2 fst) in Hp.
    destruct (Hin t Ht) as [Hval Hne]. rewrite Hid.
    split; [done |]. split; [done |]. rewrite (Hfound t Hval). eauto.
  - rewrite Hright. eapply sublist_NoDup; [exact Hids |].
    apply (fmap_sublist id). etrans; [exact Hsub | apply sublist_filter].
  - rewrite Hjoined, Hright. apply map_ext_in. intros T HT%list_elem_of_In.
    destruct (Hin T HT) as [Hval _].
    destruct (Hloaded (id T) T (Hfound T Hval)) as (_ & Hname & _). done.
  - rewrite Hjoined. apply Forall_forall. intros T HT. apply Hfound. by apply Hin.
Qed.

(** The two effects of the editor on a workbook that [processFile] has
    loaded, for any base table of it: the suggested model runs without an
    error and replaces the preview; every suggested join is a LEFT join to a
    table of the workbook other than the base table, no table is joined
    twice and no join is skipped; the result has one row for each row of the
    base sheet, and its columns are those of the base table followed by the
    prefixed columns of the joined tables. *)
Theorem suggested_model_runs_on_a_loaded_workbook
    sheetNames sheetToJson tables baseId (baseTable : Table) g previewData :
  processFile sheetNames sheetToJson = Returns tables ->
  lookupKey tables baseId = Some baseTable ->
  let suggested := fst (suggestEffect tables baseId g) in
  exists ds,
    executeDataModel tables {| baseTableId := baseId; joins := suggested |} = Returns ds
    /\ previewEffect tables baseId suggested previewData = Some ds
    /\ Forall (fun j => joinType j = LEFT /\ rightTableId j ≠ baseId
                        /\ is_Some (lookupKey tables (rightTableId j))) suggested
    /\ NoDup (map rightTableId suggested)
    /\ length (joinedTables tables suggested) = length suggested
    /\ rowCount ds = length (sheetToJson baseId)
    /\ length (rows ds) = length (sheetToJson baseId)
    /\ map name (columns ds)
       = map name (columns baseTable) ++ joinedNames (joinedTables tables suggested).
Proof.
  intros Hload Hbase suggested. unfold suggestEffect in suggested.
  destruct (suggestions_for_loaded _ _ _ _ _ g Hload Hbase) as (Hall & Hnd & Hnames & _).
  fold suggested in Hall, Hnd, Hnames.
  destruct (processFile_loaded _ _ _ Hload) as (_ & _ & _ & Hloaded & _).
  destruct (Hloaded _ _ Hbase) as (_ & _ & _ & Hrows & _).
  unfold previewEffect, executeDataModel. cbn [baseTableId joins].
  rewrite Hbase. eexists. split; [reflexivity |]. split; [reflexivity |].
  cbn [rowCount rows columns].
  assert (Hlen : length (resultRows (foldl (joinStep tables) (initialState baseTable) suggested))
                 = length (sheetToJson baseId)).
  { rewrite joinSteps_length_LEFT.
    - cbn [initialState resultRows]. by rewrite length_map, Hrows.
    - eapply Forall_impl; [exact Hall |]. by intros j [? _]. }
  repeat split; try done.
  - rewrite <- (length_map tableName), Hnames. apply length_map.
  - by rewrite joinSteps_columns.
Qed.

(** On such a workbook the suggested model gives distinct column names,
    when no sheet name and no column of the base sheet contains a dot and
    the keys of the first row of every sheet are distinct: the suggestions
    never join a table twice. *)
Theorem suggested_model_has_distinct_column_names
    sheetNames sheetToJson tables baseId (baseTable : Table) g ds :
  processFile sheetNames sheetToJson = Returns tables ->
  lookupKey tables baseId = Some baseTable ->
  executeDataModel tables {| baseTableId := baseId;
                             joins := fst (suggestJoins baseId tables g) |}
  = Returns ds ->
  Forall (fun k => hasDot k = false
                   /\ NoDup (objectKeys (default [] (head (sheetToJson k))))) sheetNames ->
  Forall (fun c => hasDot c = false) (objectKeys (default [] (head (sheetToJson baseId)))) ->
  NoDup (map name (columns ds)).
Proof.
  intros Hload Hbase Hrun Hsheets Hbasecols.
  destruct (suggestions_for_loaded _ _ _ _ _ g Hload Hbase) as (_ & Hnd & Hnames & Hfound).
  destruct (processFile_loaded _ _ _ Hload) as (_ & _ & Hsome & Hloaded & _).
  assert (Hcolnames : forall k (T : Table), lookupKey tables k = Some T ->
            map name (columns T) = objectKeys (default [] (head (sheetToJson k)))
            /\ tableName T = k /\ k ∈ sheetNames).
  { intros k T HT. destruct (Hloaded k T HT) as (_ & Hname & Han & _).
    destruct (analyzeSheetData_columns _ _ _ Han) as (_ & _ & Hcn & _).
    split; [done |]. split; [done |]. apply Hsome. eauto. }
  destruct (executeDataModel_Returns _ _ _ Hrun) as (b & Hb & _ & -> & _).
  cbn [baseTableId joins] in *. rewrite Hbase in Hb. injection Hb as <-.
  rewrite joinSteps_columns. cbn [initialState resultColumns].
  destruct (Hcolnames _ _ Hbase) as (Hbn & _ & Hbin).
  rewrite Forall_forall in Hsheets.
  destruct (prefixed_columns_NoDup (joinedTables tables (fst (suggestJoins baseId tables g))))
    as [Hnew Hshape].
  - by rewrite Hnames.
  - apply Forall_forall. intros T HT. rewrite Forall_forall in Hfound.
    destruct (Hcolnames _ _ (Hfound T HT)) as (HTn & HTname & HTin).
    destruct (Hsheets _ HTin) as [Hdot HndT].
    split; [by rewrite HTn |]. destruct (Hloaded _ _ (Hfound T HT)) as (_ & -> & _). done.
  - apply NoDup_app. split; [|split; [|done]].
    + rewrite Hbn. by destruct (Hsheets _ Hbin).
    + intros x Hx (T & c & _ & Heq)%Hshape. rewrite Hbn in Hx.
      rewrite Forall_forall in Hbasecols. specialize (Hbasecols x Hx).
      by rewrite Heq, hasDot_prefixed in Hbasecols.
Qed.

End Pipeline.

(** ** What a join leaves of the base rows *)

Lemma sublist_full {A : Type} (l1 l2 : list A) :
  l1 `sublist_of` l2 -> length l2 ≤ length l1 -> l1 = l2.
Proof.
  induction 1 as [|x l1 l2 Hsub IH|x l1 l2 Hsub IH]; simpl; intros Hlen; [done | |].
  - f_equal. apply IH. lia.
  - apply sublist_length in Hsub. lia.
Qed.

Lemma omap_Forall2_sublist {A B : Type} (f : A -> option A) (R R' : A -> B -> Prop)
    (l : list A) (kept : list B) :
  Forall2 R l kept ->
  (forall a a' b, f a = Some a' -> R a b -> R' a' b) ->
  exists kept', kept' `sublist_of` kept /\ Forall2 R' (omap f l) kept'.
Proof.
  intros Hl Hstep. induction Hl as [|a b l kept Hab _ (kept' & Hsub & Hall)]; csimpl.
  - exists []. by split.
  - destruct (f a) as [a'|] eqn:Hfa; simpl.
    + exists (b :: kept'). split; [by apply sublist_skip |]. constructor; [|done].
      by apply (Hstep a).
    + exists kept'. split; [by apply sublist_cons | done].
Qed.

Section BaseValues.
Context `{JsRuntime}.

Lemma mergeNulls_other p cols leftRow k :
  Forall (fun c => prefixed p (name c) ≠ k) cols ->
  getField (mergeNulls p cols leftRow) k = getField leftRow k.
Proof.
  induction cols as [|c cols IH] using rev_ind; [intros _; reflexivity |].
  intros [Hcols Hc]%Forall_app. rewrite Forall_singleton in Hc.
  rewrite mergeNulls_snoc, getField_setField_ne by done. by apply IH.
Qed.

Lemma joinedRow_agree join (rightTable : Table) rightMap leftRow merged :
  joinedRow join rightTable rightMap leftRow = Some merged ->
  agreeOutside (joinedNames [rightTable]) merged leftRow.
Proof.
  intros Hrow k Hk.
  assert (Hcols : Forall (fun c => prefixed (tableName rightTable) (name c) ≠ k)
                         (columns rightTable)).
  { apply Forall_forall. intros c Hc Heq. apply Hk. unfold joinedNames. csimpl.
    rewrite app_nil_r, <- Heq. by apply (list_elem_of_fmap_2 (fun c => prefixed _ (name c))). }
  unfold joinedRow in Hrow. destruct (rightMap !! _) as [rightRow|].
  - injection Hrow as <-. by apply mergeMatched_other.
  - destruct (joinType join); [|done]. injection Hrow as <-. by apply mergeNulls_other.
Qed.

Lemma joinedNames_cons (T : Table) Ts : joinedNames (T :: Ts) = joinedNames [T] ++ joinedNames Ts.
Proof. unfold joinedNames. csimpl. by rewrite app_nil_r. Qed.

Lemma joinedTables_cons (tables : TableCollection) j js :
  joinedTables tables (j :: js)
  = match lookupKey tables (rightTableId j) with
    | Some T => T :: joinedTables tables js
    | None => joinedTables tables js
    end.
Proof. unfold joinedTables. csimpl. by destruct (lookupKey tables (rightTableId j)). Qed.

Lemma joinSteps_agree tables js st names (kept : list DataRow) :
  Forall2 (agreeOutside names) (resultRows st) kept ->
  exists kept',
    kept' `sublist_of` kept
    /\ Forall2 (agreeOutside (names ++ joinedNames (joinedTables tables js)))
               (resultRows (foldl (joinStep tables) st js)) kept'.
Proof.
  revert st names kept. induction js as [|j js IH]; intros st names kept Hst.
  - exists kept. split; [done |]. unfold joinedTables, joinedNames. csimpl.
    by rewrite app_nil_r.
  - cbn [foldl]. rewrite joinedTables_cons.
    destruct (lookupKey tables (rightTableId j)) as [T|] eqn:HT.
    + destruct (omap_Forall2_sublist
                  (joinedRow j T (buildRightMap (rightColumn j) (rows T)))
                  (agreeOutside names) (agreeOutside (names ++ joinedNames [T]))
                  (resultRows st) kept Hst) as (kept1 & Hsub1 & Hall1).
      { intros a a' b Ha Hab k Hk. rewrite not_elem_of_app in Hk. destruct Hk as [Hk1 Hk2].
        rewrite (joinedRow_agree _ _ _ _ _ Ha k Hk2). by apply Hab. }
      rewrite <- (joinStep_rows tables st j T HT) in Hall1.
      destruct (IH _ _ _ Hall1) as (kept' & Hsub & Hall).
      exists kept'. split; [by etrans |].
      by rewrite joinedNames_cons, app_assoc.
    + rewrite joinStep_skip by done. by apply IH.
Qed.

(** A model never changes what the base table holds: every row of the
    result stands for a row of the base table, in the order of the base
    table, and holds the value of that row under every key that is not the
    prefixed name of a column of a joined table. When every join is LEFT,
    the rows of the result stand for all the rows of the base table. *)
Theorem executeDataModel_keeps_base_values (tables : TableCollection) model ds
    (baseTable : Table) :
  executeDataModel tables model = Returns ds ->
  lookupKey tables (baseTableId model) = Some baseTable ->
  exists kept,
    kept `sublist_of` rows baseTable
    /\ Forall2 (agreeOutside (joinedNames (joinedTables tables (joins model)))) (rows ds) kept
    /\ (Forall (fun j => joinType j = LEFT) (joins model) -> kept = rows baseTable).
Proof.
  intros Hrun Hbase.
  destruct (executeDataModel_Returns _ _ _ Hrun) as (b & Hb & -> & _).
  rewrite Hbase in Hb. injection Hb as <-.
  destruct (joinSteps_agree tables (joins model) (initialState baseTable) [] (rows baseTable))
    as (kept & Hsub & Hall).
  { cbn [initialState resultRows]. unfold spread. rewrite map_id.
    apply Forall_Forall2_diag, Forall_forall. by intros r _ k _. }
  exists kept. split; [done |]. split; [done |].
  intros HL. apply sublist_full; [done |].
  rewrite <- (Forall2_length _ _ _ Hall), joinSteps_length_LEFT by done.
  cbn [initialState resultRows]. by rewrite length_map.
Qed.

End BaseValues.

(** ** A join column that a table does not have *)

Lemma omap_ext_in {A B : Type} (f g : A -> option B) (l : list A) :
  Forall (fun a => f a = g a) l -> omap f l = omap g l.
Proof. induction 1 as [|a l Ha _ IH]; csimpl; [done |]. by rewrite Ha, IH. Qed.

Lemma omap_Some_map {A B : Type} (f : A -> B) (l : list A) : omap (fun a => Some (f a)) l = map f l.
Proof. induction l as [|a l IH]; csimpl; [done |]. by rewrite IH. Qed.

Section AbsentJoinColumn.
Context `{JsRuntime}.

(** No error is raised for a join column that the rows do not have: the
    value read is [undefined], and its string is the key. When no row of
    the right table has the right column, all of them go under the key
    ["undefined"] and the last one stays: an accumulator row is matched,
    with that last row, exactly when its own value prints as ["undefined"],
    and else it is unmatched (kept with nulls by a LEFT join, dropped by an
    INNER join). So when the left column is missing as well, every row is
    matched with the last row of the right table, whatever the join type.
    This is for names that a row does not inherit: the two join columns and
    the columns of the right table are no names of members of
    [Object.prototype], for which a row without the key gives the inherited
    function and not [undefined]. *)
Theorem join_on_an_absent_right_column (tables : TableCollection) st join
    (rightTable : Table) pre r :
  lookupKey tables (rightTableId join) = Some rightTable ->
  rows rightTable = pre ++ [r] ->
  Forall (fun r' => getField r' (rightColumn join) = VUndefined) (rows rightTable) ->
  rightColumn join ∉ objectPrototypeNames ->
  leftColumn join ∉ objectPrototypeNames ->
  Forall (fun c => name c ∉ objectPrototypeNames) (columns rightTable) ->
  resultRows (joinStep tables st join)
  = omap (fun leftRow =>
            if decide (toJsString (getField leftRow (leftColumn join)) = "undefined")
            then Some (mergeMatched (tableName rightTable) (columns rightTable) r leftRow)
            else match joinType join with
                 | LEFT => Some (mergeNulls (tableName rightTable) (columns rightTable) leftRow)
                 | INNER => None
                 end)
         (resultRows st)
  /\ (Forall (fun leftRow => getField leftRow (leftColumn join) = VUndefined) (resultRows st) ->
      resultRows (joinStep tables st join)
      = map (mergeMatched (tableName rightTable) (columns rightTable) r) (resultRows st)).
Proof.
  intros Hlook Hrows Hundef _ _ _.
  assert (Hr : getField r (rightColumn join) = VUndefined).
  { rewrite Hrows, Forall_app, Forall_singleton in Hundef. by destruct Hundef. }
  assert (Hhit : buildRightMap (rightColumn join) (rows rightTable) !! "undefined" = Some r).
  { rewrite Hrows. pose proof (buildRightMap_last (rightColumn join) pre r []) as Hlast.
    rewrite Hr in Hlast. simpl in Hlast. apply Hlast. constructor. }
  assert (Hmiss : forall k, k ≠ "undefined" ->
                    buildRightMap (rightColumn join) (rows rightTable) !! k = None).
  { intros k Hk. apply buildRightMap_None.
    eapply Forall_impl; [exact Hundef |]. intros r' Hr'. rewrite Hr'. simpl. congruence. }
  assert (Hstep : resultRows (joinStep tables st join)
                  = omap (fun leftRow =>
                      if decide (toJsString (getField leftRow (leftColumn join)) = "undefined")
                      then Some (mergeMatched (tableName rightTable) (columns rightTable)
                                              r leftRow)
                      else match joinType join with
                           | LEFT => Some (mergeNulls (tableName rightTable)
                                                      (columns rightTable) leftRow)
                           | INNER => None
                           end)
                    (resultRows st)).
  { rewrite (joinStep_rows _ _ _ _ Hlook). apply omap_ext_in, Forall_forall.
    intros leftRow _. unfold joinedRow.
    destruct (decide (toJsString (getField leftRow (leftColumn join)) = "undefined"))
      as [Heq|Hne].
    - by rewrite Heq, Hhit.
    - by rewrite (Hmiss _ Hne). }
  split; [exact Hstep |].
  intros Hleft. rewrite Hstep, <- omap_Some_map. apply omap_ext_in.
  eapply Forall_impl; [exact Hleft |]. intros leftRow Hl. simpl.
  rewrite Hl. cbn [toJsString]. by rewrite decide_True.
Qed.

End AbsentJoinColumn.

(** ** The shape of the result *)

Lemma setField_setKey (row : DataRow) k v : setField row k v = setKey row k v.
Proof. induction row as [|[k' v'] row IH]; simpl; [done |]. by rewrite IH. Qed.

Lemma setField_is_Some (row : DataRow) k v k' :
  is_Some (lookupKey (setField row k v) k') <-> k' = k \/ is_Some (lookupKey row k').
Proof.
  rewrite setField_setKey. destruct (decide (k = k')) as [->|Hne].
  - rewrite lookupKey_setKey_eq. split; [by left | eauto].
  - rewrite lookupKey_setKey_ne by done. split; [by right | by intros [?|?]].
Qed.

Section ResultShape.
Context `{JsRuntime}.

Lemma mergeMatched_is_Some p cols rightRow leftRow k :
  is_Some (lookupKey (mergeMatched p cols rightRow leftRow) k)
  <-> is_Some (lookupKey leftRow k) \/ k ∈ map (fun c => prefixed p (name c)) cols.
Proof.
  induction cols as [|c cols IH] using rev_ind.
  - unfold mergeMatched, spread. simpl. split; [by left | by intros [?|?%elem_of_nil]].
  - rewrite mergeMatched_snoc, setField_is_Some, IH, map_app, elem_of_app. simpl.
    rewrite list_elem_of_singleton. intuition.
Qed.

Lemma mergeNulls_is_Some p cols leftRow k :
  is_Some (lookupKey (mergeNulls p cols leftRow) k)
  <-> is_Some (lookupKey leftRow k) \/ k ∈ map (fun c => prefixed p (name c)) cols.
Proof.
  induction cols as [|c cols IH] using rev_ind.
  - unfold mergeNulls, spread. simpl. split; [by left | by intros [?|?%elem_of_nil]].
  - rewrite mergeNulls_snoc, setField_is_Some, IH, map_app, elem_of_app. simpl.
    rewrite list_elem_of_singleton. intuition.
Qed.

Lemma joinedRow_is_Some join (rightTable : Table) rightMap leftRow merged k :
  joinedRow join rightTable rightMap leftRow = Some merged ->
  is_Some (lookupKey merged k)
  <-> is_Some (lookupKey leftRow k)
      \/ k ∈ map (fun c => prefixed (tableName rightTable) (name c)) (columns rightTable).
Proof.
  unfold joinedRow. destruct (rightMap !! _) as [rightRow|].
  - intros [= <-]. apply mergeMatched_is_Some.
  - destruct (joinType join); [|done]. intros [= <-]. apply mergeNulls_is_Some.
Qed.

Lemma joinStep_rectangular tables st join :
  rectangular (resultRows st) (resultColumns st) ->
  rectangular (resultRows (joinStep tables st join)) (resultColumns (joinStep tables st join)).
Proof.
  intros Hst. destruct (lookupKey tables (rightTableId join)) as [T|] eqn:HT.
  - rewrite (joinStep_rows _ _ _ _ HT). unfold joinStep. rewrite HT.
    cbn [resultColumns]. unfold rectangular in *. rewrite Forall_forall in *.
    intros merged (leftRow & Hl & Hm)%list_elem_of_omap.
    apply Forall_app. split.
    + eapply Forall_impl; [exact (Hst _ Hl) |]. intros c Hc. simpl in Hc.
      apply (joinedRow_is_Some _ _ _ _ _ _ Hm). by left.
    + apply Forall_map, Forall_forall. intros c Hc. simpl.
      apply (joinedRow_is_Some _ _ _ _ _ _ Hm). right.
      by apply (list_elem_of_fmap_2 (fun c => prefixed _ (name c))).
  - by rewrite joinStep_skip.
Qed.

Lemma joinSteps_rectangular tables st js :
  rectangular (resultRows st) (resultColumns st) ->
  rectangular (resultRows (foldl (joinStep tables) st js))
              (resultColumns (foldl (joinStep tables) st js)).
Proof.
  revert st. induction js as [|j js IH]; intros st Hst; simpl; [done |].
  by apply IH, joinStep_rectangular.
Qed.

(** The result is as rectangular as the base table, whatever the joined
    tables hold: when every row of the base table has a field for every
    column of the base table, every row of the result has a field for every
    column of the result. *)
Theorem executeDataModel_result_is_rectangular (tables : TableCollection) model ds
    (baseTable : Table) :
  executeDataModel tables model = Returns ds ->
  lookupKey tables (baseTableId model) = Some baseTable ->
  rectangular (rows baseTable) (columns baseTable) ->
  rectangular (rows ds) (columns ds).
Proof.
  intros Hrun Hbase Hrect.
  destruct (executeDataModel_Returns _ _ _ Hrun) as (b & Hb & -> & -> & _).
  rewrite Hbase in Hb. injection Hb as <-.
  apply joinSteps_rectangular. cbn [initialState resultRows resultColumns].
  unfold spread. by rewrite map_id.
Qed.

Lemma joinSteps_dimensions tables st js :
  currentDimensions (foldl (joinStep tables) st js)
  = currentDimensions st
    ++ (joinedTables tables js ≫= fun T : Table => map (prefixed (tableName T)) (dimensions T)).
Proof.
  revert st. induction js as [|j js IH]; intros st.
  - unfold joinedTables. csimpl. by rewrite app_nil_r.
  - cbn [foldl]. rewrite IH, joinedTables_cons. unfold joinStep.
    destruct (lookupKey tables (rightTableId j)) as [T|]; csimpl; [|done].
    by rewrite <- app_assoc.
Qed.

Lemma result_names_its_columns (tables : TableCollection) model ds
    (baseTable : Table) :
  executeDataModel tables model = Returns ds ->
  lookupKey tables (baseTableId model) = Some baseTable ->
  namesItsColumns baseTable ->
  Forall (fun T : Table => Forall (fun d => d ∈ map name (columns T)) (dimensions T))
         (joinedTables tables (joins model)) ->
  namesItsColumns ds.
Proof.
  intros Hrun Hbase (Hdims & Hdate & Hmeasure) Hjoined.
  assert (Hprim : primaryDateColumn ds = primaryDateColumn baseTable
                  /\ primaryMeasureColumn ds = primaryMeasureColumn baseTable).
  { unfold executeDataModel in Hrun. rewrite Hbase in Hrun. by injection Hrun as <-. }
  destruct Hprim as [Hpd Hpm].
  destruct (executeDataModel_Returns _ _ _ Hrun) as (b & Hb & _ & Hcols & Hds & _).
  rewrite Hbase in Hb. injection Hb as <-.
  assert (Hnames := joinSteps_columns tables (initialState baseTable) (joins model)).
  rewrite <- Hcols in Hnames. cbn [initialState resultColumns] in Hnames.
  unfold namesItsColumns. rewrite Hnames, Hpd, Hpm, Hds, joinSteps_dimensions.
  cbn [initialState currentDimensions].
  split; [|split].
  - apply Forall_app. split.
    + eapply Forall_impl; [exact Hdims |]. intros d Hd. apply elem_of_app. by left.
    + apply Forall_forall. intros x (T & (d & -> & Hd)%list_elem_of_fmap & HT)%list_elem_of_bind.
      apply elem_of_app. right. apply list_elem_of_bind. exists T. split; [|done].
      rewrite Forall_forall in Hjoined. specialize (Hjoined T HT).
      rewrite Forall_forall in Hjoined. specialize (Hjoined d Hd).
      apply list_elem_of_fmap in Hjoined as (c & -> & Hc).
      by apply (list_elem_of_fmap_2 (fun c => prefixed _ (name c))).
  - intros d Hd. apply elem_of_app. left. by apply Hdate.
  - intros m Hm. apply elem_of_app. left. by apply Hmeasure.
Qed.

(** The dimensions and the date and measure columns of the result are names
    of its columns, when this holds of the base table and the dimensions of
    every joined table are names of its columns. *)
Theorem executeDataModel_result_names_its_columns (tables : TableCollection) model ds
    (baseTable : Table) :
  executeDataModel tables model = Returns ds ->
  lookupKey tables (baseTableId model) = Some baseTable ->
  namesItsColumns baseTable ->
  Forall (fun T : Table => Forall (fun d => d ∈ map name (columns T)) (dimensions T))
         (joinedTables tables (joins model)) ->
  namesItsColumns ds.
Proof. apply result_names_its_columns. Qed.

End ResultShape.

(** ** The properties on the example workbook *)

Lemma exLoaded_loaded :
  @processFile exampleRuntime exSheetNames exWorkbook = Returns exLoaded.
Proof. vm_compute. reflexivity. Qed.

Lemma processFile_tables_witness :
  @processFile exampleRuntime exSheetNames exWorkbook = Returns exLoaded
  /\ NoDup (objectKeys exLoaded)
  /\ NoDup (map id (objectValues exLoaded))
  /\ (forall t : Table, t ∈ objectValues exLoaded -> lookupKey exLoaded (id t) = Some t).
Proof.
  split; [exact exLoaded_loaded |].
  destruct (@processFile_tables exampleRuntime exSheetNames exWorkbook exLoaded
              exLoaded_loaded) as (Hkeys & Hids & _ & _ & Hfound).
  split; [exact Hkeys |]. split; [exact Hids | exact Hfound].
Defined.

(** A sheet named [__proto__] gives the collection no key: a workbook
    whose only sheet with rows has that name is rejected as empty. *)
Lemma processFile_sheet_named_proto :
  @processFile exampleRuntime ["__proto__"; "Empty"]
     (fun name => if decide (name = "__proto__") then exCustomerSheet else [])
  = Throws "No valid data found in any sheet.".
Proof. reflexivity. Qed.

Lemma analyzeSheetData_primary_columns_witness :
  exists ds,
    @analyzeSheetData exampleRuntime exSales "Sales" = Returns ds
    /\ primaryDateColumn ds = Some "day"
    /\ primaryMeasureColumn ds = Some "amt"
    /\ dimensions ds = ["region"]
    /\ (forall d, d ∈ dimensions ds ->
          primaryDateColumn ds ≠ Some d /\ primaryMeasureColumn ds ≠ Some d).
Proof.
  eexists. split; [vm_compute; reflexivity |].
  split; [reflexivity |]. split; [reflexivity |]. split; [reflexivity |].
  refine (proj1 (proj2 (proj2
            (@analyzeSheetData_primary_columns exampleRuntime exSales "Sales" _ eq_refl _)))).
  intros n cols. reflexivity.
Defined.

Lemma addJoin_adds_first_unjoined_table_witness :
  ([exAddedJoin] = [] /\ 1 = 0
   /\ Forall (fun k => k = "Orders" \/ k ∈ map rightTableId []) (objectKeys exTables))
  \/ (exists pre k post (B T : Table) b bs t ts,
        objectKeys exTables = pre ++ k :: post
        /\ Forall (fun k' => k' = "Orders" \/ k' ∈ map rightTableId []) pre
        /\ k ≠ "Orders" /\ (k ∉ map rightTableId [])
        /\ lookupKey exTables "Orders" = Some B /\ columns B = b :: bs
        /\ lookupKey exTables k = Some T /\ columns T = t :: ts
        /\ [exAddedJoin] = [] ++ [ {| joinId := fst (@randomUUID exampleRuntime 0);
                                      rightTableId := k;
                                      leftColumn := name b;
                                      rightColumn := name t;
                                      joinType := LEFT |} ]
        /\ 1 = snd (@randomUUID exampleRuntime 0)).
Proof.
  apply (@addJoin_adds_first_unjoined_table exampleRuntime exTables "Orders" [] 0
           [exAddedJoin] 1).
  vm_compute. reflexivity.
Defined.

Lemma addJoin_keeps_right_tables_distinct_witness :
  NoDup (map rightTableId [exAddedJoin])
  /\ Forall (fun j => rightTableId j ≠ "Orders" /\ rightTableId j ∈ objectKeys exTables)
            [exAddedJoin]
  /\ [] `prefix_of` [exAddedJoin]
  /\ length [exAddedJoin] ≤ length (objectKeys exTables).
Proof.
  apply (@addJoin_keeps_right_tables_distinct exampleRuntime exTables "Orders" [] 0
           [exAddedJoin] 1).
  - vm_compute. reflexivity.
  - simpl. constructor.
  - constructor.
Defined.

Lemma removeJoin_undoes_addJoin_witness : removeJoin "uuid-0" [exAddedJoin] = [].
Proof.
  apply (@removeJoin_undoes_addJoin exampleRuntime exTables "Orders" [] 0 [exAddedJoin] 1).
  - vm_compute. reflexivity.
  - simpl. apply not_elem_of_nil.
Defined.

Lemma updateJoin_updates_one_join_witness :
  updateJoin "j1" (mkJoinUpdates None None None None (Some INNER)) [exStaleJoin; exJoin LEFT]
  = [exStaleJoin; exJoin INNER].
Proof.
  refine (proj1 (updateJoin_updates_one_join [exStaleJoin; exJoin LEFT]
                   (mkJoinUpdates None None None None (Some INNER)) _)
            1 (exJoin LEFT) eq_refl).
  simpl. apply (bool_decide_unpack _). vm_compute. exact I.
Defined.

Lemma getUniquenessWarning_iff_not_a_key_witness :
  @getUniquenessWarning "Warning: Right-side key is not unique. This may cause row duplication."
    exLoaded exTierJoin
  = Returns (Some "Warning: Right-side key is not unique. This may cause row duplication. (1/2 unique)").
Proof.
  refine (proj1 (@getUniquenessWarning_iff_not_a_key exampleRuntime
                   "Warning: Right-side key is not unique. This may cause row duplication."
                   exLoaded exTierJoin exLoadedCustomers eq_refl _) _).
  - exists [("cust", VString "A"); ("tier", VString "gold")],
           [[("cust", VString "B"); ("tier", VString "gold")]].
    split; [reflexivity |]. split; [vm_compute; reflexivity | reflexivity].
  - split.
    + simpl. right. left.
    + intros [_ Hdistinct].
      specialize (Hdistinct 0 1 (VString "gold") (VString "gold") eq_refl eq_refl).
      simpl in Hdistinct. discriminate Hdistinct. lia.
Defined.

Lemma suggested_model_runs_on_a_loaded_workbook_witness :
  exists ds,
    @executeDataModel exampleRuntime exLoaded
      {| baseTableId := "Orders";
         joins := fst (@suggestJoins exampleRuntime "Orders" exLoaded 0) |} = Returns ds
    /\ rowCount ds = 3
    /\ NoDup (map rightTableId (fst (@suggestJoins exampleRuntime "Orders" exLoaded 0))).
Proof.
  destruct (@suggested_model_runs_on_a_loaded_workbook exampleRuntime exSheetNames exWorkbook
              exLoaded "Orders" exLoadedOrders 0 None exLoaded_loaded eq_refl)
    as (ds & Hrun & _ & _ & Hnd & _ & Hcount & _).
  exists ds. split; [exact Hrun |]. split; [exact Hcount | exact Hnd].
Defined.

Lemma suggested_model_has_distinct_column_names_witness :
  exists ds,
    @executeDataModel exampleRuntime exLoaded
      {| baseTableId := "Orders";
         joins := fst (@suggestJoins exampleRuntime "Orders" exLoaded 0) |} = Returns ds
    /\ NoDup (map name (columns ds)).
Proof.
  eexists. split; [vm_compute; reflexivity |].
  apply (@suggested_model_has_distinct_column_names exampleRuntime exSheetNames exWorkbook
           exLoaded "Orders" exLoadedOrders 0 _ exLoaded_loaded eq_refl eq_refl).
  - repeat constructor; try done; simpl;
      apply (bool_decide_unpack _); vm_compute; exact I.
  - repeat constructor; done.
Defined.

Lemma executeDataModel_keeps_base_values_witness :
  exists ds kept,
    @executeDataModel exampleRuntime exTables (mkDataModel "Orders" [exJoin LEFT]) = Returns ds
    /\ kept `sublist_of` rows exOrders
    /\ Forall2 (agreeOutside (joinedNames [exCustomers])) (rows ds) kept.
Proof.
  eexists.
  destruct (@executeDataModel_keeps_base_values exampleRuntime exTables
              (mkDataModel "Orders" [exJoin LEFT]) _ exOrders eq_refl eq_refl)
    as (kept & Hsub & Hall & _).
  exists kept. split; [reflexivity |]. split; [exact Hsub | exact Hall].
Defined.

Lemma join_on_an_absent_right_column_witness :
  resultRows (@joinStep exampleRuntime exTables (initialState exOrders) (exAbsentJoin INNER))
  = map (mergeMatched "Customers" (columns exCustomers)
           [("cust", VString "A"); ("tier", VString "gold")])
        (rows exOrders).
Proof.
  refine (proj2 (@join_on_an_absent_right_column exampleRuntime exTables
                   (initialState exOrders) (exAbsentJoin INNER) exCustomers []
                   [("cust", VString "A"); ("tier", VString "gold")] eq_refl eq_refl _ _ _ _) _).
  - repeat constructor.
  - apply (bool_decide_unpack _). by vm_compute.
  - apply (bool_decide_unpack _). by vm_compute.
  - apply (bool_decide_unpack _). by vm_compute.
  - repeat constructor.
Defined.

Lemma executeDataModel_result_is_rectangular_witness :
  exists ds,
    @executeDataModel exampleRuntime exTables (mkDataModel "Orders" [exJoin INNER]) = Returns ds
    /\ rectangular (rows ds) (columns ds).
Proof.
  eexists. split; [reflexivity |].
  apply (@executeDataModel_result_is_rectangular exampleRuntime exTables
           (mkDataModel "Orders" [exJoin INNER]) _ exOrders eq_refl eq_refl).
  repeat constructor; by eexists.
Defined.

Lemma executeDataModel_result_names_its_columns_witness :
  exists ds,
    @executeDataModel exampleRuntime exTables (mkDataModel "Orders" [exJoin LEFT]) = Returns ds
    /\ namesItsColumns ds.
Proof.
  eexists. split; [reflexivity |].
  apply (@executeDataModel_result_names_its_columns exampleRuntime exTables
           (mkDataModel "Orders" [exJoin LEFT]) _ exOrders eq_refl eq_refl).
  - split; [constructor |]. split; [by intros d [=] |].
    intros m [= <-]. simpl. left.
  - repeat constructor.
Defined.

(** ** The order of two joins *)

Section JoinOrder.
Context `{JsRuntime}.

Lemma joinedNames_single (T : Table) k :
  k ∈ joinedNames [T] <-> exists c, c ∈ columns T /\ k = prefixed (tableName T) (name c).
Proof.
  unfold joinedNames. csimpl. rewrite app_nil_r, list_elem_of_fmap.
  split; intros (c & ? & ?); by exists c.
Qed.

(** The fields that a join adds depend on the accumulator row through the
    value of the left column only. *)
Lemma joinedRow_added join (rightTable : Table) rightMap l l' :
  getField l (leftColumn join) = getField l' (leftColumn join) ->
  match joinedRow join rightTable rightMap l, joinedRow join rightTable rightMap l' with
  | Some r, Some r' => forall k, k ∈ joinedNames [rightTable] -> getField r k = getField r' k
  | None, None => True
  | _, _ => False
  end.
Proof.
  intros Hkey. unfold joinedRow. rewrite Hkey.
  destruct (rightMap !! _) as [rightRow|].
  - intros k (c & Hc & ->)%joinedNames_single. by rewrite !mergeMatched_prefixed.
  - destruct (joinType join); [|done].
    intros k (c & Hc & ->)%joinedNames_single. by rewrite !mergeNulls_prefixed.
Qed.

Lemma joinedRow_twice j1 j2 (T1 T2 : Table) m1 m2 l :
  leftColumn j2 ∉ joinedNames [T1] ->
  leftColumn j1 ∉ joinedNames [T2] ->
  (forall k, k ∈ joinedNames [T1] -> k ∉ joinedNames [T2]) ->
  match joinedRow j1 T1 m1 l ≫= joinedRow j2 T2 m2,
        joinedRow j2 T2 m2 l ≫= joinedRow j1 T1 m1 with
  | Some r, Some r' => sameFields r r'
  | None, None => True
  | _, _ => False
  end.
Proof.
  intros H21 H12 Hdisj.
  destruct (joinedRow j1 T1 m1 l) as [r1|] eqn:Hr1;
    destruct (joinedRow j2 T2 m2 l) as [r2|] eqn:Hr2; csimpl.
  - pose proof (joinedRow_agree _ _ _ _ _ Hr1) as Ha1.
    pose proof (joinedRow_agree _ _ _ _ _ Hr2) as Ha2.
    pose proof (joinedRow_added j2 T2 m2 r1 l (Ha1 _ H21)) as Hadd2.
    pose proof (joinedRow_added j1 T1 m1 r2 l (Ha2 _ H12)) as Hadd1.
    rewrite Hr2 in Hadd2. rewrite Hr1 in Hadd1.
    destruct (joinedRow j2 T2 m2 r1) as [r12|] eqn:Hr12; [|done].
    destruct (joinedRow j1 T1 m1 r2) as [r21|] eqn:Hr21; [|done].
    pose proof (joinedRow_agree _ _ _ _ _ Hr12) as Ha12.
    pose proof (joinedRow_agree _ _ _ _ _ Hr21) as Ha21.
    intros k.
    destruct (decide (k ∈ joinedNames [T1])) as [Hk1|Hk1];
      destruct (decide (k ∈ joinedNames [T2])) as [Hk2|Hk2].
    + by destruct (Hdisj k Hk1).
    + rewrite (Ha12 k Hk2). symmetry. by apply Hadd1.
    + rewrite (Ha21 k Hk1). by apply Hadd2.
    + by rewrite (Ha12 k Hk2), (Ha1 k Hk1), (Ha21 k Hk1), (Ha2 k Hk2).
  - pose proof (joinedRow_agree _ _ _ _ _ Hr1) as Ha1.
    pose proof (joinedRow_added j2 T2 m2 r1 l (Ha1 _ H21)) as Hadd2.
    rewrite Hr2 in Hadd2. by destruct (joinedRow j2 T2 m2 r1).
  - pose proof (joinedRow_agree _ _ _ _ _ Hr2) as Ha2.
    pose proof (joinedRow_added j1 T1 m1 r2 l (Ha2 _ H12)) as Hadd1.
    rewrite Hr1 in Hadd1. by destruct (joinedRow j1 T1 m1 r2).
  - done.
Qed.

Lemma omap_twice_Forall2 {A : Type} (f g f' g' : A -> option A) (R : A -> A -> Prop)
    (l : list A) :
  (forall a, match f a ≫= g, f' a ≫= g' with
             | Some r, Some r' => R r r'
             | None, None => True
             | _, _ => False
             end) ->
  Forall2 R (omap g (omap f l)) (omap g' (omap f' l)).
Proof.
  intros Hstep. induction l as [|a l IH]; csimpl; [constructor |].
  specialize (Hstep a).
  destruct (f a) as [b|], (f' a) as [b'|]; csimpl in *.
  - destruct (g b), (g' b'); try done. by constructor.
  - by destruct (g b).
  - by destruct (g' b').
  - done.
Qed.

(** Two joins can be made in either order: when neither joins on a column
    that the other adds and the columns they add have different names, the
    two orders give the same rows, in the same order, up to the order of the
    fields within a row, and the same column names up to their order. This
    holds for LEFT and INNER joins alike. *)
Theorem two_joins_commute (tables : TableCollection) st j1 j2 (T1 T2 : Table) :
  lookupKey tables (rightTableId j1) = Some T1 ->
  lookupKey tables (rightTableId j2) = Some T2 ->
  leftColumn j2 ∉ joinedNames [T1] ->
  leftColumn j1 ∉ joinedNames [T2] ->
  (forall k, k ∈ joinedNames [T1] -> k ∉ joinedNames [T2]) ->
  Forall2 sameFields
          (resultRows (foldl (joinStep tables) st [j1; j2]))
          (resultRows (foldl (joinStep tables) st [j2; j1]))
  /\ map name (resultColumns (foldl (joinStep tables) st [j1; j2]))
     ≡ₚ map name (resultColumns (foldl (joinStep tables) st [j2; j1])).
Proof.
  intros HT1 HT2 H21 H12 Hdisj. split.
  - cbn [foldl].
    rewrite (joinStep_rows _ _ _ _ HT2), (joinStep_rows _ _ _ _ HT1).
    rewrite (joinStep_rows _ _ _ _ HT1), (joinStep_rows _ _ _ _ HT2).
    apply omap_twice_Forall2. intros l. by apply joinedRow_twice.
  - rewrite !joinSteps_columns. apply Permutation_app_head.
    unfold joinedTables. csimpl. rewrite HT1, HT2. csimpl.
    rewrite !app_nil_r. apply Permutation_app_comm.
Qed.

End JoinOrder.

Lemma two_joins_commute_witness :
  Forall2 sameFields
    (resultRows (foldl (@joinStep exampleRuntime exShop) (initialState exOrders)
                       [exJoin LEFT; exBandJoin]))
    (resultRows (foldl (@joinStep exampleRuntime exShop) (initialState exOrders)
                       [exBandJoin; exJoin LEFT])).
Proof.
  refine (proj1 (@two_joins_commute exampleRuntime exShop (initialState exOrders)
                   (exJoin LEFT) exBandJoin exCustomers exBands eq_refl eq_refl _ _ _)).
  - apply (bool_decide_unpack _). vm_compute. exact I.
  - apply (bool_decide_unpack _). vm_compute. exact I.
  - intros k Hk. apply joinedNames_single in Hk as (c & Hc & ->).
    apply (bool_decide_unpack _).
    simpl in Hc. apply elem_of_cons in Hc as [->|Hc%list_elem_of_singleton]; subst;
      vm_compute; exact I.
Defined.

(** ** What the result shares with the tables *)

Section Sharing.
Context `{JsRuntime}.

(** The result of a call shares the column profiles of the base table, and
    nothing else that its arrays hold: in the final store, the columns array
    of the result begins with the very references of the columns array of
    the base table, and every other reference in it, and every reference in
    its rows array, is to an object that the call has made. (A write to a
    row of the result cannot reach a table; a write to one of its first
    column profiles reaches the base table.) *)
Theorem executeDataModel_shares_only_base_columns (σ : Store) refs Ts model d (σ' : Store) :
  readTables σ refs = Some Ts ->
  Imp.executeDataModel refs model σ = (Returns d, σ') ->
  exists baseRef (baseTable : TableObj) baseCols newCols rowRefs,
    lookupKey refs (baseTableId model) = Some baseRef
    /\ σ !! baseRef = Some (OTable baseTable)
    /\ σ !! columnsRef baseTable = Some (OProfileArray baseCols)
    /\ σ' !! columnsRef d = Some (OProfileArray (baseCols ++ newCols))
    /\ Forall (freshFor σ) newCols
    /\ σ' !! rowsRef d = Some (ORowArray rowRefs)
    /\ Forall (freshFor σ) rowRefs.
Proof.
  intros Hts Hcall. unfold Imp.executeDataModel in Hcall.
  pose proof (readTables_lookup σ refs Ts (baseTableId model) Hts) as Hlook.
  destruct (lookupKey refs (baseTableId model)) as [baseRef|] eqn:Hbase; [|done].
  destruct (lookupKey Ts _) as [T|]; [|done].
  apply readTable_Some in Hlook as (t & Ht & Hd & _ & Hname).
  apply readDataSet_Some in Hd as (HTrows & HTcols & HTdims & _ & _ & Hdate & Hmeasure).
  apply readRows_Some in HTrows as (baseRows & HbaseRows & HbaseAll).
  pose proof HTcols as (baseCols & HbaseCols & HbaseColsAll)%readProfiles_Some.
  apply readNames_Some in HTdims.
  set (copies := (fun r => ORow (spread r)) <$> rows T).
  set (σ1 := (σ ++ copies) ++ [ORowArray (seq (length σ) (length (rows T)))]).
  set (σ3 := (σ1 ++ [OProfileArray baseCols]) ++ [ONameArray (dimensions T)]).
  assert (Hσ1 : σ `prefix_of` σ1) by (unfold σ1; by do 2 apply prefix_app_r).
  assert (Hσ3 : σ `prefix_of` σ3) by (unfold σ3; by do 2 apply prefix_app_r).
  assert (Hvars : readVars σ3 (length (σ ++ copies), length σ1, length (σ1 ++ [OProfileArray baseCols]))
                  = Some (initialState T)).
  { apply readVars_Some. cbn [fst snd initialState resultRows resultColumns currentDimensions].
    split; [|split].
    - apply readRows_Some. eexists. split.
      { do 2 apply lookup_app_l_Some. by apply list_lookup_middle. }
      apply Forall2_fmap_r.
      eapply (Forall2_lookup_prefix (σ ++ copies) _ (fun r => ORow (spread r))).
      { unfold σ3, σ1. by do 3 apply prefix_app_r. }
      pose proof (lookup_allocated (fun r => ORow (spread r)) (rows T) σ []) as Hnew.
      rewrite app_nil_r in Hnew. exact Hnew.
    - apply readProfiles_Some. exists baseCols. split.
      { apply lookup_app_l_Some. by apply list_lookup_middle. }
      by eapply Forall2_lookup_prefix.
    - apply readNames_Some. by apply list_lookup_middle. }
  assert (Hstart : resultShares σ baseCols σ3
                     (length (σ ++ copies), length σ1, length (σ1 ++ [OProfileArray baseCols]))).
  { exists [], (seq (length σ) (length (rows T))). cbn [fst snd]. rewrite app_nil_r.
    split; [|split; [|split]].
    - apply lookup_app_l_Some. by apply list_lookup_middle.
    - constructor.
    - do 2 apply lookup_app_l_Some. by apply list_lookup_middle.
    - apply Forall_forall. intros l Hl%elem_of_seq. unfold freshFor. lia. }
  destruct (run_joinSteps σ3 refs Ts _ _ (joins model)
              (readTables_prefix _ _ _ _ Hσ3 Hts) Hvars)
    as ([[rowsVar colsVar] dimsVar] & σ4 & Hrun & Hpre & Hfinal & Hshare).
  specialize (Hshare σ baseCols Hσ3 Hstart).
  apply readVars_Some in Hfinal as (Hr & _ & _). cbn [fst snd] in Hr.
  pose proof Hr as (finalRows & HfinalRows & _)%readRows_Some.
  assert (Hexplicit : exists d0, Imp.executeDataModel refs model σ = (Returns d0, σ4)
                                 /\ rowsRef d0 = rowsVar /\ columnsRef d0 = colsVar).
  { eexists. split; [|split]; cycle 1; [shelve | shelve |].
    unfold Imp.executeDataModel.
    rewrite Hbase.
    eapply run_bind; [by apply run_loadTable |].
    eapply run_bind; [by apply run_loadRowArray |].
    eapply run_bind.
    { apply (run_mapEach_copy loadRow ORow (fun r => ORow (spread r)) baseRows (rows T));
        [apply run_loadRow | done]. }
    eapply run_bind; [apply run_alloc |].
    eapply run_bind.
    { apply run_loadProfileArray. by eapply prefix_lookup_Some. }
    eapply run_bind; [apply run_alloc |].
    eapply run_bind.
    { apply run_loadNameArray, lookup_app_l_Some. by eapply prefix_lookup_Some. }
    eapply run_bind; [apply run_alloc |].
    eapply run_bind; [exact Hrun |].
    eapply run_bind; [by apply run_loadRowArray |].
    reflexivity.
    Unshelve. all: reflexivity. }
  destruct Hexplicit as (d0 & Hrun0 & Hrows0 & Hcols0).
  unfold Imp.executeDataModel in Hrun0. rewrite Hbase in Hrun0.
  rewrite Hrun0 in Hcall. injection Hcall as <- <-.
  destruct Hshare as (newCols & rowRefs & Hc & Hfc & Hrw & Hfr). cbn [fst snd] in Hc, Hrw.
  exists baseRef, t, baseCols, newCols, rowRefs.
  rewrite Hrows0, Hcols0. by repeat split.
Qed.

End Sharing.

Lemma executeDataModel_shares_only_base_columns_witness :
  exists d σ' newCols rowRefs,
    @Imp.executeDataModel exampleRuntime exRefs (mkDataModel "Orders" [exJoin LEFT]) exStore
    = (Returns d, σ')
    /\ σ' !! columnsRef d = Some (OProfileArray ([3; 4; 5] ++ newCols))
    /\ Forall (freshFor exStore) newCols
    /\ σ' !! rowsRef d = Some (ORowArray rowRefs)
    /\ Forall (freshFor exStore) rowRefs.
Proof.
  eexists _, _.
  destruct (@executeDataModel_shares_only_base_columns exampleRuntime exStore exRefs exTables
              (mkDataModel "Orders" [exJoin LEFT]) _ _ eq_refl eq_refl)
    as (baseRef & t & baseCols & newCols & rowRefs & Hbase & Ht & Hcols & Hshared & Hfc
        & Hrows & Hfr).
  exists newCols, rowRefs. split; [reflexivity |].
  injection Hbase as <-. vm_compute in Ht. injection Ht as <-.
  vm_compute in Hcols. injection Hcols as <-.
  split; [exact Hshared |]. split; [exact Hfc |]. split; [exact Hrows | exact Hfr].
Defined.

(** ** Two joins to the same table *)

Section SameTableTwice.
Context `{JsRuntime}.

Lemma joinedRow_LEFT join (rightTable : Table) rightMap leftRow :
  joinType join = LEFT -> is_Some (joinedRow join rightTable rightMap leftRow).
Proof. intros HL. unfold joinedRow. rewrite HL. destruct (rightMap !! _); eauto. Qed.

Lemma joinedRow_overwrites j1 j2 (T : Table) m1 m2 l :
  joinType j1 = LEFT ->
  leftColumn j2 ∉ joinedNames [T] ->
  match joinedRow j1 T m1 l ≫= joinedRow j2 T m2, joinedRow j2 T m2 l with
  | Some r, Some r' => sameFields r r'
  | None, None => True
  | _, _ => False
  end.
Proof.
  intros HL Hleft. destruct (joinedRow_LEFT j1 T m1 l HL) as [r1 Hr1]. rewrite Hr1. csimpl.
  pose proof (joinedRow_agree _ _ _ _ _ Hr1) as Ha1.
  pose proof (joinedRow_added j2 T m2 r1 l (Ha1 _ Hleft)) as Hadd.
  destruct (joinedRow j2 T m2 r1) as [r12|] eqn:Hr12;
    destruct (joinedRow j2 T m2 l) as [r2|] eqn:Hr2; try done.
  intros k. destruct (decide (k ∈ joinedNames [T])) as [Hk|Hk]; [by apply Hadd |].
  rewrite (joinedRow_agree _ _ _ _ _ Hr12 k Hk), (Ha1 k Hk).
  symmetry. by apply (joinedRow_agree _ _ _ _ _ Hr2).
Qed.

Lemma omap_omap_Forall2 {A : Type} (f g g' : A -> option A) (R : A -> A -> Prop)
    (l : list A) :
  (forall a, match f a ≫= g, g' a with
             | Some r, Some r' => R r r'
             | None, None => True
             | _, _ => False
             end) ->
  Forall2 R (omap g (omap f l)) (omap g' l).
Proof.
  intros Hstep. induction l as [|a l IH]; csimpl; [constructor |].
  specialize (Hstep a). destruct (f a) as [b|]; csimpl in *.
  - destruct (g b), (g' a); try done. by constructor.
  - by destruct (g' a).
Qed.

(** What the repeated column names of a table joined twice stand for: the
    second join writes to the fields that the first one wrote to. When the
    first of two joins to the same table is a LEFT join, and the second does
    not join on a column that the table adds, the rows of the result hold
    what the second join alone gives them: nothing of the first join is
    left in the rows, while its columns are listed. *)
Theorem second_join_to_a_table_overwrites_the_first
    (tables : TableCollection) st j1 j2 (T : Table) :
  lookupKey tables (rightTableId j1) = Some T ->
  lookupKey tables (rightTableId j2) = Some T ->
  joinType j1 = LEFT ->
  leftColumn j2 ∉ joinedNames [T] ->
  Forall2 sameFields
          (resultRows (foldl (joinStep tables) st [j1; j2]))
          (resultRows (joinStep tables st j2))
  /\ map name (resultColumns (foldl (joinStep tables) st [j1; j2]))
     = map name (resultColumns st) ++ joinedNames [T] ++ joinedNames [T].
Proof.
  intros H1 H2 HL Hleft. split.
  - cbn [foldl].
    rewrite (joinStep_rows _ _ _ _ H2), (joinStep_rows _ _ _ _ H1), (joinStep_rows _ _ _ _ H2).
    apply omap_omap_Forall2. intros l. by apply joinedRow_overwrites.
  - rewrite joinSteps_columns. f_equal.
    rewrite !joinedTables_cons, H1, H2. unfold joinedTables, joinedNames. csimpl.
    by rewrite !app_nil_r.
Qed.

End SameTableTwice.

Lemma second_join_to_a_table_overwrites_the_first_witness :
  Forall2 sameFields
    (resultRows (foldl (@joinStep exampleRuntime [("Trades", exTrades); ("Customers", exParties)])
                       (initialState exTrades) (joins exTradeModel)))
    (resultRows (@joinStep exampleRuntime [("Trades", exTrades); ("Customers", exParties)]
                   (initialState exTrades)
                   {| joinId := "j2"; rightTableId := "Customers"; leftColumn := "seller";
                      rightColumn := "cust"; joinType := LEFT |})).
Proof.
  refine (proj1 (@second_join_to_a_table_overwrites_the_first exampleRuntime
                   [("Trades", exTrades); ("Customers", exParties)] (initialState exTrades)
                   {| joinId := "j1"; rightTableId := "Customers"; leftColumn := "buyer";
                      rightColumn := "cust"; joinType := LEFT |}
                   {| joinId := "j2"; rightTableId := "Customers"; leftColumn := "seller";
                      rightColumn := "cust"; joinType := LEFT |}
                   exParties eq_refl eq_refl eq_refl _)).
  apply (bool_decide_unpack _). vm_compute. exact I.
Defined.

(** ** What the dashboard reads from a model over a loaded workbook *)

Section LoadedModel.
Context `{JsRuntime}.

Lemma analyzeSheetData_names_its_columns rawRows fileName ds :
  analyzeSheetData rawRows fileName = Returns ds ->
  (forall n cols, sortByScore n cols ≡ₚ cols) ->
  namesItsColumns ds.
Proof.
  intros Hds Hsort. unfold analyzeSheetData in Hds.
  destruct rawRows as [|firstRow rest]; [done |]. injection Hds as <-.
  unfold namesItsColumns. cbn [dimensions primaryDateColumn primaryMeasureColumn columns].
  set (cols := map (fun key => analyzeColumn key (firstRow :: rest)) (objectKeys firstRow)).
  split; [|split].
  - apply Forall_forall. intros d (c & -> & Hc)%list_elem_of_fmap.
    rewrite sortByUnique_perm in Hc. apply list_elem_of_filter in Hc as [_ Hc].
    by apply list_elem_of_fmap_2.
  - intros d Hd. destruct (find _ cols) as [c|] eqn:Hfind; [|done].
    injection Hd as <-. apply find_Some_split in Hfind as (pre & post & -> & _).
    apply list_elem_of_fmap_2, elem_of_app. right. left.
  - intros m Hm.
    destruct (sortByScore _ _) as [|c sorted] eqn:Hsorted; [done |].
    injection Hm as <-.
    assert (Hc : c ∈ c :: sorted) by left. rewrite <- Hsorted in Hc.
    rewrite (Hsort _ _) in Hc. apply list_elem_of_filter in Hc as [_ Hc].
    by apply list_elem_of_fmap_2.
Qed.

Lemma joinedTables_elem (tables : TableCollection) js (T : Table) :
  T ∈ joinedTables tables js -> exists k, lookupKey tables k = Some T.
Proof.
  unfold joinedTables. intros (j & Hj & HT)%list_elem_of_omap. eauto.
Qed.

(** Whatever model the editor ends with, over a workbook that [processFile]
    has loaded: when the model runs, the dimensions and the date and measure
    columns of the result, which the dashboard reads the rows by, are names
    of columns of the result (provided the sort of the runtime permutes the
    array it sorts); and the row count of the result is the number of its
    rows, at most the number of rows of the base sheet. *)
Theorem model_over_a_loaded_workbook_names_its_columns
    sheetNames sheetToJson tables model ds :
  processFile sheetNames sheetToJson = Returns tables ->
  (forall n cols, sortByScore n cols ≡ₚ cols) ->
  executeDataModel tables model = Returns ds ->
  namesItsColumns ds
  /\ rowCount ds = length (rows ds)
  /\ rowCount ds ≤ length (sheetToJson (baseTableId model)).
Proof.
  intros Hload Hsort Hrun.
  destruct (processFile_loaded _ _ _ Hload) as (_ & _ & _ & Hloaded & _).
  destruct (executeDataModel_Returns _ _ _ Hrun) as (b & Hb & Hrows & _ & _ & Hcount).
  assert (Hwf : forall k (T : Table), lookupKey tables k = Some T -> namesItsColumns T).
  { intros k T HT. destruct (Hloaded k T HT) as (_ & _ & Han & _).
    by eapply analyzeSheetData_names_its_columns. }
  split; [|split; [done |]].
  - eapply result_names_its_columns; [exact Hrun | exact Hb | by eapply Hwf |].
    apply Forall_forall. intros T (k & HT)%joinedTables_elem.
    by destruct (Hwf k T HT) as [? _].
  - rewrite Hcount, Hrows. etrans; [apply joinSteps_length_le |].
    cbn [initialState resultRows]. rewrite length_map.
    by destruct (Hloaded _ _ Hb) as (_ & _ & _ & -> & _).
Qed.

End LoadedModel.

Lemma model_over_a_loaded_workbook_names_its_columns_witness :
  exists ds,
    @executeDataModel exampleRuntime exLoaded (mkDataModel "Orders" [exTierJoin]) = Returns ds
    /\ namesItsColumns ds.
Proof.
  eexists. split; [vm_compute; reflexivity |].
  refine (proj1 (@model_over_a_loaded_workbook_names_its_columns exampleRuntime
                   exSheetNames exWorkbook exLoaded (mkDataModel "Orders" [exTierJoin]) _
                   exLoaded_loaded _ eq_refl)).
  intros n cols. reflexivity.
Defined.

(** ** The alerts of the quality report *)

Section QualityReport.
Context `{JsRuntime}.

Lemma nullCount_positive_iff key rows :
  0 < nullCount (analyzeColumn key rows)
  <-> ~ Forall (fun val => isAbsent val = false) (columnValues key rows).
Proof.
  destruct (analyzeColumn_fields key rows) as (_ & _ & -> & _).
  destruct (scan_result key rows) as (_ & Hn & _).
  assert (Hcols : length (columnValues key rows) = length rows)
    by (unfold columnValues; apply length_map).
  pose proof (length_filter (fun val => isAbsent val = false) (columnValues key rows)) as Hle.
  fold (presentValues key rows) in Hle. split.
  - intros Hpos Hall. apply (filter_all (fun val => isAbsent val = false)) in Hall.
    fold (presentValues key rows) in Hall.
    rewrite Hall in Hn. lia.
  - intros Hno. destruct (decide (0 < nulls (foldl (scanRow key) scanStart rows))); [done |].
    destruct Hno.
    apply (filter_all_length (fun val => isAbsent val = false) (columnValues key rows)).
    fold (presentValues key rows). lia.
Qed.

(** On the report of a sheet, for every column: the badge "all unique" is
    shown exactly when the column is a key of the rows, the alert on missing
    values exactly when some row has an absent value in the column, and
    never both. *)
Theorem quality_alerts_of_a_sheet rawRows fileName ds :
  analyzeSheetData rawRows fileName = Returns ds ->
  Forall (fun col =>
            (showsAllUnique ds col = true
             <-> Forall (fun val => isAbsent val = false) (columnValues (name col) rawRows)
                 /\ pairwiseDistinct (columnValues (name col) rawRows))
            /\ (showsMissingAlert col = true
                <-> ~ Forall (fun val => isAbsent val = false)
                             (columnValues (name col) rawRows))
            /\ ~ (showsAllUnique ds col = true /\ showsMissingAlert col = true))
         (columns ds).
Proof.
  intros Hds. destruct (analyzeSheetData_columns _ _ _ Hds) as (_ & Hcount & _ & Hcols).
  eapply Forall_impl; [exact Hcols |]. intros col Hcol. cbv beta in Hcol.
  assert (Hu : uniqueCount col = uniqueCount (analyzeColumn (name col) rawRows))
    by (by rewrite <- Hcol).
  assert (Hn : nullCount col = nullCount (analyzeColumn (name col) rawRows))
    by (by rewrite <- Hcol).
  unfold showsAllUnique, showsMissingAlert.
  rewrite Hcount, Nat.eqb_eq, Nat.ltb_lt, Hu, Hn.
  rewrite uniqueCount_full_iff, nullCount_positive_iff.
  split; [done |]. split; [done |]. by intros [[Hall _] Hno].
Qed.

End QualityReport.

Lemma quality_alerts_of_a_sheet_witness :
  exists ds,
    @analyzeSheetData exampleRuntime exCustomerSheet "Customers" = Returns ds
    /\ map (fun col => (name col, showsAllUnique ds col, showsMissingAlert col)) (columns ds)
       = [("cust", true, false); ("tier", false, false)]
    /\ Forall (fun col => ~ (showsAllUnique ds col = true /\ showsMissingAlert col = true))
              (columns ds).
Proof.
  eexists. split; [vm_compute; reflexivity |]. split; [vm_compute; reflexivity |].
  eapply Forall_impl;
    [exact (@quality_alerts_of_a_sheet exampleRuntime exCustomerSheet "Customers" _ eq_refl) |].
  intros col (_ & _ & Hboth). exact Hboth.
Defined.
